(** * Stratified train/dev/test split allocator (scripts/create_splits.py)

    A shallow embedding of the split script: grouping of the item pool by
    (difficulty_level, table), the floor allocation per stratum, the
    deficit-correction pass [adjust_for_target], the final reconciliation,
    the seeded shuffle and slicing, the uniqueness assertion and the
    order-preserving assembly of the three output lists.

    Python integers are [Z].  Python floats are IEEE binary64 values; the
    script only multiplies an integer by a fraction, subtracts an integer
    from such a product, compares, floors and rounds, so a float is kept
    as a dyadic rational [fnum / 2^fexp] and every arithmetic result is
    rounded to 53 significant bits, ties to even (module [F64]).  Exponent
    overflow and underflow are outside the model; neither can occur for
    pools of fewer than 2^53 items and fractions between 2^-1000 and 1. *)

From Stdlib Require Import String Ascii.
From Stdlib Require Import ZArith List Bool Lia Permutation Sorted.
Import ListNotations.
Open Scope Z_scope.

(** ** Binary64 arithmetic as used by the script *)

Module F64.

Record float := mk { fnum : Z; fexp : N }.

(* Round-to-nearest, ties-to-even, of q + r/2^s given half = 2^(s-1). *)
Definition rne (q r half : Z) : Z :=
  if (half <? r) || ((r =? half) && Z.odd q) then q + 1 else q.

(* A non-negative numerator rounded to 53 significant bits. *)
Definition round53 (x : Z) : Z :=
  let s := Z.log2 x + 1 - 53 in
  if s <=? 0 then x
  else let q := Z.shiftr x s in
       let r := x - Z.shiftl q s in
       Z.shiftl (rne q r (Z.shiftl 1 (s - 1))) s.

Definition round53s (x : Z) : Z := Z.sgn x * round53 (Z.abs x).

(* float(n) for a Python int n. *)
Definition of_int (n : Z) : float := mk (round53s n) 0.

(* a * b *)
Definition mul (a b : float) : float :=
  mk (round53s (fnum a * fnum b)) (fexp a + fexp b).

(* a - b *)
Definition sub (a b : float) : float :=
  let p := N.max (fexp a) (fexp b) in
  mk (round53s (fnum a * 2 ^ Z.of_N (p - fexp a)
                - fnum b * 2 ^ Z.of_N (p - fexp b))) p.

(* a < b *)
Definition ltb (a b : float) : bool :=
  fnum a * 2 ^ Z.of_N (fexp b) <? fnum b * 2 ^ Z.of_N (fexp a).

Definition leb (a b : float) : bool :=
  fnum a * 2 ^ Z.of_N (fexp b) <=? fnum b * 2 ^ Z.of_N (fexp a).

(* math.floor(a) *)
Definition floor (a : float) : Z := fnum a / 2 ^ Z.of_N (fexp a).

(* round(a): nearest integer, ties to even, as float.__round__ does. *)
Definition py_round (a : float) : Z :=
  let d := 2 ^ Z.of_N (fexp a) in
  let q := fnum a / d in
  let r := fnum a mod d in
  if (d <? 2 * r) || ((2 * r =? d) && Z.odd q) then q + 1 else q.

(* A fraction between 0 and 1. *)
Definition unit_frac (f : float) : Prop :=
  0 <= fnum f <= 2 ^ Z.of_N (fexp f).

(* f is the binary64 value nearest to the rational num/den: a 53-bit
   significand within half a unit in the last place. *)
Definition nearest_to (num den : Z) (f : float) : Prop :=
  2 ^ 52 <= fnum f < 2 ^ 53
  /\ 2 * Z.abs (den * fnum f - num * 2 ^ Z.of_N (fexp f)) <= den.

End F64.

(** ** Python exceptions and the outcome of a run *)

Inductive exn :=
| KeyError (key : string)
| IndexError
| ZeroDivisionError
| AssertionError.

(* [OutOfFuel] stands for a loop that has not finished within the fuel
   given to it; it is not a Python exception. *)
Inductive outcome (A : Type) :=
| Ok (a : A)
| Raise (e : exn)
| OutOfFuel.

Arguments Ok {A} a.
Arguments Raise {A} e.
Arguments OutOfFuel {A}.

Definition bind {A B} (c : outcome A) (k : A -> outcome B) : outcome B :=
  match c with
  | Ok a => k a
  | Raise e => Raise e
  | OutOfFuel => OutOfFuel
  end.

Notation "x <- c ;; k" := (bind c (fun x => k))
  (at level 61, c at next level, right associativity).
Notation "' pat <- c ;; k" := (bind c (fun x => match x with pat => k end))
  (at level 61, pat pattern, c at next level, right associativity).

Fixpoint mapM {A B} (f : A -> outcome B) (l : list A) : outcome (list B) :=
  match l with
  | [] => Ok []
  | a :: r => b <- f a ;; bs <- mapM f r ;; Ok (b :: bs)
  end.

(** ** Data model *)

(* One record of data/all.json.  The three keys the script reads are
   optional: [None] is a JSON object without that key.  The remaining
   fields are the payload the script never looks at. *)
Record item := {
  id : option Z;
  difficulty_level : option string;
  table : option string;
  question_en : string;
  question_ny : string;
  sql_statement : string;
  sql_result : string
}.

(* it[name] *)
Definition field {A} (name : string) (o : option A) : outcome A :=
  match o with
  | Some a => Ok a
  | None => Raise (KeyError name)
  end.

(* The stratum key (difficulty_level, table). *)
Definition key := (string * string)%type.

Definition key_eqb (a b : key) : bool :=
  String.eqb (fst a) (fst b) && String.eqb (snd a) (snd b).

(* Tuple comparison of two keys: first components, then second.  Python
   compares strings by code point, which on UTF-8 bytes is the byte order. *)
Definition key_ltb (a b : key) : bool :=
  match String.compare (fst a) (fst b) with
  | Lt => true
  | Gt => false
  | Eq => String.ltb (snd a) (snd b)
  end.

(* The module-level constants SEED, TRAIN_FRAC, DEV_FRAC, TEST_FRAC. *)
Record config := {
  SEED : Z;
  TRAIN_FRAC : F64.float;
  DEV_FRAC : F64.float;
  TEST_FRAC : F64.float
}.

(* 0.70 and 0.15 as binary64: 0x1.6666666666666p-1 and 0x1.3333333333333p-3. *)
Definition default_config : config :=
  {| SEED := 42;
     TRAIN_FRAC := F64.mk 6305039478318694 53;
     DEV_FRAC := F64.mk 5404319552844595 55;
     TEST_FRAC := F64.mk 5404319552844595 55 |}.

(* The per-stratum dict stored in group_alloc[k]. *)
Record alloc := {
  size : Z;
  ideal_train : F64.float;
  ideal_dev : F64.float;
  train : Z;
  dev : Z;
  test : Z
}.

(* The split_key argument of adjust_for_target: 'train' or 'dev'. *)
Inductive split := Train | Dev.

(* v[split_key] *)
Definition count (sk : split) (v : alloc) : Z :=
  match sk with Train => train v | Dev => dev v end.

(* v['ideal_' + split_key] *)
Definition ideal (sk : split) (v : alloc) : F64.float :=
  match sk with Train => ideal_train v | Dev => ideal_dev v end.

(* v[split_key] = c *)
Definition set_count (sk : split) (c : Z) (v : alloc) : alloc :=
  match sk with
  | Train => {| size := size v; ideal_train := ideal_train v;
                ideal_dev := ideal_dev v; train := c; dev := dev v;
                test := test v |}
  | Dev => {| size := size v; ideal_train := ideal_train v;
              ideal_dev := ideal_dev v; train := train v; dev := c;
              test := test v |}
  end.

(* v['test'] = v['size'] - v['train'] - v['dev'] *)
Definition recompute_test (v : alloc) : alloc :=
  {| size := size v; ideal_train := ideal_train v; ideal_dev := ideal_dev v;
     train := train v; dev := dev v; test := size v - train v - dev v |}.

(* v[split_key] += 1 followed by the recomputation of v['test']. *)
Definition bump (sk : split) (v : alloc) : alloc :=
  recompute_test (set_count sk (count sk v + 1) v).

(** ** Insertion-ordered dictionaries *)

(* A Python dict is kept as an association list in insertion order with
   pairwise distinct keys; the order is what the script iterates in. *)
Section Dict.
Context {K V : Type} (eqb : K -> K -> bool).

Fixpoint dict_get (k : K) (d : list (K * V)) : option V :=
  match d with
  | [] => None
  | (k', v) :: r => if eqb k' k then Some v else dict_get k r
  end.

(* d[k] = v: overwrite in place, or append a new entry. *)
Fixpoint dict_set (k : K) (v : V) (d : list (K * V)) : list (K * V) :=
  match d with
  | [] => [(k, v)]
  | (k', v') :: r =>
      if eqb k' k then (k', v) :: r else (k', v') :: dict_set k v r
  end.

(* In-place mutation of the value stored under k. *)
Definition dict_update (k : K) (f : V -> V) (d : list (K * V)) : list (K * V) :=
  map (fun kv => if eqb (fst kv) k then (fst kv, f (snd kv)) else kv) d.

End Dict.

Definition group_alloc_t := list (key * alloc).
Definition groups_t := list (key * list Z).

(* groups[key].append(i) on a defaultdict(list). *)
Fixpoint groups_append (k : key) (i : Z) (groups : groups_t) : groups_t :=
  match groups with
  | [] => [(k, [i])]
  | (k', ids) :: r =>
      if key_eqb k' k then (k', ids ++ [i]) :: r
      else (k', ids) :: groups_append k i r
  end.

Definition zsum (l : list Z) : Z := fold_right Z.add 0 l.

(* sum(v[split_key] for v in group_alloc.values()) *)
Definition total (sk : split) (ga : group_alloc_t) : Z :=
  zsum (map (fun kv => count sk (snd kv)) ga).

(** ** Lines 25-54: ids, groups, targets and the floor allocation *)

(* id_to_item = {it['id']: it for it in items} *)
Fixpoint build_id_to_item (items : list item) (d : list (Z * item))
  : outcome (list (Z * item)) :=
  match items with
  | [] => Ok d
  | it :: r => i <- field "id" (id it) ;;
               build_id_to_item r (dict_set Z.eqb i it d)
  end.

(* all_ids = [it['id'] for it in items] *)
Definition build_all_ids (items : list item) : outcome (list Z) :=
  mapM (fun it => field "id" (id it)) items.

(* for it in items: key = (...); groups[key].append(it['id']) *)
Fixpoint build_groups (items : list item) (groups : groups_t)
  : outcome groups_t :=
  match items with
  | [] => Ok groups
  | it :: r =>
      d <- field "difficulty_level" (difficulty_level it) ;;
      t <- field "table" (table it) ;;
      i <- field "id" (id it) ;;
      build_groups r (groups_append (d, t) i groups)
  end.

(* int(round(n * frac)) *)
Definition target (n : Z) (frac : F64.float) : Z :=
  F64.py_round (F64.mul (F64.of_int n) frac).

(* The body of the loop that fills group_alloc. *)
Definition floor_alloc (cfg : config) (ids : list Z) : alloc :=
  let g := Z.of_nat (length ids) in
  let ideal_train := F64.mul (F64.of_int g) (TRAIN_FRAC cfg) in
  let ideal_dev := F64.mul (F64.of_int g) (DEV_FRAC cfg) in
  let f_train := F64.floor ideal_train in
  let f_dev := F64.floor ideal_dev in
  let f_test := g - f_train - f_dev in
  {| size := g; ideal_train := ideal_train; ideal_dev := ideal_dev;
     train := f_train; dev := f_dev; test := f_test |}.

Definition init_group_alloc (cfg : config) (groups : groups_t) : group_alloc_t :=
  map (fun kids => (fst kids, floor_alloc cfg (snd kids))) groups.

(** ** Lines 56-87: adjust_for_target *)

Definition frac_entry := (F64.float * key * Z)%type.

(* fracs.sort(key=lambda x: x[0], reverse=True): a stable sort, so entries
   with equal remainders keep their dict order. *)
Fixpoint insert_frac (x : frac_entry) (l : list frac_entry) : list frac_entry :=
  match l with
  | [] => [x]
  | y :: r =>
      if F64.ltb (fst (fst x)) (fst (fst y)) then y :: insert_frac x r
      else x :: y :: r
  end.

Definition sort_fracs (l : list frac_entry) : list frac_entry :=
  fold_right insert_frac [] l.

(* The ranked walk: while deficit > 0 and i < len(fracs). *)
Fixpoint walk (sk : split) (fracs : list frac_entry) (deficit : Z)
  (ga : group_alloc_t) : group_alloc_t * Z :=
  match fracs with
  | [] => (ga, deficit)
  | (_, k, cap) :: rest =>
      if 0 <? deficit then
        if 0 <? cap then walk sk rest (deficit - 1) (dict_update key_eqb k (bump sk) ga)
        else walk sk rest deficit ga
      else (ga, deficit)
  end.

(* The round-robin fallback: while deficit > 0, over keys[idx % len(keys)]. *)
Fixpoint round_robin (fuel : nat) (sk : split) (keys : list key) (idx : nat)
  (deficit : Z) (ga : group_alloc_t) : outcome group_alloc_t :=
  if 0 <? deficit then
    match fuel with
    | O => OutOfFuel
    | S fuel' =>
        match keys with
        | [] => Raise ZeroDivisionError
        | k0 :: _ =>
            let k := nth (idx mod length keys)%nat keys k0 in
            match dict_get key_eqb k ga with
            | None => Raise (KeyError "group_alloc")
            | Some v =>
                if count sk v <? size v then
                  round_robin fuel' sk keys (S idx) (deficit - 1)
                    (dict_update key_eqb k (bump sk) ga)
                else round_robin fuel' sk keys (S idx) deficit ga
            end
        end
    end
  else Ok ga.

(* The (frac, k, capacity) tuple appended to fracs for one stratum. *)
Definition frac_of (split_key : split) (kv : key * alloc) : frac_entry :=
  let v := snd kv in
  let frac := F64.sub (ideal split_key v) (F64.of_int (count split_key v)) in
  let capacity := size v - train v - dev v in
  (frac, fst kv, capacity).

Definition adjust_for_target (fuel : nat) (split_key : split)
  (target_total : Z) (group_alloc : group_alloc_t) : outcome group_alloc_t :=
  let current_total := total split_key group_alloc in
  let deficit := target_total - current_total in
  if deficit =? 0 then Ok group_alloc
  else
    let fracs := sort_fracs (map (frac_of split_key) group_alloc) in
    let (ga, deficit) := walk split_key fracs deficit group_alloc in
    if 0 <? deficit then round_robin fuel split_key (map fst ga) 0 deficit ga
    else Ok ga.

(* The allocation as it stands after line 87, before the reconciliation. *)
Definition adjusted (fuel : nat) (cfg : config) (n : Z) (groups : groups_t)
  : outcome group_alloc_t :=
  ga <- adjust_for_target fuel Train (target n (TRAIN_FRAC cfg))
          (init_group_alloc cfg groups) ;;
  adjust_for_target fuel Dev (target n (DEV_FRAC cfg)) ga.

(** ** Lines 89-122: final reconciliation *)

(* One of the two reconciliation loops, for k, v in group_alloc.items().
   [done] holds the entries already visited, [todo] those still ahead; only
   the entry being visited is mutated. *)
Fixpoint reconcile_loop (sk : split) (target_total : Z)
  (done todo : group_alloc_t) (diff : Z) : group_alloc_t :=
  match todo with
  | [] => done
  | (k, v) :: rest =>
      if diff =? 0 then done ++ todo
      else
        let can := if 0 <? diff then test v else count sk v in
        let change := Z.min (Z.abs diff) can in
        if change <=? 0 then reconcile_loop sk target_total (done ++ [(k, v)]) rest diff
        else
          let c := if 0 <? diff then count sk v + change else count sk v - change in
          let v' := recompute_test (set_count sk c v) in
          let diff' := target_total - total sk (done ++ (k, v') :: rest) in
          reconcile_loop sk target_total (done ++ [(k, v')]) rest diff'
  end.

Definition reconcile (target_train target_dev : Z) (ga : group_alloc_t)
  : group_alloc_t :=
  let sum_train := total Train ga in
  let sum_dev := total Dev ga in
  let ga :=
    if sum_train =? target_train then ga
    else reconcile_loop Train target_train [] ga (target_train - sum_train) in
  if sum_dev =? target_dev then ga
  else reconcile_loop Dev target_dev [] ga (target_dev - sum_dev).

(* Lines 35-122 as a whole: the counts the slices are cut by. *)
Definition allocate (fuel : nat) (cfg : config) (n : Z) (groups : groups_t)
  : outcome group_alloc_t :=
  ga <- adjusted fuel cfg n groups ;;
  Ok (reconcile (target n (TRAIN_FRAC cfg)) (target n (DEV_FRAC cfg)) ga).

(** ** Lines 124-140: seeded shuffle and slicing *)

(* random.Random: the generator is not code of this repository.  It is an
   interface with the one contract the shuffle relies on,
   0 <= _randbelow(n) < n. *)
Class PRNG := {
  rng : Type;
  Random : Z -> rng;
  randbelow : rng -> nat -> nat * rng;
  randbelow_lt : forall s n, (0 < n)%nat -> (fst (randbelow s n) < n)%nat
}.

Fixpoint set_nth {A} (i : nat) (a : A) (l : list A) : list A :=
  match l, i with
  | [], _ => []
  | _ :: r, O => a :: r
  | b :: r, S i' => b :: set_nth i' a r
  end.

(* x[i], x[j] = x[j], x[i] *)
Definition swap {A} (x : list A) (i j : nat) : outcome (list A) :=
  match nth_error x j, nth_error x i with
  | Some xj, Some xi => Ok (set_nth j xi (set_nth i xj x))
  | _, _ => Raise IndexError
  end.

(* for i in reversed(range(1, len(x))): j = randbelow(i + 1); swap *)
Fixpoint shuffle_from {A} `{PRNG} (i : nat) (x : list A) (s : rng)
  : outcome (list A * rng) :=
  match i with
  | O => Ok (x, s)
  | S i' =>
      let (j, s') := randbelow s (S i) in
      x' <- swap x i j ;;
      shuffle_from i' x' s'
  end.

Definition shuffle {A} `{PRNG} (x : list A) (s : rng) : outcome (list A * rng) :=
  shuffle_from (length x - 1) x s.

(* A slice bound as Python clamps it. *)
Definition py_index (len i : Z) : Z :=
  if i <? 0 then Z.max (i + len) 0 else Z.min i len.

(* l[lo:hi]; [None] is an omitted bound. *)
Definition py_slice {A} (l : list A) (lo hi : option Z) : list A :=
  let len := Z.of_nat (length l) in
  let lo' := match lo with None => 0 | Some i => py_index len i end in
  let hi' := match hi with None => len | Some i => py_index len i end in
  firstn (Z.to_nat (hi' - lo')) (skipn (Z.to_nat lo') l).

Definition id_lists := (list Z * list Z * list Z)%type.

(* Insertion into a list of (key, ids) pairs sorted by key. *)
Fixpoint insert_group (x : key * list Z) (l : groups_t) : groups_t :=
  match l with
  | [] => [x]
  | y :: r =>
      if key_ltb (fst y) (fst x) then y :: insert_group x r
      else x :: y :: r
  end.

(* sorted(groups.items()); the keys are distinct, so the id lists are never
   compared. *)
Definition sort_groups (groups : groups_t) : groups_t :=
  fold_right insert_group [] groups.

(* for k, ids in sorted(groups.items()): shuffle, slice, extend. *)
Fixpoint assign_ids `{PRNG} (gs : groups_t) (ga : group_alloc_t) (s : rng)
  (acc : id_lists) : outcome id_lists :=
  match gs with
  | [] => Ok acc
  | (k, ids) :: rest =>
      '(ids_sorted, s') <- shuffle ids s ;;
      match dict_get key_eqb k ga with
      | None => Raise (KeyError "group_alloc")
      | Some a =>
          let tcount := train a in
          let dcount := dev a in
          let train_chunk := py_slice ids_sorted None (Some tcount) in
          let dev_chunk := py_slice ids_sorted (Some tcount) (Some (tcount + dcount)) in
          let test_chunk := py_slice ids_sorted (Some (tcount + dcount)) None in
          let '(train_ids, dev_ids, test_ids) := acc in
          assign_ids rest ga s'
            (train_ids ++ train_chunk, dev_ids ++ dev_chunk, test_ids ++ test_chunk)
      end
  end.

(** ** Lines 142-183: assertion, output lists and report *)

(* i in set(chosen) *)
Definition mem (i : Z) (chosen : list Z) : bool := existsb (Z.eqb i) chosen.

(* [id_to_item[i] for i in all_ids if i in set(chosen)] *)
Definition select (id_to_item : list (Z * item)) (all_ids chosen : list Z)
  : outcome (list item) :=
  mapM (fun i => match dict_get Z.eqb i id_to_item with
                 | Some it => Ok it
                 | None => Raise (KeyError "id_to_item")
                 end)
       (filter (fun i => mem i chosen) all_ids).

(* The 'total', 'targets' and 'actual' entries of split_verification.json;
   the per-label counters follow the script, in [breakdowns]. *)
Record report := {
  total_items : Z;
  targets : Z * Z * Z;
  actual : Z * Z * Z
}.

Record outputs := {
  train_list : list item;
  dev_list : list item;
  test_list : list item;
  ver_report : report
}.

(* len(set(train_ids) | set(dev_ids) | set(test_ids)) *)
Definition distinct_count (ids : id_lists) : Z :=
  let '(train_ids, dev_ids, test_ids) := ids in
  Z.of_nat (length (nodup Z.eq_dec (train_ids ++ dev_ids ++ test_ids))).

(** ** The script *)

Definition main `{PRNG} (fuel : nat) (cfg : config) (items : list item)
  : outcome outputs :=
  let n := Z.of_nat (length items) in
  id_to_item <- build_id_to_item items [] ;;
  all_ids <- build_all_ids items ;;
  groups <- build_groups items [] ;;
  let target_train := target n (TRAIN_FRAC cfg) in
  let target_dev := target n (DEV_FRAC cfg) in
  let target_test := n - target_train - target_dev in
  ga <- allocate fuel cfg n groups ;;
  ids <- assign_ids (sort_groups groups) ga (Random (SEED cfg)) ([], [], []) ;;
  if distinct_count ids =? n then
    let '(train_ids, dev_ids, test_ids) := ids in
    train_list <- select id_to_item all_ids train_ids ;;
    dev_list <- select id_to_item all_ids dev_ids ;;
    test_list <- select id_to_item all_ids test_ids ;;
    Ok {| train_list := train_list; dev_list := dev_list; test_list := test_list;
          ver_report :=
            {| total_items := n;
               targets := (target_train, target_dev, target_test);
               actual := (Z.of_nat (length train_list),
                          Z.of_nat (length dev_list),
                          Z.of_nat (length test_list)) |} |}
  else Raise AssertionError.

(** ** Lines 159-181: the per-label counters of the verification report *)

(* A collections.Counter over labels, as the dict it is turned into: one
   entry per distinct label, in order of first occurrence. *)
Definition counter := list (string * Z).

(* c[x] += 1 *)
Fixpoint counter_add (x : string) (c : counter) : counter :=
  match c with
  | [] => [(x, 1)]
  | (y, n) :: r =>
      if String.eqb y x then (y, n + 1) :: r else (y, n) :: counter_add x r
  end.

(* Counter(labels) *)
Definition Counter (labels : list string) : counter :=
  fold_left (fun c x => counter_add x c) labels [].

(* breakdown(lst): both list comprehensions are evaluated in full, the
   difficulty one first. *)
Definition breakdown (lst : list item) : outcome (counter * counter) :=
  diffs <- mapM (fun it => field "difficulty_level" (difficulty_level it)) lst ;;
  tabs <- mapM (fun it => field "table" (table it)) lst ;;
  Ok (Counter diffs, Counter tabs).

(* The six counter entries of split_verification.json. *)
Record breakdowns := {
  train_diff : counter;
  dev_diff : counter;
  test_diff : counter;
  train_tab : counter;
  dev_tab : counter;
  test_tab : counter
}.

Definition verification (out : outputs) : outcome breakdowns :=
  '(train_diff, train_tab) <- breakdown (train_list out) ;;
  '(dev_diff, dev_tab) <- breakdown (dev_list out) ;;
  '(test_diff, test_tab) <- breakdown (test_list out) ;;
  Ok {| train_diff := train_diff; dev_diff := dev_diff; test_diff := test_diff;
        train_tab := train_tab; dev_tab := dev_tab; test_tab := test_tab |}.

(* Lines 21-183: the run followed by the counters of the report. *)
Definition script `{PRNG} (fuel : nat) (cfg : config) (items : list item)
  : outcome (outputs * breakdowns) :=
  out <- main fuel cfg items ;;
  b <- verification out ;;
  Ok (out, b).

(** ** A small generator for running the model on examples *)

Definition lcg_next (s : nat) : nat := ((s * 75 + 74) mod 4093)%nat.

#[export] Instance lcg : PRNG :=
  {| rng := nat;
     Random := fun seed => Z.to_nat (Z.abs seed);
     randbelow := fun s n => ((lcg_next s mod n)%nat, lcg_next s);
     randbelow_lt := fun s n H => Nat.mod_upper_bound (lcg_next s) n (Nat.neq_sym _ _ (Nat.lt_neq _ _ H)) |}.

(** ** Example pools *)

Definition mk_item (i : Z) (d t : string) : item :=
  {| id := Some i; difficulty_level := Some d; table := Some t;
     question_en := ""; question_ny := ""; sql_statement := ""; sql_result := "" |}.

Definition pool10 : list item :=
  map (fun i => mk_item i "easy" "production") [1; 2; 3; 4; 5; 6; 7]
  ++ map (fun i => mk_item i "hard" "production") [8; 9; 10].


Definition easy : key := ("easy"%string, "production"%string).
Definition hard : key := ("hard"%string, "production"%string).
Definition g10 : groups_t := [(easy, [1; 2; 3; 4; 5; 6; 7]); (hard, [8; 9; 10])].

(* The same ten items with the hard ones first in the file. *)
Definition pool10_hard_first : list item :=
  map (fun i => mk_item i "hard" "production") [8; 9; 10]
  ++ map (fun i => mk_item i "easy" "production") [1; 2; 3; 4; 5; 6; 7].

(* 0.5 / 0.5 / 0.0 *)
Definition half_half : config :=
  {| SEED := 42; TRAIN_FRAC := F64.mk 1 1; DEV_FRAC := F64.mk 1 1;
     TEST_FRAC := F64.mk 0 0 |}.

Definition pool3 : list item :=
  map (fun i => mk_item i "easy" "production") [1; 2; 3].

(* 0.6 / 0.33 / 0.07 *)
Definition cfg_60_33_07 : config :=
  {| SEED := 42; TRAIN_FRAC := F64.mk 5404319552844595 53;
     DEV_FRAC := F64.mk 5944751508129055 54;
     TEST_FRAC := F64.mk 1261007895663739 54 |}.

Definition g8 : groups_t :=
  [(("easy"%string, "population"%string), [1]);
   (("easy"%string, "production"%string), [2]);
   (("hard"%string, "production"%string), [3; 4; 5; 6; 7; 8])].



(* 0.5 / 0.25 / 0.5: the three fractions add up to 1.25. *)
Definition cfg_sum_125 : config :=
  {| SEED := 42; TRAIN_FRAC := F64.mk 1 1; DEV_FRAC := F64.mk 1 2;
     TEST_FRAC := F64.mk 1 1 |}.

(* An item whose difficulty label is the empty string. *)
Definition unlabelled : item := mk_item 11 "" "production".

(* The ten items followed by an eleventh whose id is already taken. *)
Definition pool_dup : list item := pool10 ++ [mk_item 3 "hard" "production"].

(* An item without the 'table' key. *)
Definition keyless : item :=
  {| id := Some 12; difficulty_level := Some "easy"%string; table := None;
     question_en := ""; question_ny := ""; sql_statement := ""; sql_result := "" |}.

(* An item without any of the three keys. *)
Definition bare : item :=
  {| id := None; difficulty_level := None; table := None;
     question_en := ""; question_ny := ""; sql_statement := ""; sql_result := "" |}.


(* 1.0 / 0.5 / 0.0 *)
Definition cfg_all_train : config :=
  {| SEED := 42; TRAIN_FRAC := F64.mk 1 0; DEV_FRAC := F64.mk 1 1;
     TEST_FRAC := F64.mk 0 0 |}.

(* it with its English question replaced. *)
Definition with_question (q : string) (it : item) : item :=
  {| id := id it; difficulty_level := difficulty_level it; table := table it;
     question_en := q; question_ny := question_ny it;
     sql_statement := sql_statement it; sql_result := sql_result it |}.

(* The ten items with another payload. *)
Definition pool10_reworded : list item :=
  map (with_question "How much maize was harvested?") pool10.

(** * Vocabulary of the statements *)

Definition alloc_ok (v : alloc) : Prop :=
  0 <= train v <= size v /\ 0 <= dev v <= size v /\ test v = size v - train v - dev v.
Definition shape (ga : group_alloc_t) : list (key * Z) :=
  map (fun kv => (fst kv, size (snd kv))) ga.
Definition other (sk : split) : split := match sk with Train => Dev | Dev => Train end.
Definition total_size (ga : group_alloc_t) : Z := zsum (map (fun kv => size (snd kv)) ga).

(* Entry-wise relation between two states of group_alloc. *)
Definition pointwise (R : key -> alloc -> alloc -> Prop) (ga ga' : group_alloc_t) : Prop :=
  Forall2 (fun kv kv' => fst kv' = fst kv /\ R (fst kv) (snd kv) (snd kv')) ga ga'.

(* What every pass over split sk leaves alone. *)
Definition frame (sk : split) (v v' : alloc) : Prop :=
  size v' = size v /\ ideal_train v' = ideal_train v /\ ideal_dev v' = ideal_dev v
  /\ count (other sk) v' = count (other sk) v /\ (alloc_ok v -> alloc_ok v').

Definition raised (sk : split) (v v' : alloc) : Prop :=
  frame sk v v' /\ count sk v <= count sk v'.

Definition raised1 (sk : split) (v v' : alloc) : Prop :=
  frame sk v v' /\ count sk v <= count sk v' <= count sk v + 1.

Definition fkeys (fracs : list frac_entry) : list key := map (fun e => snd (fst e)) fracs.

(* Number of ranked entries with spare capacity. *)
Definition npos (fracs : list frac_entry) : Z :=
  Z.of_nat (length (filter (fun e : frac_entry => 0 <? snd e) fracs)).

Definition caps_agree (ga : group_alloc_t) (fracs : list frac_entry) : Prop :=
  forall f k cap, In (f, k, cap) fracs ->
    exists v, In (k, v) ga /\ cap = size v - train v - dev v.

Definition walk_rel (sk : split) (fracs : list frac_entry) (k : key) (v v' : alloc) : Prop :=
  v' = v \/ (In k (fkeys fracs) /\ 0 < size v - train v - dev v /\ v' = bump sk v).

Definition eligible (sk : split) (ga : group_alloc_t) (k : key) : Prop :=
  exists v, In (k, v) ga /\ count sk v < size v.

(* Number of strata with spare capacity. *)
Definition spare (ga : group_alloc_t) : Z :=
  Z.of_nat (length (filter (fun kv : key * alloc =>
                              0 <? size (snd kv) - train (snd kv) - dev (snd kv)) ga)).

Definition kept (v v' : alloc) : Prop :=
  size v' = size v /\ (alloc_ok v -> alloc_ok v').

(* An item carrying the three keys the script reads. *)
Definition complete (it : item) : Prop :=
  id it <> None /\ difficulty_level it <> None /\ table it <> None.

Definition id_of (it : item) : Z := match id it with Some i => i | None => 0 end.

Definition key_of (it : item) : key :=
  (match difficulty_level it with Some d => d | None => EmptyString end,
   match table it with Some t => t | None => EmptyString end).

Definition sizes_of (g : groups_t) : list (key * Z) :=
  map (fun kids => (fst kids, Z.of_nat (length (snd kids)))) g.

(* Sum over the groups of a quantity read from each group's allocation. *)
Definition lookup_sum (f : alloc -> Z) (gs : groups_t) (ga : group_alloc_t) : Z :=
  zsum (map (fun kids : key * list Z =>
               match dict_get key_eqb (fst kids) ga with
               | Some a => f a
               | None => 0
               end) gs).

Definition allocs_cover (gs : groups_t) (ga : group_alloc_t) : Prop :=
  forall k ids, In (k, ids) gs ->
    exists a, dict_get key_eqb k ga = Some a
           /\ size a = Z.of_nat (length ids) /\ alloc_ok a.

Definition valid_fractions (cfg : config) : Prop :=
  F64.unit_frac (TRAIN_FRAC cfg) /\ F64.unit_frac (DEV_FRAC cfg).


(* The outputs written for given id lists. *)
Definition pick (chosen : list Z) (items : list item) : list item :=
  filter (fun it => mem (id_of it) chosen) items.

Definition outputs_of (cfg : config) (items : list item) (ids : id_lists) : outputs :=
  let '(tr, dv, te) := ids in
  let n := Z.of_nat (length items) in
  {| train_list := pick tr items; dev_list := pick dv items; test_list := pick te items;
     ver_report :=
       {| total_items := n;
          targets := (target n (TRAIN_FRAC cfg), target n (DEV_FRAC cfg),
                      n - target n (TRAIN_FRAC cfg) - target n (DEV_FRAC cfg));
          actual := (Z.of_nat (length (pick tr items)), Z.of_nat (length (pick dv items)),
                     Z.of_nat (length (pick te items))) |} |}.

(* Number of dev items a stratum ends up with once its train slice is cut. *)
Definition dev_cut (a : alloc) : Z := Z.min (dev a) (size a - train a).

(* o' is what o is, unless o ran out of fuel. *)
Definition settles {A} (o o' : outcome A) : Prop := o = OutOfFuel \/ o' = o.

(* train, dev and test of every stratum, for display. *)
Definition counts (ga : group_alloc_t) : list (key * (Z * Z * Z)) :=
  map (fun kv => (fst kv, (train (snd kv), dev (snd kv), test (snd kv)))) ga.

(* The exact sum of the three configured fractions. *)
Definition fraction_sum (cfg : config) : F64.float :=
  let a := TRAIN_FRAC cfg in
  let b := DEV_FRAC cfg in
  let c := TEST_FRAC cfg in
  let p := N.max (F64.fexp a) (N.max (F64.fexp b) (F64.fexp c)) in
  F64.mk (F64.fnum a * 2 ^ Z.of_N (p - F64.fexp a)
          + F64.fnum b * 2 ^ Z.of_N (p - F64.fexp b)
          + F64.fnum c * 2 ^ Z.of_N (p - F64.fexp c)) p.

(* cfg with TEST_FRAC replaced. *)
Definition with_test_frac (cfg : config) (f : F64.float) : config :=
  {| SEED := SEED cfg; TRAIN_FRAC := TRAIN_FRAC cfg; DEV_FRAC := DEV_FRAC cfg;
     TEST_FRAC := f |}.

(* f applied to the value a computation returns. *)
Definition on_ok {A B} (f : A -> B) (o : outcome A) : outcome B :=
  a <- o ;; Ok (f a).

(* What the fallback may do to a stratum: leave it, or raise its count to at
   most its size. *)
Definition topped_up (sk : split) (v v' : alloc) : Prop :=
  raised sk v v' /\ (count sk v' = count sk v \/ count sk v' <= size v).

Definition key_name (k : string) : Prop :=
  k = "id"%string \/ k = "difficulty_level"%string \/ k = "table"%string.


(** ** Vocabulary of the further properties *)

(* The distinct keys of l in the order of their first occurrence. *)
Fixpoint first_seen (l : list key) : list key :=
  match l with
  | [] => []
  | k :: r => k :: filter (fun k' => negb (key_eqb k' k)) (first_seen r)
  end.

(* The ids of the items of stratum k, in input order. *)
Definition ids_with_key (k : key) (items : list item) : list Z :=
  map id_of (filter (fun it => key_eqb (key_of it) k) items).

(* The floor of the exact product of the integer g and the fraction f. *)
Definition exact_floor (g : Z) (f : F64.float) : Z :=
  g * F64.fnum f / 2 ^ Z.of_N (F64.fexp f).

(* Items the reconciliation can still take from the test buckets. *)
Definition free (ga : group_alloc_t) : Z :=
  zsum (map (fun kv => Z.max 0 (test (snd kv))) ga).

(* v['ideal_' + split_key] - v[split_key]: the remainder the walk ranks by. *)
Definition remainder (sk : split) (v : alloc) : F64.float :=
  F64.sub (ideal sk v) (F64.of_int (count sk v)).

(* v['size'] - v['train'] - v['dev'] *)
Definition capacity (v : alloc) : Z := size v - train v - dev v.

(* The strata the ranked walk grants a unit to, in the order of the grants. *)
Fixpoint granted (fracs : list frac_entry) (deficit : Z) : list key :=
  match fracs with
  | [] => []
  | (_, k, cap) :: rest =>
      if 0 <? deficit then
        if 0 <? cap then k :: granted rest (deficit - 1) else granted rest deficit
      else []
  end.

(* x is not below y. *)
Definition frac_ge (x y : frac_entry) : Prop :=
  F64.ltb (fst (fst x)) (fst (fst y)) = false.

(* x stands before y in l. *)
Definition precedes {A} (l : list A) (x y : A) : Prop :=
  exists l1 l2, l = l1 ++ x :: l2 /\ In y l2.

(* Stratum x is ranked before stratum y by fracs.sort(reverse=True): its
   remainder is strictly larger, or it is not smaller and x comes first in
   group_alloc (the sort is stable). *)
Definition outranks (sk : split) (ga : group_alloc_t) (x y : key * alloc) : Prop :=
  F64.ltb (remainder sk (snd y)) (remainder sk (snd x)) = true
  \/ (F64.ltb (remainder sk (snd x)) (remainder sk (snd y)) = false /\ precedes ga x y).

(* The items of l that belong to stratum k. *)
Definition stratum (k : key) (l : list item) : list item :=
  filter (fun it => key_eqb (key_of it) k) l.

(* cfg with SEED replaced. *)
Definition with_seed (cfg : config) (s : Z) : config :=
  {| SEED := s; TRAIN_FRAC := TRAIN_FRAC cfg; DEV_FRAC := DEV_FRAC cfg;
     TEST_FRAC := TEST_FRAC cfg |}.

(* The count recorded for label x, 0 when the counter has no entry for it. *)
Definition counter_get (x : string) (c : counter) : Z :=
  match dict_get String.eqb x c with
  | Some n => n
  | None => 0
  end.

(* Number of items of l whose label, read by f, is x. *)
Definition labelled (f : item -> string) (x : string) (l : list item) : Z :=
  Z.of_nat (length (filter (fun it => String.eqb (f it) x) l)).

Definition difficulty_of (it : item) : string := fst (key_of it).
Definition table_of (it : item) : string := snd (key_of it).

(* A counter as Counter builds them: distinct labels, counts of at least 1. *)
Definition counter_ok (c : counter) : Prop :=
  NoDup (map fst c) /\ Forall (fun e => 1 <= snd e) c.

(* The exceptions a run can end in: a KeyError for one of the three keys
   read from the items, or the failed uniqueness assertion. *)
Definition expected_failure (e : exn) : Prop :=
  match e with
  | KeyError k => key_name k
  | AssertionError => True
  | IndexError | ZeroDivisionError => False
  end.

(* The three keys the script reads from an item. *)
Definition read_keys (it : item) : option Z * option string * option string :=
  (id it, difficulty_level it, table it).

(* The fraction is exactly 1.0, or exactly 0.0. *)
Definition is_one (f : F64.float) : Prop := F64.fnum f = 2 ^ Z.of_N (F64.fexp f).
Definition is_zero (f : F64.float) : Prop := F64.fnum f = 0.

(** * Properties *)

(** ** Rounding to 53 bits *)

Module F64Facts.
Import F64.

Lemma rne_cases q r half :
  rne q r half = q \/ (rne q r half = q + 1 /\ half <= r).
Proof.
  unfold rne.
  destruct (half <? r) eqn:E1; simpl.
  - right. split; [reflexivity | apply Z.ltb_lt in E1; lia].
  - destruct (r =? half) eqn:E2; simpl.
    + destruct (Z.odd q); [right | left]; try reflexivity.
      split; [reflexivity | apply Z.eqb_eq in E2; lia].
    + left; reflexivity.
Qed.

Lemma round53_small x : 0 <= x < 2 ^ 53 -> round53 x = x.
Proof.
  intros H. unfold round53.
  assert (Z.log2 x < 53) by (destruct (Z.eq_dec x 0) as [->|]; [simpl; lia | apply Z.log2_lt_pow2; lia]).
  destruct (Z.log2 x + 1 - 53 <=? 0) eqn:E; [reflexivity | apply Z.leb_gt in E; lia].
Qed.

(* The shape of a rounded numerator that needed rounding. *)
Lemma round53_shape x :
  0 <= x -> 0 < Z.log2 x + 1 - 53 ->
  exists q r, x = q * 2 ^ (Z.log2 x + 1 - 53) + r
           /\ 0 <= r < 2 ^ (Z.log2 x + 1 - 53)
           /\ 2 ^ 52 <= q
           /\ (round53 x = q * 2 ^ (Z.log2 x + 1 - 53)
               \/ (round53 x = (q + 1) * 2 ^ (Z.log2 x + 1 - 53) /\ 0 < r)).
Proof.
  intros Hx Hs. set (s := Z.log2 x + 1 - 53) in *.
  assert (Hpos : 0 < x) by (destruct (Z.eq_dec x 0) as [->|]; [simpl in *; lia | lia]).
  assert (HS : 0 < 2 ^ s) by (apply Z.pow_pos_nonneg; lia).
  exists (x / 2 ^ s), (x mod 2 ^ s).
  pose proof (Z.div_mod x (2 ^ s) ltac:(lia)) as Hdm.
  pose proof (Z.mod_pos_bound x (2 ^ s) HS) as Hr.
  split; [lia |]. split; [lia |]. split.
  - apply Z.div_le_lower_bound; [lia |].
    rewrite <- Z.pow_add_r by lia.
    replace (s + 52) with (Z.log2 x) by (unfold s; lia).
    apply Z.log2_spec; lia.
  - unfold round53. fold s.
    destruct (s <=? 0) eqn:E; [apply Z.leb_le in E; lia |].
    rewrite Z.shiftr_div_pow2 by lia.
    rewrite !Z.shiftl_mul_pow2 by lia.
    replace (x - x / 2 ^ s * 2 ^ s) with (x mod 2 ^ s) by lia.
    destruct (rne_cases (x / 2 ^ s) (x mod 2 ^ s) (1 * 2 ^ (s - 1))) as [-> | [-> Hh]].
    + left; reflexivity.
    + right. split; [reflexivity |].
      assert (0 < 2 ^ (s - 1)) by (apply Z.pow_pos_nonneg; lia). lia.
Qed.

Lemma round53_nonneg x : 0 <= x -> 0 <= round53 x.
Proof.
  intros Hx.
  destruct (Z_lt_le_dec 0 (Z.log2 x + 1 - 53)) as [Hs | Hs].
  - destruct (round53_shape x Hx Hs) as (q & r & _ & _ & Hq & [-> | [-> _]]);
      assert (0 < 2 ^ (Z.log2 x + 1 - 53)) by (apply Z.pow_pos_nonneg; lia); nia.
  - unfold round53. destruct (Z.log2 x + 1 - 53 <=? 0) eqn:E; [lia | apply Z.leb_gt in E; lia].
Qed.

Lemma pow_split a b : 0 <= a <= b -> 2 ^ b = 2 ^ a * 2 ^ (b - a).
Proof. intros H. rewrite <- Z.pow_add_r by lia. f_equal; lia. Qed.

(* Rounding never crosses an integer multiple of 2^p that fits 53 bits. *)
Lemma round53_le_int x k p :
  0 <= x -> 0 <= p -> 0 <= k < 2 ^ 53 -> x <= k * 2 ^ p -> round53 x <= k * 2 ^ p.
Proof.
  intros Hx Hp Hk Hle.
  destruct (Z_lt_le_dec 0 (Z.log2 x + 1 - 53)) as [Hs | Hs].
  2:{ unfold round53. destruct (Z.log2 x + 1 - 53 <=? 0) eqn:E; [lia | apply Z.leb_gt in E; lia]. }
  destruct (round53_shape x Hx Hs) as (q & r & Hxq & Hr & Hq & Hcase).
  set (s := Z.log2 x + 1 - 53) in *.
  assert (HS : 0 < 2 ^ s) by (apply Z.pow_pos_nonneg; lia).
  assert (HP : 0 < 2 ^ p) by (apply Z.pow_pos_nonneg; lia).
  destruct (Z_le_gt_dec s p) as [Hsp | Hsp].
  - rewrite (pow_split s p) in * by lia.
    assert (HT : 0 < 2 ^ (p - s)) by (apply Z.pow_pos_nonneg; lia).
    set (S := 2 ^ s) in *. set (T := 2 ^ (p - s)) in *.
    destruct Hcase as [-> | [-> Hr0]]; [nia |].
    assert (q < k * T) by nia. nia.
  - exfalso. rewrite (pow_split p s) in * by lia.
    assert (HT : 2 <= 2 ^ (s - p)).
    { change 2 with (2 ^ 1) at 1. apply Z.pow_le_mono_r; lia. }
    set (P := 2 ^ p) in *. set (T := 2 ^ (s - p)) in *.
    assert (2 ^ 53 * P <= q * (P * T)) by (change (2 ^ 53) with (2 ^ 52 * 2); nia).
    nia.
Qed.

Lemma round53_ge_int x k p :
  0 <= x -> 0 <= p -> 0 <= k < 2 ^ 53 -> k * 2 ^ p <= x -> k * 2 ^ p <= round53 x.
Proof.
  intros Hx Hp Hk Hle.
  destruct (Z_lt_le_dec 0 (Z.log2 x + 1 - 53)) as [Hs | Hs].
  2:{ unfold round53. destruct (Z.log2 x + 1 - 53 <=? 0) eqn:E; [lia | apply Z.leb_gt in E; lia]. }
  destruct (round53_shape x Hx Hs) as (q & r & Hxq & Hr & Hq & Hcase).
  set (s := Z.log2 x + 1 - 53) in *.
  assert (HS : 0 < 2 ^ s) by (apply Z.pow_pos_nonneg; lia).
  assert (HP : 0 < 2 ^ p) by (apply Z.pow_pos_nonneg; lia).
  assert (Hq' : k * 2 ^ p <= q * 2 ^ s).
  { destruct (Z_le_gt_dec s p) as [Hsp | Hsp].
    - rewrite (pow_split s p) in * by lia.
      assert (HT : 0 < 2 ^ (p - s)) by (apply Z.pow_pos_nonneg; lia).
      set (S := 2 ^ s) in *. set (T := 2 ^ (p - s)) in *.
      assert (k * T <= q) by nia. nia.
    - rewrite (pow_split p s) in * by lia.
      assert (HT : 2 <= 2 ^ (s - p)).
      { change 2 with (2 ^ 1) at 1. apply Z.pow_le_mono_r; lia. }
      set (P := 2 ^ p) in *. set (T := 2 ^ (s - p)) in *.
      assert (2 ^ 53 * P <= q * (P * T)) by (change (2 ^ 53) with (2 ^ 52 * 2); nia).
      nia. }
  destruct Hcase as [-> | [-> _]]; nia.
Qed.

Lemma round53s_nonneg x : 0 <= x -> round53s x = round53 x.
Proof.
  intros H. unfold round53s.
  destruct (Z.eq_dec x 0) as [-> | Hne]; [reflexivity |].
  rewrite Z.sgn_pos, Z.abs_eq by lia. lia.
Qed.

Lemma of_int_small g : 0 <= g < 2 ^ 53 -> of_int g = mk g 0.
Proof.
  intros H. unfold of_int. rewrite round53s_nonneg, round53_small by lia. reflexivity.
Qed.

Lemma mul_of_int g f :
  0 <= g < 2 ^ 53 -> 0 <= fnum f ->
  mul (of_int g) f = mk (round53 (g * fnum f)) (fexp f).
Proof.
  intros Hg Hf. rewrite of_int_small by assumption. unfold mul; simpl.
  rewrite round53s_nonneg by nia. reflexivity.
Qed.

Lemma pow_fexp_pos (f : float) : 0 < 2 ^ Z.of_N (fexp f).
Proof. apply Z.pow_pos_nonneg; lia. Qed.

(* math.floor(g * f) is at least the floor of the exact product. *)
Lemma floor_mul_lower g f :
  0 <= g < 2 ^ 53 -> unit_frac f ->
  g * fnum f / 2 ^ Z.of_N (fexp f) <= floor (mul (of_int g) f).
Proof.
  intros Hg [Hf0 Hf1]. rewrite mul_of_int by assumption. unfold floor; simpl.
  pose proof (pow_fexp_pos f) as HP. set (P := 2 ^ Z.of_N (fexp f)) in *.
  set (k := g * fnum f / P).
  assert (Hk : 0 <= k <= g).
  { split; [apply Z.div_pos; nia | apply Z.div_le_upper_bound; nia]. }
  apply Z.div_le_lower_bound; [lia |]. rewrite Z.mul_comm.
  apply (round53_ge_int (g * fnum f) k (Z.of_N (fexp f))).
  - nia.
  - lia.
  - lia.
  - fold P. unfold k. pose proof (Z.mul_div_le (g * fnum f) P HP). lia.
Qed.

(* ... and at most its ceiling. *)
Lemma floor_mul_upper g f :
  0 <= g < 2 ^ 53 -> unit_frac f ->
  floor (mul (of_int g) f)
  <= (g * fnum f + 2 ^ Z.of_N (fexp f) - 1) / 2 ^ Z.of_N (fexp f).
Proof.
  intros Hg [Hf0 Hf1]. rewrite mul_of_int by assumption. unfold floor; simpl.
  pose proof (pow_fexp_pos f) as HP. set (P := 2 ^ Z.of_N (fexp f)) in *.
  set (k := (g * fnum f + P - 1) / P).
  assert (Hk : 0 <= k <= g).
  { split; [apply Z.div_pos; nia |].
    assert (k < g + 1) by (apply Z.div_lt_upper_bound; nia). lia. }
  assert (Hx : g * fnum f <= k * P).
  { unfold k. pose proof (Z.div_mod (g * fnum f + P - 1) P ltac:(lia)).
    pose proof (Z.mod_pos_bound (g * fnum f + P - 1) P HP). nia. }
  pose proof (round53_le_int (g * fnum f) k (Z.of_N (fexp f)) ltac:(nia) ltac:(lia) ltac:(lia) Hx) as Hr.
  fold P in Hr.
  pose proof (Z.mul_div_le (round53 (g * fnum f)) P HP).
  destruct (Z_le_gt_dec (round53 (g * fnum f) / P) k) as [|Hgt]; [assumption | exfalso].
  assert (k + 1 <= round53 (g * fnum f) / P) by lia. nia.
Qed.

Lemma floor_mul_bounds g f :
  0 <= g < 2 ^ 53 -> unit_frac f -> 0 <= floor (mul (of_int g) f) <= g.
Proof.
  intros Hg Hf. pose proof (floor_mul_lower g f Hg Hf). pose proof (floor_mul_upper g f Hg Hf).
  destruct Hf as [Hf0 Hf1]. pose proof (pow_fexp_pos f) as HP.
  split.
  - etransitivity; [| eassumption]. apply Z.div_pos; nia.
  - assert ((g * fnum f + 2 ^ Z.of_N (fexp f) - 1) / 2 ^ Z.of_N (fexp f) < g + 1)
      by (apply Z.div_lt_upper_bound; nia).
    lia.
Qed.

Lemma py_round_cases a :
  py_round a = floor a \/ py_round a = floor a + 1.
Proof.
  unfold py_round, floor.
  destruct (_ || _); [right | left]; reflexivity.
Qed.

Lemma py_round_le_int a k :
  fnum a <= k * 2 ^ Z.of_N (fexp a) -> py_round a <= k.
Proof.
  intros H. pose proof (pow_fexp_pos a) as HP.
  unfold py_round. set (P := 2 ^ Z.of_N (fexp a)) in *.
  pose proof (Z.div_mod (fnum a) P ltac:(lia)).
  pose proof (Z.mod_pos_bound (fnum a) P HP).
  assert (Hq : fnum a / P <= k) by nia.
  assert (Hq1 : 0 < fnum a mod P -> fnum a / P + 1 <= k).
  { intros Hr. destruct (Z_lt_le_dec (fnum a / P) k) as [| Hge]; [lia | exfalso].
    assert (P * k <= P * (fnum a / P)) by (apply Z.mul_le_mono_nonneg_l; lia). lia. }
  destruct (P <? 2 * (fnum a mod P)) eqn:E1; cbn [orb andb].
  - apply Z.ltb_lt in E1. apply Hq1. lia.
  - destruct (2 * (fnum a mod P) =? P) eqn:E2; cbn [orb andb]; [| lia].
    apply Z.eqb_eq in E2. destruct (Z.odd (fnum a / P)); [apply Hq1; lia | lia].
Qed.

(* 0 <= round(n * f) <= n for a fraction f. *)
Lemma target_bounds n f :
  0 <= n < 2 ^ 53 -> unit_frac f -> 0 <= target n f <= n.
Proof.
  intros Hn Hf. unfold target. split.
  - pose proof (floor_mul_bounds n f Hn Hf).
    destruct (py_round_cases (mul (of_int n) f)); lia.
  - apply py_round_le_int. destruct Hf as [Hf0 Hf1].
    rewrite mul_of_int by assumption. simpl.
    apply (round53_le_int (n * fnum f) n (Z.of_N (fexp f))).
    + nia.
    + lia.
    + lia.
    + nia.
Qed.

(* round(n * f) is at most one above the floor of the exact product. *)
Lemma target_upper n f :
  0 <= n < 2 ^ 53 -> unit_frac f ->
  target n f <= n * fnum f / 2 ^ Z.of_N (fexp f) + 1.
Proof.
  intros Hn Hf. pose proof (target_bounds n f Hn Hf) as Hb.
  destruct Hf as [Hf0 Hf1]. pose proof (pow_fexp_pos f) as HP.
  set (P := 2 ^ Z.of_N (fexp f)) in *. set (k := n * fnum f / P).
  assert (Hk : 0 <= k <= n).
  { split; [apply Z.div_pos; nia | apply Z.div_le_upper_bound; nia]. }
  destruct (Z.eq_dec k n) as [-> | Hne]; [fold P; lia |].
  unfold target. apply py_round_le_int.
  rewrite mul_of_int by assumption. simpl. fold P.
  apply (round53_le_int (n * fnum f) (k + 1) (Z.of_N (fexp f))).
  - nia.
  - lia.
  - lia.
  - fold P. unfold k.
    pose proof (Z.div_mod (n * fnum f) P ltac:(lia)).
    pose proof (Z.mod_pos_bound (n * fnum f) P HP). nia.
Qed.

End F64Facts.

(** ** Dictionaries *)

Lemma key_eqb_eq a b : key_eqb a b = true <-> a = b.
Proof.
  destruct a as [a1 a2], b as [b1 b2]. unfold key_eqb; simpl.
  rewrite andb_true_iff, !String.eqb_eq. split; [intros [-> ->]; reflexivity | intros H; inversion H; auto].
Qed.

Lemma key_eqb_refl a : key_eqb a a = true.
Proof. apply key_eqb_eq; reflexivity. Qed.

Lemma key_eqb_neq a b : a <> b -> key_eqb a b = false.
Proof. intros H. destruct (key_eqb a b) eqn:E; [apply key_eqb_eq in E; contradiction | reflexivity]. Qed.

Lemma zsum_app l1 l2 : zsum (l1 ++ l2) = zsum l1 + zsum l2.
Proof. induction l1; simpl; lia. Qed.

Section DictFacts.
Context {V : Type}.
Implicit Types (d : list (key * V)) (k : key).

Lemma dict_get_In k d v : dict_get key_eqb k d = Some v -> In (k, v) d.
Proof.
  induction d as [| [k' v'] d IH]; simpl; [discriminate |].
  destruct (key_eqb k' k) eqn:E.
  - apply key_eqb_eq in E. intros [= ->]. left; congruence.
  - intros H. right; auto.
Qed.

Lemma In_dict_get k d v :
  NoDup (map fst d) -> In (k, v) d -> dict_get key_eqb k d = Some v.
Proof.
  induction d as [| [k' v'] d IH]; simpl; [contradiction |].
  intros Hnd [Heq | Hin]; inversion Hnd as [| ? ? Hni Hnd']; subst.
  - inversion Heq; subst. rewrite key_eqb_refl. reflexivity.
  - destruct (key_eqb k' k) eqn:E.
    + apply key_eqb_eq in E. subst. exfalso. apply Hni.
      change k with (fst (k, v)). apply in_map. assumption.
    + auto.
Qed.

Lemma dict_get_keys k d : In k (map fst d) -> exists v, dict_get key_eqb k d = Some v.
Proof.
  induction d as [| [k' v'] d IH]; simpl; [contradiction |].
  intros [-> | Hin].
  - rewrite key_eqb_refl. eauto.
  - destruct (key_eqb k' k); eauto.
Qed.

Lemma dict_update_keys k (f : V -> V) d :
  map fst (dict_update key_eqb k f d) = map fst d.
Proof.
  unfold dict_update. rewrite map_map. apply map_ext.
  intros [k' v]; simpl. destruct (key_eqb k' k); reflexivity.
Qed.

Lemma dict_update_absent k (f : V -> V) d :
  ~ In k (map fst d) -> dict_update key_eqb k f d = d.
Proof.
  induction d as [| [k' v] d IH]; simpl; [reflexivity |].
  intros H. rewrite key_eqb_neq by (intros ->; apply H; auto).
  f_equal. apply IH. intros Hin; apply H; auto.
Qed.

Lemma dict_get_update_same k (f : V -> V) d v :
  dict_get key_eqb k d = Some v ->
  dict_get key_eqb k (dict_update key_eqb k f d) = Some (f v).
Proof.
  induction d as [| [k' v'] d IH]; simpl; [discriminate |].
  destruct (key_eqb k' k) eqn:E; simpl; rewrite E; [intros [= ->]; reflexivity | auto].
Qed.

Lemma dict_get_update_other k k' (f : V -> V) d :
  k <> k' -> dict_get key_eqb k' (dict_update key_eqb k f d) = dict_get key_eqb k' d.
Proof.
  intros Hne. induction d as [| [k0 v0] d IH]; simpl; [reflexivity |].
  destruct (key_eqb k0 k) eqn:E; simpl.
  - apply key_eqb_eq in E; subst. rewrite key_eqb_neq by assumption. apply IH.
  - destruct (key_eqb k0 k'); [reflexivity | apply IH].
Qed.

(* Under distinct keys an update touches the one entry found by the lookup. *)
Lemma dict_update_split k (f : V -> V) d v :
  NoDup (map fst d) -> dict_get key_eqb k d = Some v ->
  exists d1 d2, d = d1 ++ (k, v) :: d2
             /\ dict_update key_eqb k f d = d1 ++ (k, f v) :: d2.
Proof.
  induction d as [| [k' v'] d IH]; simpl; [discriminate |].
  intros Hnd Hget. inversion Hnd as [| ? ? Hni Hnd']; subst.
  destruct (key_eqb k' k) eqn:E.
  - apply key_eqb_eq in E; subst. injection Hget as ->.
    exists [], d. split; [reflexivity |]. simpl. f_equal.
    apply dict_update_absent; assumption.
  - destruct (IH Hnd' Hget) as (d1 & d2 & -> & Hu).
    exists ((k', v') :: d1), d2. split; [reflexivity |]. simpl. f_equal. exact Hu.
Qed.

End DictFacts.

(** ** Invariants of the allocation passes *)

Lemma total_app sk ga1 ga2 : total sk (ga1 ++ ga2) = total sk ga1 + total sk ga2.
Proof. unfold total. rewrite map_app. apply zsum_app. Qed.

Lemma total_cons sk kv ga : total sk (kv :: ga) = count sk (snd kv) + total sk ga.
Proof. reflexivity. Qed.

Lemma count_bump_same sk v : count sk (bump sk v) = count sk v + 1.
Proof. destruct sk; reflexivity. Qed.

Lemma count_bump_other sk v : count (other sk) (bump sk v) = count (other sk) v.
Proof. destruct sk; reflexivity. Qed.

Lemma size_bump sk v : size (bump sk v) = size v.
Proof. destruct sk; reflexivity. Qed.

Lemma shape_keys ga : map fst (shape ga) = map fst ga.
Proof. unfold shape. rewrite map_map. reflexivity. Qed.

Lemma shape_total_size ga ga' : shape ga = shape ga' -> total_size ga = total_size ga'.
Proof.
  intros H. unfold total_size.
  replace (map (fun kv => size (snd kv)) ga) with (map snd (shape ga))
    by (unfold shape; rewrite map_map; reflexivity).
  replace (map (fun kv => size (snd kv)) ga') with (map snd (shape ga'))
    by (unfold shape; rewrite map_map; reflexivity).
  rewrite H. reflexivity.
Qed.

Lemma shape_update k f ga :
  (forall v, size (f v) = size v) -> shape (dict_update key_eqb k f ga) = shape ga.
Proof.
  intros Hf. unfold shape, dict_update. rewrite map_map. apply map_ext.
  intros [k' v]; simpl. destruct (key_eqb k' k); simpl; [rewrite Hf |]; reflexivity.
Qed.

Lemma total_update sk k f ga v :
  NoDup (map fst ga) -> dict_get key_eqb k ga = Some v ->
  total sk (dict_update key_eqb k f ga) = total sk ga - count sk v + count sk (f v).
Proof.
  intros Hnd Hget.
  destruct (dict_update_split k f ga v Hnd Hget) as (d1 & d2 & -> & ->).
  rewrite !total_app, !total_cons. simpl. lia.
Qed.


Lemma pointwise_refl (R : key -> alloc -> alloc -> Prop) ga :
  (forall k v, R k v v) -> pointwise R ga ga.
Proof. intros HR. induction ga; constructor; auto. Qed.

Lemma pointwise_impl (R R' : key -> alloc -> alloc -> Prop) ga ga' :
  (forall k v v', In (k, v) ga -> R k v v' -> R' k v v') ->
  pointwise R ga ga' -> pointwise R' ga ga'.
Proof.
  intros HR H. induction H as [| [k v] [k' v'] ga ga' [Hk Hv] H IH]; constructor.
  - split; [assumption |]. apply HR; [left; reflexivity | assumption].
  - apply IH. intros; eapply HR; eauto. right; assumption.
Qed.

Lemma pointwise_trans (R1 R2 R3 : key -> alloc -> alloc -> Prop) ga1 ga2 ga3 :
  (forall k a b c, R1 k a b -> R2 k b c -> R3 k a c) ->
  pointwise R1 ga1 ga2 -> pointwise R2 ga2 ga3 -> pointwise R3 ga1 ga3.
Proof.
  intros HR H12. revert ga3.
  induction H12 as [| [k v] [k' v'] ga ga' [Hk Hv] H IH]; intros ga3 H23;
    inversion H23 as [| ? [k3 v3] ? ? [Hk3 Hv3] H3]; subst; constructor.
  - simpl in *. subst. split; [reflexivity | eauto].
  - apply IH; assumption.
Qed.

Lemma pointwise_keys R ga ga' : pointwise R ga ga' -> map fst ga' = map fst ga.
Proof. intros H. induction H as [| ? ? ? ? [Hk _] _ IH]; simpl; congruence. Qed.

Lemma pointwise_update (R : key -> alloc -> alloc -> Prop) k f ga :
  (forall k' v, R k' v v) ->
  (forall v, In (k, v) ga -> R k v (f v)) ->
  pointwise R ga (dict_update key_eqb k f ga).
Proof.
  intros Hrefl Hf. unfold dict_update.
  induction ga as [| [k' v] ga IH]; simpl; constructor.
  - simpl. destruct (key_eqb k' k) eqn:E; simpl; split; auto.
    apply key_eqb_eq in E; subst. apply Hf. left; reflexivity.
  - apply IH. intros; apply Hf. right; assumption.
Qed.

Lemma pointwise_shape R ga ga' :
  (forall k v v', R k v v' -> size v' = size v) ->
  pointwise R ga ga' -> shape ga' = shape ga.
Proof.
  intros HR H. induction H as [| [k v] [k' v'] ? ? [Hk Hv] _ IH]; simpl in *; [reflexivity |].
  subst. rewrite (HR _ _ _ Hv). f_equal. exact IH.
Qed.

Lemma pointwise_total R sk ga ga' :
  (forall k v v', R k v v' -> count sk v' = count sk v) ->
  pointwise R ga ga' -> total sk ga' = total sk ga.
Proof.
  intros HR H. induction H as [| [k v] [k' v'] ? ? [Hk Hv] _ IH]; [reflexivity |].
  rewrite !total_cons. simpl in *. rewrite (HR _ _ _ Hv). lia.
Qed.

Lemma pointwise_Forall R (P : alloc -> Prop) ga ga' :
  (forall k v v', R k v v' -> P v -> P v') ->
  pointwise R ga ga' ->
  Forall (fun kv => P (snd kv)) ga -> Forall (fun kv => P (snd kv)) ga'.
Proof.
  intros HR H. induction H as [| [k v] [k' v'] ? ? [Hk Hv] _ IH]; intros HF; [constructor |].
  inversion HF; subst. constructor; simpl in *; eauto.
Qed.

Lemma frame_refl sk v : frame sk v v.
Proof. unfold frame; tauto. Qed.

Lemma frame_trans sk a b c : frame sk a b -> frame sk b c -> frame sk a c.
Proof.
  unfold frame. intros (H1 & H2 & H3 & H4 & H5) (G1 & G2 & G3 & G4 & G5).
  split; [congruence |]. split; [congruence |]. split; [congruence |].
  split; [congruence | auto].
Qed.

Lemma raised_refl sk v : raised sk v v.
Proof. split; [apply frame_refl | lia]. Qed.

Lemma raised_trans sk a b c : raised sk a b -> raised sk b c -> raised sk a c.
Proof. intros [? ?] [? ?]. split; [eapply frame_trans; eauto | lia]. Qed.

Lemma raised1_raised sk a b : raised1 sk a b -> raised sk a b.
Proof. intros [? ?]. split; [assumption | lia]. Qed.

(* A bump guarded by count < size, as the round-robin fallback does. *)
Lemma bump_raised sk v : count sk v < size v -> raised sk v (bump sk v).
Proof.
  intros H. split; [| rewrite count_bump_same; lia].
  unfold frame, alloc_ok. destruct sk; simpl in *; repeat split; try reflexivity; lia.
Qed.

(* A bump guarded by spare capacity, as the ranked walk does. *)
Lemma bump_raised1 sk v : 0 < size v - train v - dev v -> raised1 sk v (bump sk v).
Proof.
  intros H. split; [| rewrite count_bump_same; lia].
  unfold frame, alloc_ok. destruct sk; simpl in *; repeat split; try reflexivity; lia.
Qed.

(** *** The ranked walk *)

Lemma In_update_other k k' f (v' : alloc) (ga : group_alloc_t) :
  k' <> k -> In (k', v') ga -> In (k', v') (dict_update key_eqb k f ga).
Proof.
  intros Hne Hin. unfold dict_update. apply in_map_iff.
  exists (k', v'). split; [| assumption]. simpl.
  rewrite key_eqb_neq by assumption. reflexivity.
Qed.

Lemma In_unique k (v v' : alloc) (ga : group_alloc_t) :
  NoDup (map fst ga) -> In (k, v) ga -> In (k, v') ga -> v = v'.
Proof.
  intros Hnd H1 H2. apply (In_dict_get k ga v Hnd) in H1.
  apply (In_dict_get k ga v' Hnd) in H2. congruence.
Qed.

Lemma walk_nonpos sk fracs deficit ga :
  deficit <= 0 -> walk sk fracs deficit ga = (ga, deficit).
Proof.
  intros H. destruct fracs as [| [[f k] cap] rest]; simpl; [reflexivity |].
  destruct (0 <? deficit) eqn:E; [apply Z.ltb_lt in E; lia | reflexivity].
Qed.

Lemma walk_spec sk fracs : forall deficit ga,
  NoDup (map fst ga) -> NoDup (fkeys fracs) -> caps_agree ga fracs -> 0 <= deficit ->
  pointwise (walk_rel sk fracs) ga (fst (walk sk fracs deficit ga))
  /\ total sk (fst (walk sk fracs deficit ga)) = total sk ga + deficit - snd (walk sk fracs deficit ga)
  /\ snd (walk sk fracs deficit ga) = Z.max 0 (deficit - npos fracs).
Proof.
  induction fracs as [| [[f k] cap] rest IH]; intros deficit ga Hnd Hfk Hcaps Hd.
  - simpl. split; [apply pointwise_refl; left; reflexivity |]. unfold npos; simpl. lia.
  - inversion Hfk as [| ? ? Hk Hfk']; subst.
    assert (Hcaps' : caps_agree ga rest).
    { intros f' k' cap' Hin. apply (Hcaps f' k' cap'). right; assumption. }
    simpl. destruct (0 <? deficit) eqn:Ed.
    2:{ apply Z.ltb_ge in Ed. simpl.
        split; [apply pointwise_refl; left; reflexivity |]. unfold npos. lia. }
    apply Z.ltb_lt in Ed.
    destruct (0 <? cap) eqn:Ec.
    + apply Z.ltb_lt in Ec.
      destruct (Hcaps f k cap (or_introl eq_refl)) as (v & Hin & Hcap).
      pose proof (In_dict_get k ga v Hnd Hin) as Hget.
      set (ga1 := dict_update key_eqb k (bump sk) ga).
      assert (Hnd1 : NoDup (map fst ga1)) by (unfold ga1; rewrite dict_update_keys; assumption).
      assert (Hcaps1 : caps_agree ga1 rest).
      { intros f' k' cap' Hin'. destruct (Hcaps' f' k' cap' Hin') as (v' & Hv' & Hc').
        exists v'. split; [| assumption]. apply In_update_other; [| assumption].
        intros ->. apply Hk. unfold fkeys. apply in_map_iff. exists (f', k, cap'). auto. }
      destruct (IH (deficit - 1) ga1 Hnd1 Hfk' Hcaps1 ltac:(lia)) as (Hp & Ht & Hs).
      split; [| split].
      * eapply pointwise_trans; [| | exact Hp].
        2:{ apply (pointwise_update (fun k0 a b => b = a \/ (k0 = k /\ 0 < size a - train a - dev a /\ b = bump sk a))).
            - intros; left; reflexivity.
            - intros v2 Hin2. right. rewrite <- (In_unique k v v2 ga Hnd Hin Hin2).
              split; [reflexivity |]. split; [lia | reflexivity]. }
        intros k0 a b c [-> | (-> & Ha & ->)] [-> | (Hin0 & Hb & ->)].
        -- left; reflexivity.
        -- right. split; [right; assumption |]. split; [assumption | reflexivity].
        -- right. split; [left; reflexivity |]. split; [assumption | reflexivity].
        -- contradiction.
      * rewrite Ht. unfold ga1. rewrite (total_update sk k (bump sk) ga v Hnd Hget).
        rewrite count_bump_same. lia.
      * rewrite Hs. unfold npos. simpl. rewrite (proj2 (Z.ltb_lt 0 cap) Ec). simpl length. lia.
    + apply Z.ltb_ge in Ec.
      destruct (IH deficit ga Hnd Hfk' Hcaps' Hd) as (Hp & Ht & Hs).
      split; [| split].
      * eapply pointwise_impl; [| exact Hp].
        intros k0 a b _ [-> | (Hin0 & Hb & ->)]; [left; reflexivity |].
        right. split; [right; assumption |]. split; [assumption | reflexivity].
      * exact Ht.
      * rewrite Hs. unfold npos. simpl. rewrite (proj2 (Z.ltb_ge 0 cap) Ec). reflexivity.
Qed.

Lemma walk_rel_raised1 sk fracs k v v' : walk_rel sk fracs k v v' -> raised1 sk v v'.
Proof.
  intros [-> | (_ & H & ->)]; [split; [apply frame_refl | lia] | apply bump_raised1; assumption].
Qed.

(** *** The stable sorts are permutations *)

Lemma insert_frac_perm x l : Permutation (x :: l) (insert_frac x l).
Proof.
  induction l as [| y r IH]; simpl; [reflexivity |].
  destruct (F64.ltb _ _); [| reflexivity].
  rewrite perm_swap. apply perm_skip. exact IH.
Qed.

Lemma sort_fracs_perm l : Permutation l (sort_fracs l).
Proof.
  induction l as [| x l IH]; simpl; [reflexivity |].
  rewrite <- insert_frac_perm. apply perm_skip. exact IH.
Qed.

Lemma insert_group_perm x l : Permutation (x :: l) (insert_group x l).
Proof.
  induction l as [| y r IH]; simpl; [reflexivity |].
  destruct (key_ltb _ _); [| reflexivity].
  rewrite perm_swap. apply perm_skip. exact IH.
Qed.

Lemma sort_groups_perm l : Permutation l (sort_groups l).
Proof.
  induction l as [| x l IH]; simpl; [reflexivity |].
  rewrite <- insert_group_perm. apply perm_skip. exact IH.
Qed.

(** *** The round-robin fallback *)

Lemma total_size_cons kv ga : total_size (kv :: ga) = size (snd kv) + total_size ga.
Proof. reflexivity. Qed.

Lemma exists_eligible sk ga :
  total sk ga < total_size ga -> exists k, eligible sk ga k.
Proof.
  induction ga as [| [k v] ga IH]; [unfold total, total_size; simpl; lia |].
  rewrite total_cons, total_size_cons. simpl. intros H.
  destruct (Z_lt_le_dec (count sk v) (size v)) as [Hlt | Hge].
  - exists k, v. split; [left; reflexivity | assumption].
  - destruct IH as (k' & v' & Hin & Hlt); [lia |].
    exists k', v'. split; [right; assumption | assumption].
Qed.

Lemma cycle_reaches len p idx :
  (p < len)%nat -> exists j, (j < len)%nat /\ ((idx + j) mod len = p)%nat.
Proof.
  intros Hp. assert (Hlen : len <> 0%nat) by lia.
  pose proof (Nat.mod_upper_bound idx len Hlen) as Hr.
  exists ((p + len - idx mod len) mod len)%nat. split.
  - apply Nat.mod_upper_bound; assumption.
  - rewrite Nat.Div0.add_mod_idemp_r.
    rewrite <- Nat.Div0.add_mod_idemp_l.
    replace (idx mod len + (p + len - idx mod len))%nat with (p + 1 * len)%nat by lia.
    rewrite Nat.Div0.mod_add. apply Nat.mod_small; assumption.
Qed.

Lemma eligible_reachable sk ga keys idx (k0 : key) :
  map fst ga = keys -> total sk ga < total_size ga ->
  exists j, (j < length keys)%nat
         /\ eligible sk ga (nth ((idx + j) mod length keys) keys k0).
Proof.
  intros Hk Hroom. destruct (exists_eligible sk ga Hroom) as (k & v & Hin & Hlt).
  assert (Hink : In k keys).
  { rewrite <- Hk. change k with (fst (k, v)). apply in_map; assumption. }
  destruct (In_nth keys k k0 Hink) as (p & Hp & Hnth).
  destruct (cycle_reaches (length keys) p idx Hp) as (j & Hj & Hmod).
  exists j. split; [assumption |]. rewrite Hmod, Hnth. exists v. auto.
Qed.

Lemma round_robin_spec sk keys :
  NoDup keys ->
  forall (d j idx : nat) (ga : group_alloc_t) (fuel : nat),
    map fst ga = keys ->
    Z.of_nat d <= total_size ga - total sk ga ->
    (d <> 0%nat -> (j < length keys)%nat
       /\ exists k0, eligible sk ga (nth ((idx + j) mod length keys) keys k0)) ->
    (d = 0%nat \/ (d - 1) * length keys + j + 1 <= fuel)%nat ->
    exists ga', round_robin fuel sk keys idx (Z.of_nat d) ga = Ok ga'
             /\ pointwise (fun _ => raised sk) ga ga'
             /\ total sk ga' = total sk ga + Z.of_nat d.
Proof.
  intros Hnd. induction d as [| d IHd].
  { intros j idx ga fuel _ _ _ _. exists ga.
    split; [destruct fuel; reflexivity |].
    split; [apply pointwise_refl; intros; apply raised_refl | simpl; lia]. }
  induction j as [| j IHj]; intros idx ga fuel Hk Hroom Hel Hfuel;
    (destruct Hel as (Hj & k0 & Hel); [discriminate |]);
    (destruct Hfuel as [| Hfuel]; [discriminate |]);
    (destruct fuel as [| fuel]; [lia |]);
    (destruct keys as [| k1 keys']; [simpl in Hj; lia |]);
    cbn [round_robin];
    (replace (0 <? Z.of_nat (S d)) with true by (symmetry; apply Z.ltb_lt; lia));
    set (keys := k1 :: keys') in *;
    set (k := nth (idx mod length keys) keys k1) in *;
    (assert (Hink : In k (map fst ga))
      by (rewrite Hk; apply nth_In; apply Nat.mod_upper_bound; simpl; lia));
    (assert (Hndg : NoDup (map fst ga)) by (rewrite Hk; assumption));
    destruct (dict_get_keys k ga Hink) as [v Hget]; rewrite Hget;
    pose proof (dict_get_In k ga v Hget) as Hinv;
    replace (Z.of_nat (S d) - 1) with (Z.of_nat d) by lia;
    destruct (count sk v <? size v) eqn:Ec.
  all: try (apply Z.ltb_lt in Ec).
  all: try (apply Z.ltb_ge in Ec).
  (* the two granting cases are alike *)
  1, 3:
    set (ga1 := dict_update key_eqb k (bump sk) ga);
    assert (Hk1 : map fst ga1 = keys) by (unfold ga1; rewrite dict_update_keys; assumption);
    assert (Ht1 : total sk ga1 = total sk ga + 1)
      by (unfold ga1; rewrite (total_update sk k (bump sk) ga v Hndg Hget), count_bump_same; lia);
    assert (Hs1 : total_size ga1 = total_size ga)
      by (apply shape_total_size; unfold ga1; apply shape_update; intros; apply size_bump);
    assert (Hp1 : pointwise (fun _ => raised sk) ga ga1)
      by (apply pointwise_update; [intros; apply raised_refl |];
          intros v2 Hin2; rewrite <- (In_unique k v v2 ga Hndg Hinv Hin2);
          apply bump_raised; assumption);
    assert (Hnext : exists j', d <> 0%nat -> (j' < length keys)%nat
              /\ exists k0, eligible sk ga1 (nth ((S idx + j') mod length keys) keys k0))
      by (destruct d as [| d'];
          [exists 0%nat; intros Hc; contradiction Hc; reflexivity |];
          destruct (eligible_reachable sk ga1 keys (S idx) k1 Hk1 ltac:(lia)) as (j' & Hj' & He');
          exists j'; intros _; split; [assumption | exists k1; assumption]);
    destruct Hnext as (j' & Hnext);
    destruct (IHd j' (S idx) ga1 fuel Hk1 ltac:(lia) Hnext) as (ga' & Hrun & Hp & Ht);
    [ destruct d as [| d']; [left; reflexivity | right];
      specialize (Hnext ltac:(discriminate)); destruct Hnext as [Hj' _];
      replace (S (S d') - 1)%nat with (S d') in Hfuel by lia;
      replace (S d' - 1)%nat with d' by lia;
      rewrite Nat.mul_succ_l in Hfuel; lia
    | exists ga'; split; [exact Hrun |]; split;
      [ eapply pointwise_trans; [| exact Hp1 | exact Hp]; intros ? a b c; apply raised_trans
      | lia ] ].
  - (* j = 0 and the stratum at idx is full: impossible *)
    exfalso. rewrite Nat.add_0_r in Hel. fold k in Hel.
    replace (nth (idx mod length keys) keys k0) with k in Hel
      by (apply nth_indep; apply Nat.mod_upper_bound; simpl; lia).
    destruct Hel as (v2 & Hin2 & Hlt).
    rewrite <- (In_unique k v v2 ga Hndg Hinv Hin2) in Hlt. lia.
  - (* move on to the next index *)
    apply (IHj (S idx) ga fuel Hk Hroom).
    + intros _. split; [lia |]. exists k0.
      replace (S idx + j)%nat with (idx + S j)%nat by lia. exact Hel.
    + right. lia.
Qed.

(** *** adjust_for_target *)

Lemma filter_perm_length {A} (f : A -> bool) l l' :
  Permutation l l' -> length (filter f l) = length (filter f l').
Proof.
  intros H. induction H; simpl; try congruence.
  - destruct (f x); simpl; congruence.
  - destruct (f x), (f y); reflexivity.
Qed.

Lemma npos_sorted sk ga : npos (sort_fracs (map (frac_of sk) ga)) = spare ga.
Proof.
  unfold npos, spare. rewrite <- (filter_perm_length _ _ _ (sort_fracs_perm _)).
  f_equal. induction ga as [| kv ga IH]; simpl; [reflexivity |].
  destruct (0 <? _); simpl; congruence.
Qed.

Lemma fkeys_sorted sk ga : Permutation (map fst ga) (fkeys (sort_fracs (map (frac_of sk) ga))).
Proof.
  unfold fkeys. rewrite <- (Permutation_map _ (sort_fracs_perm _)).
  rewrite map_map. reflexivity.
Qed.

Lemma caps_agree_sorted sk ga : caps_agree ga (sort_fracs (map (frac_of sk) ga)).
Proof.
  intros f k cap Hin.
  apply (Permutation_in _ (Permutation_sym (sort_fracs_perm _))) in Hin.
  apply in_map_iff in Hin as ([k' v] & Heq & Hin). unfold frac_of in Heq; simpl in Heq.
  inversion Heq; subst. exists v. auto.
Qed.

Lemma adjust_spec fuel sk target_total ga :
  NoDup (map fst ga) -> 0 <= total sk ga -> target_total <= total_size ga ->
  (Z.to_nat target_total * length ga <= fuel)%nat ->
  exists ga', adjust_for_target fuel sk target_total ga = Ok ga'
    /\ pointwise (fun _ => raised sk) ga ga'
    /\ (total sk ga <= target_total -> total sk ga' = target_total)
    /\ (target_total < total sk ga -> ga' = ga)
    /\ (target_total - total sk ga <= spare ga -> pointwise (fun _ => raised1 sk) ga ga').
Proof.
  intros Hnd Htot Hroom Hfuel. unfold adjust_for_target.
  set (deficit := target_total - total sk ga).
  assert (Hrefl : pointwise (fun _ => raised sk) ga ga)
    by (apply pointwise_refl; intros; apply raised_refl).
  assert (Hrefl1 : pointwise (fun _ => raised1 sk) ga ga)
    by (apply pointwise_refl; intros; split; [apply frame_refl | lia]).
  destruct (deficit =? 0) eqn:E0.
  { apply Z.eqb_eq in E0. exists ga. repeat split; auto; lia. }
  apply Z.eqb_neq in E0.
  set (fracs := sort_fracs (map (frac_of sk) ga)).
  destruct (Z_lt_le_dec deficit 0) as [Hneg | Hpos].
  { rewrite walk_nonpos by lia.
    replace (0 <? deficit) with false by (symmetry; apply Z.ltb_ge; lia).
    exists ga. repeat split; auto; lia. }
  assert (Hfk : NoDup (fkeys fracs))
    by (apply (Permutation_NoDup (fkeys_sorted sk ga)); assumption).
  destruct (walk_spec sk fracs deficit ga Hnd Hfk (caps_agree_sorted sk ga) Hpos)
    as (Hp & Ht & Hs).
  destruct (walk sk fracs deficit ga) as [ga1 d1]; simpl in Hp, Ht, Hs.
  unfold fracs in Hs. rewrite npos_sorted in Hs.
  assert (Hp1 : pointwise (fun _ => raised1 sk) ga ga1)
    by (eapply pointwise_impl; [| exact Hp]; intros; eapply walk_rel_raised1; eauto).
  assert (Hpr : pointwise (fun _ => raised sk) ga ga1)
    by (eapply pointwise_impl; [| exact Hp1]; intros; apply raised1_raised; assumption).
  destruct (0 <? d1) eqn:Ed.
  2:{ apply Z.ltb_ge in Ed. exists ga1. repeat split; auto; lia. }
  apply Z.ltb_lt in Ed.
  assert (Hk1 : map fst ga1 = map fst ga) by (eapply pointwise_keys; exact Hp).
  assert (Hs1 : total_size ga1 = total_size ga).
  { apply shape_total_size. eapply pointwise_shape; [| exact Hpr].
    intros ? ? ? [(? & _) _]; assumption. }
  assert (Hnd1 : NoDup (map fst ga1)) by (rewrite Hk1; assumption).
  destruct ga1 as [| [ka va] ga1t].
  { destruct ga; [| discriminate]. unfold total, total_size in *; simpl in *. lia. }
  set (ga1 := (ka, va) :: ga1t) in *.
  destruct (eligible_reachable sk ga1 (map fst ga1) 0 ka eq_refl ltac:(lia)) as (j & Hj & Hel).
  destruct (round_robin_spec sk (map fst ga1) Hnd1 (Z.to_nat d1) j 0%nat ga1 fuel eq_refl
              ltac:(lia) ltac:(intros _; split; [exact Hj | exists ka; exact Hel]))
    as (ga' & Hrun & Hp' & Ht').
  { right. rewrite length_map. rewrite length_map in Hj.
    assert (Hlen : length ga1 = length ga)
      by (rewrite <- (length_map fst ga1), Hk1; apply length_map).
    rewrite Hlen in *.
    assert (0 <= spare ga) by (unfold spare; lia).
    assert (Z.to_nat d1 <= Z.to_nat target_total)%nat by (unfold deficit in *; lia).
    assert (1 <= Z.to_nat d1)%nat by lia.
    nia. }
  rewrite Z2Nat.id in Hrun, Ht' by lia.
  exists ga'. split; [exact Hrun |]. split.
  { eapply pointwise_trans; [| exact Hpr | exact Hp']. intros ? a b c; apply raised_trans. }
  repeat split; intros; lia.
Qed.

(** *** Final reconciliation *)

Lemma set_count_frame sk c v :
  (alloc_ok v -> 0 <= c <= size v) -> frame sk v (recompute_test (set_count sk c v)).
Proof.
  intros H. unfold frame, alloc_ok in *.
  destruct sk; simpl; repeat split; try reflexivity; intros; lia.
Qed.

Lemma pointwise_app R ga1 ga2 ga1' ga2' :
  pointwise R ga1 ga1' -> pointwise R ga2 ga2' -> pointwise R (ga1 ++ ga2) (ga1' ++ ga2').
Proof. apply Forall2_app. Qed.

Lemma reconcile_loop_frame sk target_total : forall todo done diff,
  pointwise (fun _ => frame sk) (done ++ todo)
            (reconcile_loop sk target_total done todo diff).
Proof.
  assert (Hrefl : forall l, pointwise (fun _ => frame sk) l l)
    by (intros; apply pointwise_refl; intros; apply frame_refl).
  induction todo as [| [k v] rest IH]; intros done diff; simpl.
  - rewrite app_nil_r. apply Hrefl.
  - destruct (diff =? 0); [apply Hrefl |].
    set (can := if 0 <? diff then test v else count sk v).
    set (change := Z.min (Z.abs diff) can).
    destruct (change <=? 0) eqn:Ech.
    + specialize (IH (done ++ [(k, v)]) diff). rewrite <- app_assoc in IH. exact IH.
    + apply Z.leb_gt in Ech.
      set (c := if 0 <? diff then count sk v + change else count sk v - change).
      set (v' := recompute_test (set_count sk c v)).
      eapply pointwise_trans; [intros ? a b d; apply frame_trans | |].
      2:{ specialize (IH (done ++ [(k, v')])
                       (target_total - total sk (done ++ (k, v') :: rest))).
          rewrite <- app_assoc in IH. exact IH. }
      apply pointwise_app; [apply Hrefl |]. constructor; [| apply Hrefl].
      split; [reflexivity |]. simpl. apply set_count_frame.
      intros (Ht & Hd & Hte). unfold c, change, can in *.
      destruct (0 <? diff) eqn:Ed; destruct sk; simpl in *; lia.
Qed.

(* With too many units assigned, the loop takes units away, stratum by
   stratum, until the target is met. *)
Lemma reconcile_loop_down sk target_total : forall todo done diff,
  diff = target_total - total sk (done ++ todo) -> diff <= 0 -> 0 <= target_total ->
  (diff = 0 \/ Forall (fun kv => count sk (snd kv) = 0) done) ->
  Forall (fun kv => 0 <= count sk (snd kv)) todo ->
  total sk (reconcile_loop sk target_total done todo diff) = target_total.
Proof.
  assert (Hzero : forall l, Forall (fun kv : key * alloc => count sk (snd kv) = 0) l -> total sk l = 0).
  { induction 1 as [| kv l Hkv _ IH]; [reflexivity |]. rewrite total_cons. lia. }
  induction todo as [| [k v] rest IH]; intros done diff Hdiff Hle Htgt Hdone Htodo; simpl.
  - rewrite app_nil_r in Hdiff. destruct Hdone as [-> | Hz]; [lia |].
    rewrite (Hzero _ Hz) in *. lia.
  - destruct (diff =? 0) eqn:E0; [apply Z.eqb_eq in E0; lia |].
    apply Z.eqb_neq in E0.
    destruct Hdone as [| Hz]; [contradiction |].
    apply Forall_cons_iff in Htodo as [Hv Hrest]. simpl in Hv.
    replace (0 <? diff) with false by (symmetry; apply Z.ltb_ge; lia).
    set (change := Z.min (Z.abs diff) (count sk v)).
    destruct (change <=? 0) eqn:Ech.
    + apply Z.leb_le in Ech.
      apply IH; try assumption; [rewrite <- app_assoc; exact Hdiff | right].
      apply Forall_app. split; [assumption |]. constructor; [| constructor].
      simpl. unfold change in Ech. lia.
    + apply Z.leb_gt in Ech.
      set (v' := recompute_test (set_count sk (count sk v - change) v)).
      assert (Hc : count sk v' = count sk v - change) by (destruct sk; reflexivity).
      assert (Ht : total sk (done ++ (k, v') :: rest) = total sk (done ++ (k, v) :: rest) - change)
        by (rewrite !total_app, !total_cons; simpl; lia).
      apply IH; try assumption.
      * rewrite <- app_assoc. reflexivity.
      * rewrite Ht. unfold change. lia.
      * destruct (Z_le_gt_dec (Z.abs diff) (count sk v)) as [Hsmall | Hbig].
        -- left. rewrite Ht. unfold change. lia.
        -- right. apply Forall_app. split; [assumption |]. constructor; [| constructor].
           simpl. rewrite Hc. unfold change. lia.
Qed.

Lemma frame_kept sk v v' : frame sk v v' -> kept v v'.
Proof. intros (H & _ & _ & _ & Hok). split; assumption. Qed.

Lemma kept_trans a b c : kept a b -> kept b c -> kept a c.
Proof. intros [? ?] [? ?]. split; [congruence | auto]. Qed.

Lemma ok_counts_nonneg sk ga :
  Forall (fun kv : key * alloc => alloc_ok (snd kv)) ga ->
  Forall (fun kv : key * alloc => 0 <= count sk (snd kv)) ga.
Proof.
  apply Forall_impl. intros [k v] (Ht & Hd & _). destruct sk; simpl in *; lia.
Qed.

Lemma reconcile_spec target_train target_dev ga :
  pointwise (fun _ => kept) ga (reconcile target_train target_dev ga)
  /\ (Forall (fun kv => alloc_ok (snd kv)) ga ->
      0 <= target_train <= total Train ga -> 0 <= target_dev <= total Dev ga ->
      total Train (reconcile target_train target_dev ga) = target_train
      /\ total Dev (reconcile target_train target_dev ga) = target_dev).
Proof.
  unfold reconcile.
  set (ga1 := if total Train ga =? target_train then ga
              else reconcile_loop Train target_train [] ga (target_train - total Train ga)).
  assert (H1 : pointwise (fun _ => frame Train) ga ga1).
  { unfold ga1. destruct (total Train ga =? target_train).
    - apply pointwise_refl; intros; apply frame_refl.
    - apply (reconcile_loop_frame Train target_train ga []). }
  assert (Hd1 : total Dev ga1 = total Dev ga).
  { eapply pointwise_total; [| exact H1]. intros ? ? ? (_ & _ & _ & H & _). exact H. }
  set (ga2 := if total Dev ga =? target_dev then ga1
              else reconcile_loop Dev target_dev [] ga1 (target_dev - total Dev ga)).
  assert (H2 : pointwise (fun _ => frame Dev) ga1 ga2).
  { unfold ga2. destruct (total Dev ga =? target_dev).
    - apply pointwise_refl; intros; apply frame_refl.
    - apply (reconcile_loop_frame Dev target_dev ga1 []). }
  assert (Ht2 : total Train ga2 = total Train ga1).
  { eapply pointwise_total; [| exact H2]. intros ? ? ? (_ & _ & _ & H & _). exact H. }
  split.
  - assert (K1 : pointwise (fun _ => kept) ga ga1)
      by (eapply pointwise_impl; [| exact H1]; intros ? ? ? _ H; exact (frame_kept _ _ _ H)).
    assert (K2 : pointwise (fun _ => kept) ga1 ga2)
      by (eapply pointwise_impl; [| exact H2]; intros ? ? ? _ H; exact (frame_kept _ _ _ H)).
    eapply pointwise_trans; [| exact K1 | exact K2].
    intros ? a b c; apply kept_trans.
  - intros Hok Htt Htd.
    assert (Hok1 : Forall (fun kv => alloc_ok (snd kv)) ga1).
    { eapply pointwise_Forall; [| exact H1 | exact Hok].
      intros ? ? ? (_ & _ & _ & _ & H); exact H. }
    split.
    + rewrite Ht2. unfold ga1. destruct (total Train ga =? target_train) eqn:E.
      * apply Z.eqb_eq in E. exact E.
      * apply Z.eqb_neq in E. apply reconcile_loop_down; try reflexivity; try lia.
        -- right; constructor.
        -- apply ok_counts_nonneg; assumption.
    + unfold ga2. destruct (total Dev ga =? target_dev) eqn:E.
      * apply Z.eqb_eq in E. lia.
      * apply Z.eqb_neq in E. rewrite <- Hd1. apply reconcile_loop_down; try reflexivity; try lia.
        -- right; constructor.
        -- apply ok_counts_nonneg; assumption.
Qed.


(** ** Reading the pool *)

Lemma complete_fields it :
  complete it ->
  id it = Some (id_of it) /\ difficulty_level it = Some (fst (key_of it))
  /\ table it = Some (snd (key_of it)).
Proof.
  unfold complete, id_of, key_of. intros (H1 & H2 & H3).
  destruct (id it), (difficulty_level it), (table it); simpl; try contradiction; auto.
Qed.

Lemma build_all_ids_ok items :
  Forall complete items -> build_all_ids items = Ok (map id_of items).
Proof.
  unfold build_all_ids. induction 1 as [| it items Hc _ IH]; simpl; [reflexivity |].
  destruct (complete_fields it Hc) as (-> & _ & _). simpl. rewrite IH. reflexivity.
Qed.

Lemma zdict_get_set_same {V} i (v : V) d : dict_get Z.eqb i (dict_set Z.eqb i v d) = Some v.
Proof.
  induction d as [| [i' v'] d IH]; simpl; [rewrite Z.eqb_refl; reflexivity |].
  destruct (i' =? i) eqn:E; simpl; rewrite E; [reflexivity | exact IH].
Qed.

Lemma zdict_get_set_other {V} i j (v : V) d :
  i <> j -> dict_get Z.eqb j (dict_set Z.eqb i v d) = dict_get Z.eqb j d.
Proof.
  intros Hne. induction d as [| [i' v'] d IH]; simpl.
  - destruct (i =? j) eqn:E; [apply Z.eqb_eq in E; contradiction | reflexivity].
  - destruct (i' =? i) eqn:E; simpl.
    + apply Z.eqb_eq in E; subst.
      destruct (i =? j) eqn:E'; [apply Z.eqb_eq in E'; contradiction | reflexivity].
    + destruct (i' =? j); [reflexivity | exact IH].
Qed.

Lemma build_id_to_item_ok items : forall d0,
  Forall complete items ->
  exists d, build_id_to_item items d0 = Ok d
    /\ (forall i, ~ In i (map id_of items) -> dict_get Z.eqb i d = dict_get Z.eqb i d0)
    /\ (NoDup (map id_of items) ->
        forall it, In it items -> dict_get Z.eqb (id_of it) d = Some it).
Proof.
  induction items as [| it items IH]; intros d0 Hc.
  - exists d0. simpl. repeat split; auto. intros _ ? [].
  - inversion Hc as [| ? ? Hit Hrest]; subst.
    destruct (complete_fields it Hit) as (Hid & _ & _).
    destruct (IH (dict_set Z.eqb (id_of it) it d0) Hrest) as (d & Hrun & Hother & Hsame).
    exists d. simpl. rewrite Hid. simpl. split; [exact Hrun |]. split.
    + intros i Hni. rewrite Hother by (intros H; apply Hni; right; assumption).
      apply zdict_get_set_other. intros Heq. apply Hni. left; exact Heq.
    + intros Hnd it' [<- | Hin]; inversion Hnd as [| ? ? Hni Hnd']; subst.
      * rewrite Hother by assumption. apply zdict_get_set_same.
      * apply Hsame; assumption.
Qed.

(** ** Grouping *)

Lemma groups_append_keys k i g :
  map fst (groups_append k i g)
  = if existsb (fun k' => key_eqb k' k) (map fst g) then map fst g else map fst g ++ [k].
Proof.
  induction g as [| [k' ids] g IH]; simpl; [reflexivity |].
  destruct (key_eqb k' k) eqn:E; simpl; [reflexivity |].
  rewrite IH. destruct (existsb _ _); reflexivity.
Qed.

Lemma groups_append_NoDup k i g : NoDup (map fst g) -> NoDup (map fst (groups_append k i g)).
Proof.
  intros H. rewrite groups_append_keys.
  destruct (existsb _ _) eqn:E; [assumption |].
  apply NoDup_app; [assumption | repeat constructor; intros [] | ].
  intros k' Hin [<- | []].
  assert (existsb (fun k'0 => key_eqb k'0 k) (map fst g) = true); [| congruence].
  apply existsb_exists. exists k. split; [assumption | apply key_eqb_refl].
Qed.

Lemma groups_append_ids k i g :
  Permutation (concat (map snd (groups_append k i g))) (concat (map snd g) ++ [i]).
Proof.
  induction g as [| [k' ids] g IH]; simpl; [reflexivity |].
  destruct (key_eqb k' k); simpl.
  - rewrite <- !app_assoc. apply Permutation_app_head. apply Permutation_app_comm.
  - rewrite IH. rewrite app_assoc. reflexivity.
Qed.

Lemma groups_append_nonempty k i g :
  Forall (fun kids : key * list Z => snd kids <> []) g ->
  Forall (fun kids : key * list Z => snd kids <> []) (groups_append k i g).
Proof.
  induction 1 as [| [k' ids] g Hh Hg IH]; simpl.
  - repeat constructor. discriminate.
  - destruct (key_eqb k' k); constructor; simpl in *; auto.
    intros H. apply app_eq_nil in H as [_ H]. discriminate.
Qed.

Lemma build_groups_ok items : forall g0,
  Forall complete items -> NoDup (map fst g0) ->
  Forall (fun kids : key * list Z => snd kids <> []) g0 ->
  exists g, build_groups items g0 = Ok g
    /\ NoDup (map fst g)
    /\ Forall (fun kids : key * list Z => snd kids <> []) g
    /\ Permutation (concat (map snd g)) (concat (map snd g0) ++ map id_of items).
Proof.
  induction items as [| it items IH]; intros g0 Hc Hnd Hne.
  - exists g0. simpl. rewrite app_nil_r. auto.
  - inversion Hc as [| ? ? Hit Hrest]; subst.
    destruct (complete_fields it Hit) as (Hid & Hd & Ht).
    destruct (IH (groups_append (key_of it) (id_of it) g0) Hrest
                (groups_append_NoDup _ _ _ Hnd) (groups_append_nonempty _ _ _ Hne))
      as (g & Hrun & Hnd' & Hne' & Hperm).
    exists g. simpl. rewrite Hd, Ht, Hid. simpl.
    split; [exact Hrun |]. split; [assumption |]. split; [assumption |].
    rewrite Hperm, groups_append_ids, <- app_assoc. reflexivity.
Qed.

(** ** The floor allocation *)

Lemma init_shape cfg g : shape (init_group_alloc cfg g) = sizes_of g.
Proof. unfold shape, init_group_alloc, sizes_of. rewrite map_map. reflexivity. Qed.

Lemma init_keys cfg g : map fst (init_group_alloc cfg g) = map fst g.
Proof. unfold init_group_alloc. rewrite map_map. reflexivity. Qed.

Lemma length_concat_zsum (g : groups_t) :
  Z.of_nat (length (concat (map snd g))) = zsum (map snd (sizes_of g)).
Proof.
  induction g as [| [k ids] g IH]; simpl; [reflexivity |].
  rewrite length_app, Nat2Z.inj_add, IH. reflexivity.
Qed.

Lemma total_size_shape ga : total_size ga = zsum (map snd (shape ga)).
Proof. unfold total_size, shape. rewrite map_map. reflexivity. Qed.

Lemma group_length_le (g : groups_t) k ids :
  In (k, ids) g -> (length ids <= length (concat (map snd g)))%nat.
Proof.
  induction g as [| [k' ids'] g IH]; simpl; [contradiction |].
  rewrite length_app. intros [Heq | Hin]; [inversion Heq; subst; lia |].
  specialize (IH Hin). lia.
Qed.

Lemma floor_alloc_ok cfg ids :
  F64.unit_frac (TRAIN_FRAC cfg) -> F64.unit_frac (DEV_FRAC cfg) ->
  Z.of_nat (length ids) < 2 ^ 53 -> alloc_ok (floor_alloc cfg ids).
Proof.
  intros Ht Hd Hlen. unfold alloc_ok, floor_alloc; simpl.
  pose proof (F64Facts.floor_mul_bounds (Z.of_nat (length ids)) _ ltac:(lia) Ht).
  pose proof (F64Facts.floor_mul_bounds (Z.of_nat (length ids)) _ ltac:(lia) Hd).
  lia.
Qed.

Lemma init_ok cfg g :
  F64.unit_frac (TRAIN_FRAC cfg) -> F64.unit_frac (DEV_FRAC cfg) ->
  Z.of_nat (length (concat (map snd g))) < 2 ^ 53 ->
  Forall (fun kv => alloc_ok (snd kv)) (init_group_alloc cfg g).
Proof.
  intros Ht Hd Hlen. unfold init_group_alloc. apply Forall_map. apply Forall_forall.
  intros [k ids] Hin. simpl. apply floor_alloc_ok; try assumption.
  pose proof (group_length_le g k ids Hin). lia.
Qed.

Lemma ok_total_nonneg sk ga :
  Forall (fun kv => alloc_ok (snd kv)) ga -> 0 <= total sk ga.
Proof.
  induction 1 as [| [k v] ga (Ht & Hd & _) _ IH]; [unfold total; simpl; lia |].
  rewrite total_cons. destruct sk; simpl in *; lia.
Qed.

(** ** Shuffle and slices *)

Lemma swap_head_perm {A} (a b : A) r j :
  nth_error r j = Some b -> Permutation (a :: r) (b :: set_nth j a r).
Proof.
  revert j. induction r as [| c r IH]; intros [| j]; simpl; try discriminate.
  - intros [= ->]. apply perm_swap.
  - intros Hj. rewrite perm_swap. rewrite (IH j Hj) at 1. apply perm_swap.
Qed.

Lemma swap_perm {A} (x : list A) : forall i j xi xj,
  nth_error x i = Some xi -> nth_error x j = Some xj ->
  Permutation x (set_nth j xi (set_nth i xj x)).
Proof.
  induction x as [| c r IH]; intros [| i] [| j] xi xj; simpl; try discriminate.
  - intros [= ->] [= ->]. reflexivity.
  - intros [= ->] Hj. apply swap_head_perm; assumption.
  - intros Hi [= ->]. apply swap_head_perm; assumption.
  - intros Hi Hj. apply perm_skip. apply IH; assumption.
Qed.

Lemma swap_ok {A} (x : list A) i j :
  (i < length x)%nat -> (j < length x)%nat ->
  exists x', swap x i j = Ok x' /\ Permutation x x'.
Proof.
  intros Hi Hj. unfold swap.
  destruct (nth_error x j) as [xj |] eqn:Ej; [| apply nth_error_None in Ej; lia].
  destruct (nth_error x i) as [xi |] eqn:Ei; [| apply nth_error_None in Ei; lia].
  eexists. split; [reflexivity |]. apply swap_perm; assumption.
Qed.

Section Shuffle.
Context `{PRNG}.

Lemma shuffle_from_ok {A} : forall i (x : list A) s,
  (i < length x \/ i = 0)%nat ->
  exists x' s', shuffle_from i x s = Ok (x', s') /\ Permutation x x'.
Proof.
  induction i as [| i IH]; intros x s Hi.
  - exists x, s. split; reflexivity.
  - destruct Hi as [Hi | Hi]; [| discriminate].
    cbn [shuffle_from].
    pose proof (randbelow_lt s (S (S i)) ltac:(lia)) as Hj.
    destruct (randbelow s (S (S i))) as [j s']. simpl in Hj.
    destruct (swap_ok x (S i) j Hi ltac:(lia)) as (x1 & -> & Hp1).
    cbn [bind].
    destruct (IH x1 s' ltac:(left; rewrite <- (Permutation_length Hp1); lia))
      as (x' & s'' & Hrun & Hp).
    exists x', s''. split; [exact Hrun |]. etransitivity; eassumption.
Qed.

Lemma shuffle_ok {A} (x : list A) s :
  exists x' s', shuffle x s = Ok (x', s') /\ Permutation x x'.
Proof.
  apply shuffle_from_ok. destruct x; simpl; [right; reflexivity | left; lia].
Qed.

End Shuffle.

(* For non-negative counts the three slices cut the list in three. *)
Lemma slices_partition {A} (l : list A) (tcount dcount : Z) :
  0 <= tcount -> 0 <= dcount ->
  let len := Z.of_nat (length l) in
  let train_chunk := py_slice l None (Some tcount) in
  let dev_chunk := py_slice l (Some tcount) (Some (tcount + dcount)) in
  let test_chunk := py_slice l (Some (tcount + dcount)) None in
  train_chunk ++ dev_chunk ++ test_chunk = l
  /\ Z.of_nat (length train_chunk) = Z.min tcount len
  /\ Z.of_nat (length dev_chunk) = Z.min (tcount + dcount) len - Z.min tcount len.
Proof.
  intros Ht Hd len. unfold py_slice, py_index. fold len.
  replace (tcount <? 0) with false by (symmetry; apply Z.ltb_ge; lia).
  replace (tcount + dcount <? 0) with false by (symmetry; apply Z.ltb_ge; lia).
  set (a := Z.to_nat (Z.min tcount len)).
  set (b := Z.to_nat (Z.min (tcount + dcount) len)).
  assert (Hab : (a <= b <= length l)%nat) by (unfold a, b, len; lia).
  replace (Z.to_nat (Z.min tcount len - 0)) with a by (unfold a; lia).
  replace (Z.to_nat (Z.min (tcount + dcount) len - Z.min tcount len)) with (b - a)%nat
    by (unfold a, b; lia).
  replace (Z.to_nat (len - Z.min (tcount + dcount) len)) with (length l - b)%nat
    by (unfold b, len; lia).
  cbn [skipn Z.to_nat]. 
  assert (Htail : firstn (length l - b) (skipn b l) = skipn (b - a) (skipn a l)).
  { rewrite firstn_all2 by (rewrite length_skipn; lia).
    rewrite skipn_skipn. f_equal; lia. }
  split; [| split].
  - rewrite Htail, firstn_skipn, firstn_skipn. reflexivity.
  - rewrite length_firstn. unfold a, len. lia.
  - rewrite length_firstn, length_skipn. unfold a, b, len. lia.
Qed.

(** ** Assignment of ids *)

Lemma perm_interleave2 {A} (a1 b1 a2 b2 : list A) :
  Permutation ((a1 ++ b1) ++ (a2 ++ b2)) ((a1 ++ a2) ++ (b1 ++ b2)).
Proof.
  rewrite <- !app_assoc. apply Permutation_app_head.
  rewrite !app_assoc. apply Permutation_app_tail. apply Permutation_app_comm.
Qed.

Lemma perm_interleave3 {A} (a1 b1 a2 b2 a3 b3 : list A) :
  Permutation ((a1 ++ b1) ++ (a2 ++ b2) ++ (a3 ++ b3))
              ((a1 ++ a2 ++ a3) ++ (b1 ++ b2 ++ b3)).
Proof.
  rewrite (perm_interleave2 a2 b2 a3 b3). apply perm_interleave2.
Qed.

Section Assign.
Context `{PRNG}.

Lemma assign_ids_spec : forall gs ga s train_ids dev_ids test_ids,
  allocs_cover gs ga ->
  exists tr dv te,
    assign_ids gs ga s (train_ids, dev_ids, test_ids)
    = Ok (train_ids ++ tr, dev_ids ++ dv, test_ids ++ te)
    /\ Permutation (tr ++ dv ++ te) (concat (map snd gs))
    /\ Z.of_nat (length tr) = lookup_sum train gs ga
    /\ Z.of_nat (length dv) = lookup_sum (fun a => Z.min (dev a) (size a - train a)) gs ga.
Proof.
  induction gs as [| [k ids] gs IH]; intros ga s train_ids dev_ids test_ids Hcov.
  - exists [], [], []. simpl. rewrite !app_nil_r. repeat split; reflexivity.
  - destruct (Hcov k ids (or_introl eq_refl)) as (a & Hget & Hsize & Ht & Hd & Hte).
    destruct (shuffle_ok ids s) as (x & s' & Hsh & Hperm).
    cbn [assign_ids]. rewrite Hsh. cbn [bind]. rewrite Hget.
    destruct (slices_partition x (train a) (dev a) ltac:(lia) ltac:(lia))
      as (Hcut & Hl1 & Hl2).
    set (c1 := py_slice x None (Some (train a))) in *.
    set (c2 := py_slice x (Some (train a)) (Some (train a + dev a))) in *.
    set (c3 := py_slice x (Some (train a + dev a)) None) in *.
    destruct (IH ga s' (train_ids ++ c1) (dev_ids ++ c2) (test_ids ++ c3))
      as (tr & dv & te & Hrun & Hp & Hlt & Hld).
    { intros k' ids' Hin. apply Hcov. right; assumption. }
    exists (c1 ++ tr), (c2 ++ dv), (c3 ++ te).
    split; [rewrite Hrun, <- !app_assoc; reflexivity |].
    assert (Hlen : Z.of_nat (length x) = size a)
      by (rewrite <- (Permutation_length Hperm); lia).
    split; [| split].
    + rewrite perm_interleave3. simpl. rewrite Hcut, Hp, Hperm. reflexivity.
    + rewrite length_app, Nat2Z.inj_add, Hlt. unfold lookup_sum. simpl.
      rewrite Hget. lia.
    + rewrite length_app, Nat2Z.inj_add, Hld. unfold lookup_sum. simpl.
      rewrite Hget. lia.
Qed.

End Assign.

Lemma lookup_sum_perm f gs gs' ga :
  Permutation gs gs' -> lookup_sum f gs ga = lookup_sum f gs' ga.
Proof.
  intros Hp. unfold lookup_sum. induction Hp; simpl; lia.
Qed.

Lemma lookup_sum_total (f : alloc -> Z) (g : groups_t) : forall ga,
  NoDup (map fst ga) -> map fst ga = map fst g ->
  lookup_sum f g ga = zsum (map (fun kv => f (snd kv)) ga).
Proof.
  unfold lookup_sum.
  induction g as [| [k ids] g IH]; intros [| [k' a] ga] Hnd Hk; try discriminate; [reflexivity |].
  simpl in Hk. injection Hk as -> Hk. inversion Hnd as [| ? ? Hni Hnd']; subst.
  simpl. rewrite key_eqb_refl. f_equal.
  rewrite <- (IH ga Hnd' Hk). f_equal. apply map_ext_in.
  intros [k1 ids1] Hin. simpl.
  rewrite key_eqb_neq; [reflexivity |].
  intros ->. apply Hni. rewrite Hk. change k1 with (fst (k1, ids1)). apply in_map; assumption.
Qed.

(** ** The uniqueness assertion *)

Lemma nodup_length_le (l : list Z) : (length (nodup Z.eq_dec l) <= length l)%nat.
Proof.
  induction l as [| a l IH]; simpl; [lia |].
  destruct (in_dec Z.eq_dec a l); simpl; lia.
Qed.

Lemma nodup_length_eq (l : list Z) :
  length (nodup Z.eq_dec l) = length l <-> NoDup l.
Proof.
  split.
  - induction l as [| a l IH]; simpl; [constructor |].
    pose proof (nodup_length_le l).
    destruct (in_dec Z.eq_dec a l); simpl; intros Hlen; [lia |].
    constructor; [assumption | apply IH; lia].
  - intros Hnd. rewrite nodup_fixed_point by assumption. reflexivity.
Qed.

(** ** The output lists *)

Lemma select_ok d items chosen :
  (forall it, In it items -> dict_get Z.eqb (id_of it) d = Some it) ->
  select d (map id_of items) chosen
  = Ok (filter (fun it => mem (id_of it) chosen) items).
Proof.
  unfold select. induction items as [| it items IH]; intros Hd; simpl; [reflexivity |].
  specialize (IH (fun it' Hin => Hd it' (or_intror Hin))).
  destruct (mem (id_of it) chosen); simpl.
  - rewrite (Hd it (or_introl eq_refl)). simpl. rewrite IH. reflexivity.
  - exact IH.
Qed.

Lemma mem_In i l : mem i l = true <-> In i l.
Proof.
  unfold mem. rewrite existsb_exists. split.
  - intros (x & Hin & Heq). apply Z.eqb_eq in Heq. subst. assumption.
  - intros Hin. exists i. split; [assumption | apply Z.eqb_refl].
Qed.

(* Filtering by three exclusive and exhaustive tests splits a list. *)
Lemma filter3_perm {A} (p1 p2 p3 : A -> bool) (l : list A) :
  (forall x, In x l ->
     (p1 x = true /\ p2 x = false /\ p3 x = false)
     \/ (p1 x = false /\ p2 x = true /\ p3 x = false)
     \/ (p1 x = false /\ p2 x = false /\ p3 x = true)) ->
  Permutation (filter p1 l ++ filter p2 l ++ filter p3 l) l.
Proof.
  induction l as [| x l IH]; intros Hx; simpl; [reflexivity |].
  specialize (IH (fun y Hin => Hx y (or_intror Hin))).
  destruct (Hx x (or_introl eq_refl)) as [(-> & -> & ->) | [(-> & -> & ->) | (-> & -> & ->)]];
    simpl.
  - simpl. apply perm_skip. exact IH.
  - rewrite <- Permutation_middle. apply perm_skip. exact IH.
  - rewrite app_assoc, <- Permutation_middle, <- app_assoc. apply perm_skip. exact IH.
Qed.

Lemma filter_mem_length (l chosen : list Z) :
  NoDup l -> NoDup chosen -> incl chosen l ->
  length (filter (fun i => mem i chosen) l) = length chosen.
Proof.
  intros Hl Hc Hincl. apply Permutation_length. apply NoDup_Permutation.
  - apply NoDup_filter; assumption.
  - assumption.
  - intros i. rewrite filter_In, mem_In. split; [tauto | auto].
Qed.

Lemma filter_map_length {A B} (f : A -> B) (p : B -> bool) (l : list A) :
  length (filter (fun a => p (f a)) l) = length (filter p (map f l)).
Proof. induction l as [| a l IH]; simpl; [reflexivity |]. destruct (p (f a)); simpl; congruence. Qed.

(** ** Conditional facts: whatever a run returns *)

Lemma swap_Ok_perm {A} (x x' : list A) i j : swap x i j = Ok x' -> Permutation x x'.
Proof.
  unfold swap. destruct (nth_error x j) eqn:Ej; [| discriminate].
  destruct (nth_error x i) eqn:Ei; [| discriminate].
  intros [= <-]. apply swap_perm; assumption.
Qed.

Lemma py_slice_incl {A} (l : list A) lo hi : incl (py_slice l lo hi) l.
Proof.
  assert (Hf : forall n (m : list A) x, In x (firstn n m) -> In x m).
  { intros n m x Hin. rewrite <- (firstn_skipn n m). apply in_or_app. left; exact Hin. }
  assert (Hs : forall n (m : list A) x, In x (skipn n m) -> In x m).
  { intros n m x Hin. rewrite <- (firstn_skipn n m). apply in_or_app. right; exact Hin. }
  unfold py_slice. intros x Hin. eapply Hs, Hf, Hin.
Qed.

Section Runs.
Context `{PRNG}.

Lemma shuffle_from_Ok_perm {A} : forall i (x x' : list A) s s',
  shuffle_from i x s = Ok (x', s') -> Permutation x x'.
Proof.
  induction i as [| i IH]; intros x x' s s'; cbn [shuffle_from].
  - intros [= <- _]. reflexivity.
  - destruct (randbelow s (S (S i))) as [j s1].
    destruct (swap x (S i) j) as [x1 | |] eqn:Es; cbn [bind]; try discriminate.
    intros Hrun. rewrite (swap_Ok_perm _ _ _ _ Es). eapply IH; eassumption.
Qed.

Lemma assign_ids_Ok_incl : forall gs ga s acc tr dv te,
  assign_ids gs ga s acc = Ok (tr, dv, te) ->
  incl (tr ++ dv ++ te)
       (fst (fst acc) ++ snd (fst acc) ++ snd acc ++ concat (map snd gs)).
Proof.
  induction gs as [| [k ids] gs IH]; intros ga s [[a1 a2] a3] tr dv te; cbn [assign_ids].
  - intros [= <- <- <-]. simpl. rewrite app_nil_r. apply incl_refl.
  - destruct (shuffle ids s) as [[x s'] | |] eqn:Esh; cbn [bind]; try discriminate.
    destruct (dict_get key_eqb k ga) as [a |]; [| discriminate].
    intros Hrun. apply IH in Hrun. simpl in Hrun |- *.
    pose proof (shuffle_from_Ok_perm _ _ _ _ _ Esh) as Hp.
    intros i Hi. apply Hrun in Hi.
    rewrite !in_app_iff in Hi. rewrite !in_app_iff.
    assert (Hsl : forall lo hi, In i (py_slice x lo hi) -> In i ids).
    { intros lo hi Hin. apply (Permutation_in _ (Permutation_sym Hp)).
      eapply py_slice_incl; eassumption. }
    intuition eauto.
Qed.

End Runs.

(** ** The allocation of a well-formed pool *)

Lemma groups_count_le (g : groups_t) :
  Forall (fun kids : key * list Z => snd kids <> []) g ->
  (length g <= length (concat (map snd g)))%nat.
Proof.
  induction 1 as [| [k ids] g Hne _ IH]; simpl; [lia |].
  rewrite length_app. destruct ids; [contradiction | simpl; lia].
Qed.

Lemma raised_kept sk v v' : raised sk v v' -> kept v v'.
Proof. intros [Hf _]. eapply frame_kept; eassumption. Qed.

Lemma pointwise_ok R ga ga' :
  (forall k v v', R k v v' -> kept v v') -> pointwise R ga ga' ->
  Forall (fun kv => alloc_ok (snd kv)) ga -> Forall (fun kv => alloc_ok (snd kv)) ga'.
Proof.
  intros HR. apply pointwise_Forall. intros k v v' Hv. apply (HR k v v' Hv).
Qed.

Lemma pointwise_size R ga ga' :
  (forall k v v', R k v v' -> kept v v') -> pointwise R ga ga' ->
  total_size ga' = total_size ga.
Proof.
  intros HR Hp. apply shape_total_size. eapply pointwise_shape; [| exact Hp].
  intros k v v' Hv. apply (HR k v v' Hv).
Qed.

Lemma adjusted_spec fuel cfg (g : groups_t) :
  let n := Z.of_nat (length (concat (map snd g))) in
  NoDup (map fst g) -> Forall (fun kids : key * list Z => snd kids <> []) g ->
  valid_fractions cfg -> n < 2 ^ 53 ->
  (length (concat (map snd g)) * length (concat (map snd g)) <= fuel)%nat ->
  exists ga1 ga,
    adjust_for_target fuel Train (target n (TRAIN_FRAC cfg)) (init_group_alloc cfg g) = Ok ga1
    /\ adjusted fuel cfg n g = Ok ga
    /\ pointwise (fun _ => raised Train) (init_group_alloc cfg g) ga1
    /\ (target n (TRAIN_FRAC cfg) - total Train (init_group_alloc cfg g)
          <= spare (init_group_alloc cfg g) ->
        pointwise (fun _ => raised1 Train) (init_group_alloc cfg g) ga1)
    /\ pointwise (fun _ => raised Dev) ga1 ga
    /\ target n (TRAIN_FRAC cfg) <= total Train ga
    /\ target n (DEV_FRAC cfg) <= total Dev ga.
Proof.
  intros n Hnd Hne [Hft Hfd] Hn Hfuel.
  set (ga0 := init_group_alloc cfg g).
  assert (Hnd0 : NoDup (map fst ga0)) by (unfold ga0; rewrite init_keys; assumption).
  assert (Hok0 : Forall (fun kv => alloc_ok (snd kv)) ga0)
    by (apply init_ok; assumption).
  assert (Hsz0 : total_size ga0 = n).
  { rewrite total_size_shape. unfold ga0. rewrite init_shape. symmetry.
    apply length_concat_zsum. }
  assert (Hlen0 : (length ga0 <= length (concat (map snd g)))%nat).
  { unfold ga0, init_group_alloc. rewrite length_map. apply groups_count_le; assumption. }
  pose proof (F64Facts.target_bounds n _ ltac:(lia) Hft) as Htt.
  pose proof (F64Facts.target_bounds n _ ltac:(lia) Hfd) as Htd.
  assert (Hf : forall tg (l : group_alloc_t), 0 <= tg <= n ->
             (length l <= length (concat (map snd g)))%nat ->
             (Z.to_nat tg * length l <= fuel)%nat).
  { intros tg l Htg Hl. assert (Z.to_nat tg <= length (concat (map snd g)))%nat by lia. nia. }
  destruct (adjust_spec fuel Train (target n (TRAIN_FRAC cfg)) ga0 Hnd0
              (ok_total_nonneg Train ga0 Hok0) ltac:(lia) (Hf _ _ Htt Hlen0))
    as (ga1 & Hrun1 & Hp1 & Hhit1 & Hsame1 & Hone1).
  assert (Hk1 : map fst ga1 = map fst ga0) by (eapply pointwise_keys; exact Hp1).
  assert (Hok1 : Forall (fun kv => alloc_ok (snd kv)) ga1).
  { eapply pointwise_ok; [| exact Hp1 | exact Hok0]. intros ? ? ? Hr; exact (raised_kept _ _ _ Hr). }
  assert (Hsz1 : total_size ga1 = n).
  { rewrite <- Hsz0. eapply pointwise_size; [| exact Hp1]. intros ? ? ? Hr; exact (raised_kept _ _ _ Hr). }
  assert (Hlen1 : (length ga1 <= length (concat (map snd g)))%nat).
  { rewrite <- (length_map fst ga1), Hk1, length_map. exact Hlen0. }
  destruct (adjust_spec fuel Dev (target n (DEV_FRAC cfg)) ga1 ltac:(rewrite Hk1; assumption)
              (ok_total_nonneg Dev ga1 Hok1) ltac:(lia) (Hf _ _ Htd Hlen1))
    as (ga & Hrun2 & Hp2 & Hhit2 & Hsame2 & _).
  exists ga1, ga. split; [exact Hrun1 |]. split.
  { unfold adjusted. fold ga0. rewrite Hrun1. cbn [bind]. exact Hrun2. }
  split; [exact Hp1 |]. split; [exact Hone1 |]. split; [exact Hp2 |].
  assert (Ht2 : total Train ga = total Train ga1).
  { eapply pointwise_total; [| exact Hp2]. intros ? ? ? [(_ & _ & _ & Hc & _) _]. exact Hc. }
  split.
  - rewrite Ht2. destruct (Z_le_gt_dec (total Train ga0) (target n (TRAIN_FRAC cfg))).
    + rewrite Hhit1 by assumption. lia.
    + rewrite Hsame1 by lia. lia.
  - destruct (Z_le_gt_dec (total Dev ga1) (target n (DEV_FRAC cfg))).
    + rewrite Hhit2 by assumption. lia.
    + rewrite Hsame2 by lia. lia.
Qed.

Lemma allocate_spec fuel cfg (g : groups_t) :
  let n := Z.of_nat (length (concat (map snd g))) in
  NoDup (map fst g) -> Forall (fun kids : key * list Z => snd kids <> []) g ->
  valid_fractions cfg -> n < 2 ^ 53 ->
  (length (concat (map snd g)) * length (concat (map snd g)) <= fuel)%nat ->
  exists ga, allocate fuel cfg n g = Ok ga
    /\ shape ga = sizes_of g
    /\ Forall (fun kv => alloc_ok (snd kv)) ga
    /\ total Train ga = target n (TRAIN_FRAC cfg)
    /\ total Dev ga = target n (DEV_FRAC cfg).
Proof.
  intros n Hnd Hne Hv Hn Hfuel.
  destruct (adjusted_spec fuel cfg g Hnd Hne Hv Hn Hfuel)
    as (ga1 & ga & _ & Hrun & Hp1 & _ & Hp2 & Htt & Htd).
  fold n in Hrun, Hp1, Hp2, Htt, Htd.
  set (ga0 := init_group_alloc cfg g) in *.
  destruct Hv as [Hft Hfd].
  assert (Hok0 : Forall (fun kv => alloc_ok (snd kv)) ga0) by (apply init_ok; assumption).
  assert (K1 : pointwise (fun _ => kept) ga0 ga1)
    by (eapply pointwise_impl; [| exact Hp1]; intros ? ? ? _ Hr; exact (raised_kept _ _ _ Hr)).
  assert (K2 : pointwise (fun _ => kept) ga1 ga)
    by (eapply pointwise_impl; [| exact Hp2]; intros ? ? ? _ Hr; exact (raised_kept _ _ _ Hr)).
  destruct (reconcile_spec (target n (TRAIN_FRAC cfg)) (target n (DEV_FRAC cfg)) ga)
    as (K3 & Htot).
  set (gaf := reconcile _ _ ga) in *.
  assert (K : pointwise (fun _ => kept) ga0 gaf).
  { eapply pointwise_trans; [| | exact K3]; [intros ? a b c; apply kept_trans |].
    eapply pointwise_trans; [| exact K1 | exact K2]. intros ? a b c; apply kept_trans. }
  assert (Hok : Forall (fun kv => alloc_ok (snd kv)) ga).
  { eapply pointwise_ok; [| exact K2 |]; [intros ? ? ? Hk; exact Hk |].
    eapply pointwise_ok; [| exact K1 | exact Hok0]. intros ? ? ? Hk; exact Hk. }
  pose proof (F64Facts.target_bounds n _ ltac:(lia) Hft) as Bt.
  pose proof (F64Facts.target_bounds n _ ltac:(lia) Hfd) as Bd.
  destruct (Htot Hok ltac:(lia) ltac:(lia)) as [Ht Hd].
  exists gaf. split; [unfold allocate; rewrite Hrun; reflexivity |].
  split.
  { rewrite <- (init_shape cfg g). eapply pointwise_shape; [| exact K].
    intros ? ? ? [Hs _]; exact Hs. }
  split; [| split; assumption].
  eapply pointwise_ok; [| exact K | exact Hok0]. intros ? ? ? Hk; exact Hk.
Qed.

Lemma shape_cover (g gs : groups_t) ga :
  shape ga = sizes_of g -> NoDup (map fst ga) ->
  Forall (fun kv => alloc_ok (snd kv)) ga -> Permutation g gs -> allocs_cover gs ga.
Proof.
  intros Hsh Hnd Hok Hp k ids Hin.
  apply (Permutation_in _ (Permutation_sym Hp)) in Hin.
  assert (Hin' : In (k, Z.of_nat (length ids)) (shape ga)).
  { rewrite Hsh. unfold sizes_of. apply in_map_iff. exists (k, ids). auto. }
  unfold shape in Hin'. apply in_map_iff in Hin' as ([k' a] & Heq & Hina).
  simpl in Heq. inversion Heq; subst.
  exists a. split; [apply In_dict_get; assumption |]. split; [reflexivity |].
  rewrite Forall_forall in Hok. apply (Hok _ Hina).
Qed.

Lemma shape_sizes_keys ga g : shape ga = sizes_of g -> map fst ga = map fst g.
Proof.
  intros H. rewrite <- shape_keys, H. unfold sizes_of. rewrite map_map. reflexivity.
Qed.

Section Main.
Context `{PRNG}.

Lemma main_run fuel cfg items :
  let n := Z.of_nat (length items) in
  Forall complete items -> valid_fractions cfg -> n < 2 ^ 53 ->
  (length items * length items <= fuel)%nat ->
  exists g ga tr dv te,
    build_groups items [] = Ok g
    /\ allocate fuel cfg n g = Ok ga
    /\ assign_ids (sort_groups g) ga (Random (SEED cfg)) ([], [], []) = Ok (tr, dv, te)
    /\ Permutation (tr ++ dv ++ te) (map id_of items)
    /\ Z.of_nat (length tr) = target n (TRAIN_FRAC cfg)
    /\ Z.of_nat (length dv) = zsum (map (fun kv => dev_cut (snd kv)) ga)
    /\ total Dev ga = target n (DEV_FRAC cfg)
    /\ Forall (fun kv => alloc_ok (snd kv)) ga
    /\ (NoDup (map id_of items) ->
        main fuel cfg items = Ok (outputs_of cfg items (tr, dv, te)))
    /\ (~ NoDup (map id_of items) -> main fuel cfg items = Raise AssertionError).
Proof.
  intros n Hc Hv Hn Hfuel.
  destruct (build_id_to_item_ok items [] Hc) as (d & Hd & _ & Hlook).
  destruct (build_groups_ok items [] Hc ltac:(constructor) ltac:(constructor))
    as (g & Hg & Hnd & Hne & Hperm).
  simpl in Hperm.
  assert (Hlen : length (concat (map snd g)) = length items)
    by (rewrite (Permutation_length Hperm); apply length_map).
  destruct (allocate_spec fuel cfg g Hnd Hne Hv ltac:(rewrite Hlen; exact Hn)
              ltac:(rewrite Hlen; exact Hfuel))
    as (ga & Hrun & Hsh & Hok & Htt & Htd).
  rewrite Hlen in Hrun, Htt, Htd. fold n in Hrun, Htt, Htd.
  pose proof (shape_sizes_keys ga g Hsh) as Hk.
  assert (Hndg : NoDup (map fst ga)) by (rewrite Hk; assumption).
  pose proof (shape_cover g (sort_groups g) ga Hsh Hndg Hok (sort_groups_perm g)) as Hcov.
  destruct (assign_ids_spec (sort_groups g) ga (Random (SEED cfg)) [] [] [] Hcov)
    as (tr & dv & te & Hasg & Hp & Hlt & Hld).
  simpl in Hasg.
  assert (Hpi : Permutation (tr ++ dv ++ te) (map id_of items)).
  { rewrite Hp. rewrite <- (sort_groups_perm g). exact Hperm. }
  exists g, ga, tr, dv, te.
  split; [exact Hg |]. split; [exact Hrun |]. split; [exact Hasg |].
  split; [exact Hpi |].
  split.
  { rewrite Hlt, <- (lookup_sum_perm train _ _ ga (sort_groups_perm g)).
    rewrite (lookup_sum_total train g ga Hndg Hk). exact Htt. }
  split.
  { rewrite Hld, <- (lookup_sum_perm _ _ _ ga (sort_groups_perm g)).
    apply (lookup_sum_total _ g ga Hndg Hk). }
  split; [exact Htd |]. split; [exact Hok |].
  assert (Hmain : main fuel cfg items
                  = if distinct_count (tr, dv, te) =? n
                    then (train_list <- select d (map id_of items) tr ;;
                          dev_list <- select d (map id_of items) dv ;;
                          test_list <- select d (map id_of items) te ;;
                          Ok {| train_list := train_list; dev_list := dev_list;
                                test_list := test_list;
                                ver_report :=
                                  {| total_items := n;
                                     targets := (target n (TRAIN_FRAC cfg), target n (DEV_FRAC cfg),
                                                 n - target n (TRAIN_FRAC cfg) - target n (DEV_FRAC cfg));
                                     actual := (Z.of_nat (length train_list),
                                                Z.of_nat (length dev_list),
                                                Z.of_nat (length test_list)) |} |})
                    else Raise AssertionError).
  { unfold main. fold n. rewrite Hd. cbn [bind]. rewrite (build_all_ids_ok items Hc). cbn [bind].
    rewrite Hg. cbn [bind]. rewrite Hrun. cbn [bind]. rewrite Hasg. cbn [bind]. reflexivity. }
  assert (Hcount : Z.of_nat (length (tr ++ dv ++ te)) = n)
    by (rewrite (Permutation_length Hpi), length_map; reflexivity).
  split.
  - intros Hids. rewrite Hmain.
    assert (Hnd3 : NoDup (tr ++ dv ++ te))
      by (apply (Permutation_NoDup (Permutation_sym Hpi)); assumption).
    unfold distinct_count. rewrite (proj2 (nodup_length_eq _) Hnd3), Hcount, Z.eqb_refl.
    rewrite !(select_ok d items _ (Hlook Hids)). reflexivity.
  - intros Hdup. rewrite Hmain.
    unfold distinct_count.
    pose proof (nodup_length_le (tr ++ dv ++ te)) as Hle.
    destruct (Nat.eq_dec (length (nodup Z.eq_dec (tr ++ dv ++ te))) (length (tr ++ dv ++ te)))
      as [Heq | Hneq].
    + exfalso. apply Hdup. apply (Permutation_NoDup Hpi). apply nodup_length_eq. exact Heq.
    + replace (_ =? n) with false; [reflexivity |]. symmetry. apply Z.eqb_neq. lia.
Qed.

End Main.

Lemma NoDup_app_disjoint {A} (l1 l2 : list A) x :
  NoDup (l1 ++ l2) -> In x l1 -> In x l2 -> False.
Proof.
  induction l1 as [| a l1 IH]; simpl; [tauto |].
  intros Hnd [-> | Hin] Hin2; inversion Hnd as [| ? ? Hni Hnd']; subst.
  - apply Hni. apply in_or_app. right; assumption.
  - eapply IH; eassumption.
Qed.

Lemma mem_false i l : mem i l = false <-> ~ In i l.
Proof.
  rewrite <- mem_In. destruct (mem i l); split; intros; try congruence; tauto.
Qed.

(* Ids that form a duplicate-free cover of the pool's ids cut the pool in
   three. *)
Lemma pick_partition items tr dv te :
  Permutation (tr ++ dv ++ te) (map id_of items) -> NoDup (map id_of items) ->
  Permutation (pick tr items ++ pick dv items ++ pick te items) items.
Proof.
  intros Hp Hnd. unfold pick. apply filter3_perm. intros it Hin.
  assert (Hnd3 : NoDup (tr ++ dv ++ te))
    by (apply (Permutation_NoDup (Permutation_sym Hp)); assumption).
  assert (Hi : In (id_of it) (tr ++ dv ++ te))
    by (apply (Permutation_in _ (Permutation_sym Hp)); apply in_map; assumption).
  pose proof (NoDup_app_disjoint tr (dv ++ te) (id_of it) Hnd3) as D1.
  pose proof (NoDup_app_disjoint dv te (id_of it) (NoDup_app_remove_l _ _ Hnd3)) as D2.
  rewrite !in_app_iff in Hi. rewrite in_app_iff in D1.
  cbv beta. rewrite !mem_In, !mem_false. tauto.
Qed.

Lemma pick_length items chosen :
  NoDup (map id_of items) -> NoDup chosen -> incl chosen (map id_of items) ->
  length (pick chosen items) = length chosen.
Proof.
  intros Hnd Hc Hincl. unfold pick.
  rewrite (filter_map_length id_of (fun i => mem i chosen) items).
  apply filter_mem_length; assumption.
Qed.


Section Partitions.
Context `{PRNG}.

(** C1. For every pool whose items carry an id and a (difficulty, table)
    key, with distinct ids, and every pair of train/dev fractions between 0
    and 1, the run returns three lists that together are a rearrangement of
    the pool: their id sets are pairwise disjoint, every item is in one of
    them, and the three lengths add up to n. *)
Theorem partitions_cover_pool fuel cfg items :
  Forall complete items -> NoDup (map id_of items) -> valid_fractions cfg ->
  Z.of_nat (length items) < 2 ^ 53 ->
  (length items * length items <= fuel)%nat ->
  exists out, main fuel cfg items = Ok out
    /\ Permutation (train_list out ++ dev_list out ++ test_list out) items
    /\ (forall i, In i (map id_of (train_list out)) -> In i (map id_of (dev_list out)) -> False)
    /\ (forall i, In i (map id_of (train_list out)) -> In i (map id_of (test_list out)) -> False)
    /\ (forall i, In i (map id_of (dev_list out)) -> In i (map id_of (test_list out)) -> False)
    /\ (forall it, In it items <->
          In it (train_list out) \/ In it (dev_list out) \/ In it (test_list out))
    /\ (length (train_list out) + length (dev_list out) + length (test_list out)
        = length items)%nat.
Proof.
  intros Hc Hnd Hv Hn Hfuel.
  destruct (main_run fuel cfg items Hc Hv Hn Hfuel)
    as (g & ga & tr & dv & te & _ & _ & _ & Hp & _ & _ & _ & _ & Hmain & _).
  exists (outputs_of cfg items (tr, dv, te)).
  split; [apply Hmain; assumption |].
  cbn [outputs_of train_list dev_list test_list].
  pose proof (pick_partition items tr dv te Hp Hnd) as Hpart.
  assert (Hnd3 : NoDup (map id_of (pick tr items ++ pick dv items ++ pick te items)))
    by (apply (Permutation_NoDup (Permutation_sym (Permutation_map id_of Hpart))); assumption).
  rewrite !map_app in Hnd3.
  split; [exact Hpart |].
  split; [intros i H1 H2; apply (NoDup_app_disjoint _ _ i Hnd3 H1); apply in_or_app; auto |].
  split; [intros i H1 H2; apply (NoDup_app_disjoint _ _ i Hnd3 H1); apply in_or_app; auto |].
  split; [intros i; apply (NoDup_app_disjoint _ _ i (NoDup_app_remove_l _ _ Hnd3)) |].
  split.
  - intros it. rewrite <- !in_app_iff. split; intros Hin.
    + apply (Permutation_in _ (Permutation_sym Hpart)); assumption.
    + apply (Permutation_in _ Hpart); assumption.
  - rewrite <- (Permutation_length Hpart), !length_app. lia.
Qed.


(** C10. A pool in which two items share an id never yields output: no run
    returns partitions, and a run with enough fuel stops at the assertion. *)
Theorem duplicate_ids_abort fuel cfg items :
  Forall complete items -> ~ NoDup (map id_of items) ->
  (forall out, main fuel cfg items <> Ok out)
  /\ (valid_fractions cfg -> Z.of_nat (length items) < 2 ^ 53 ->
      (length items * length items <= fuel)%nat ->
      main fuel cfg items = Raise AssertionError).
Proof.
  intros Hc Hdup. split.
  - intros out Hout. unfold main in Hout.
    destruct (build_id_to_item items []) as [d | |]; cbn [bind] in Hout; try discriminate.
    rewrite (build_all_ids_ok items Hc) in Hout. cbn [bind] in Hout.
    destruct (build_groups_ok items [] Hc ltac:(constructor) ltac:(constructor))
      as (g & Hg & _ & _ & Hperm).
    rewrite Hg in Hout. cbn [bind] in Hout.
    destruct (allocate fuel cfg _ g) as [ga | |]; cbn [bind] in Hout; try discriminate.
    destruct (assign_ids (sort_groups g) ga _ _) as [[[tr dv] te] | |] eqn:Hasg;
      cbn [bind] in Hout; try discriminate.
    destruct (distinct_count (tr, dv, te) =? Z.of_nat (length items)) eqn:Ecount;
      [| discriminate].
    apply Z.eqb_eq in Ecount. unfold distinct_count in Ecount.
    apply assign_ids_Ok_incl in Hasg. simpl in Hasg, Hperm.
    assert (Hpc : Permutation (concat (map snd (sort_groups g))) (map id_of items))
      by (rewrite <- (sort_groups_perm g); exact Hperm).
    assert (Hle : (length (nodup Z.eq_dec (tr ++ dv ++ te))
                   <= length (nodup Z.eq_dec (map id_of items)))%nat).
    { apply NoDup_incl_length; [apply NoDup_nodup |].
      intros i Hi. apply nodup_In. apply (Permutation_in _ Hpc).
      apply Hasg. apply nodup_In in Hi. exact Hi. }
    pose proof (nodup_length_le (map id_of items)) as Hle2.
    rewrite length_map in Hle2.
    apply Hdup. apply nodup_length_eq. rewrite length_map. lia.
  - intros Hv Hn Hfuel.
    destruct (main_run fuel cfg items Hc Hv Hn Hfuel)
      as (g & ga & tr & dv & te & _ & _ & _ & _ & _ & _ & _ & _ & _ & Hmain).
    apply Hmain; assumption.
Qed.

(** C3 (amended). After the reconciliation the per-stratum train counts
    and dev counts add up to round(n * f_train) and round(n * f_dev), and
    the train partition has exactly round(n * f_train) items, for every pool
    and every pair of fractions between 0 and 1.  The dev partition has
    round(n * f_dev) items whenever no stratum ends with a negative test
    count. *)
Theorem partition_sizes_hit_targets fuel cfg items :
  Forall complete items -> NoDup (map id_of items) -> valid_fractions cfg ->
  Z.of_nat (length items) < 2 ^ 53 ->
  (length items * length items <= fuel)%nat ->
  let n := Z.of_nat (length items) in
  exists g ga out,
    build_groups items [] = Ok g
    /\ allocate fuel cfg n g = Ok ga
    /\ main fuel cfg items = Ok out
    /\ total Train ga = target n (TRAIN_FRAC cfg)
    /\ total Dev ga = target n (DEV_FRAC cfg)
    /\ Z.of_nat (length (train_list out)) = target n (TRAIN_FRAC cfg)
    /\ (Forall (fun kv => 0 <= test (snd kv)) ga ->
        Z.of_nat (length (dev_list out)) = target n (DEV_FRAC cfg)).
Proof.
  intros Hc Hnd Hv Hn Hfuel n.
  destruct (main_run fuel cfg items Hc Hv Hn Hfuel)
    as (g & ga & tr & dv & te & Hg & Hga & Hasg & Hp & Hlt & Hld & Htd & Hok & Hmain & _).
  fold n in Hga, Hlt, Htd.
  exists g, ga, (outputs_of cfg items (tr, dv, te)).
  split; [exact Hg |]. split; [exact Hga |]. split; [apply Hmain; assumption |].
  cbn [outputs_of train_list dev_list].
  assert (Hnd3 : NoDup (tr ++ dv ++ te))
    by (apply (Permutation_NoDup (Permutation_sym Hp)); assumption).
  assert (Hincl : incl (tr ++ dv ++ te) (map id_of items))
    by (intros i Hi; apply (Permutation_in _ Hp); assumption).
  assert (Hltr : length (pick tr items) = length tr).
  { apply pick_length; [assumption | apply (NoDup_app_remove_r _ _ Hnd3) |].
    intros i Hi. apply Hincl. apply in_or_app; auto. }
  assert (Hldv : length (pick dv items) = length dv).
  { apply pick_length; [assumption | |].
    - apply (NoDup_app_remove_r _ _ (NoDup_app_remove_l _ _ Hnd3)).
    - intros i Hi. apply Hincl. apply in_or_app. right. apply in_or_app; auto. }
  rewrite Hltr, Hldv.
  assert (Htt : total Train ga = target n (TRAIN_FRAC cfg)).
  { destruct (build_groups_ok items [] Hc ltac:(constructor) ltac:(constructor))
      as (g' & Hg' & Hndg & Hne & Hperm).
    rewrite Hg in Hg'. injection Hg' as <-. simpl in Hperm.
    assert (Hlen : length (concat (map snd g)) = length items)
      by (rewrite (Permutation_length Hperm); apply length_map).
    destruct (allocate_spec fuel cfg g Hndg Hne Hv ltac:(rewrite Hlen; exact Hn)
                ltac:(rewrite Hlen; exact Hfuel)) as (ga' & Hrun & _ & _ & Ht & _).
    rewrite Hlen in Hrun, Ht. fold n in Hrun, Ht. rewrite Hga in Hrun.
    injection Hrun as <-. exact Ht. }
  split; [exact Htt |]. split; [exact Htd |]. split; [exact Hlt |].
  intros Htest. rewrite Hld, <- Htd. unfold total. f_equal. apply map_ext_in.
  intros [k a] Hin. simpl. unfold dev_cut.
  rewrite Forall_forall in Hok, Htest.
  specialize (Hok _ Hin). specialize (Htest _ Hin). simpl in Hok, Htest.
  destruct Hok as (_ & _ & Hte). lia.
Qed.

End Partitions.

(** ** Independence from the fuel *)

Lemma settles_refl {A} (o : outcome A) : settles o o.
Proof. right; reflexivity. Qed.

Lemma settles_bind {A B} (c c' : outcome A) (k k' : A -> outcome B) :
  settles c c' -> (forall a, settles (k a) (k' a)) -> settles (bind c k) (bind c' k').
Proof.
  intros [-> | ->] Hk; [left; reflexivity |].
  destruct c as [a | e |]; simpl; [apply Hk | right; reflexivity | left; reflexivity].
Qed.

Lemma round_robin_settles sk keys : forall fuel fuel' idx deficit ga,
  (fuel <= fuel')%nat ->
  settles (round_robin fuel sk keys idx deficit ga)
          (round_robin fuel' sk keys idx deficit ga).
Proof.
  induction fuel as [| fuel IH]; intros fuel' idx deficit ga Hle.
  - simpl. destruct (0 <? deficit) eqn:E; [left; reflexivity |].
    right. destruct fuel'; simpl; rewrite E; reflexivity.
  - destruct fuel' as [| fuel']; [lia |]. cbn [round_robin].
    destruct (0 <? deficit); [| apply settles_refl].
    destruct keys as [| k0 keys']; [apply settles_refl |].
    destruct (dict_get key_eqb _ ga) as [v |]; [| apply settles_refl].
    destruct (count sk v <? size v); apply IH; lia.
Qed.

Lemma adjust_settles fuel fuel' sk target_total ga :
  (fuel <= fuel')%nat ->
  settles (adjust_for_target fuel sk target_total ga)
          (adjust_for_target fuel' sk target_total ga).
Proof.
  intros Hle. unfold adjust_for_target.
  destruct (_ =? 0); [apply settles_refl |].
  destruct (walk _ _ _ _) as [ga1 d1].
  destruct (0 <? d1); [apply round_robin_settles; assumption | apply settles_refl].
Qed.

Lemma allocate_settles fuel fuel' cfg n g :
  (fuel <= fuel')%nat -> settles (allocate fuel cfg n g) (allocate fuel' cfg n g).
Proof.
  intros Hle. unfold allocate, adjusted.
  apply settles_bind; [| intros; apply settles_refl].
  apply settles_bind; [apply adjust_settles; assumption |].
  intros; apply adjust_settles; assumption.
Qed.

Section Determinism.
Context `{PRNG}.

Lemma main_settles fuel fuel' cfg items :
  (fuel <= fuel')%nat -> settles (main fuel cfg items) (main fuel' cfg items).
Proof.
  intros Hle. unfold main.
  apply settles_bind; [apply settles_refl | intros d].
  apply settles_bind; [apply settles_refl | intros all_ids].
  apply settles_bind; [apply settles_refl | intros g].
  apply settles_bind; [apply allocate_settles; assumption | intros ga].
  apply settles_refl.
Qed.

(** C2. Two runs on the same pool with the same configuration (fractions
    and seed) that both come to an end give the same result: the same
    partitions in the same order, or the same exception. *)
Theorem two_runs_agree fuel1 fuel2 cfg items :
  main fuel1 cfg items <> OutOfFuel -> main fuel2 cfg items <> OutOfFuel ->
  main fuel1 cfg items = main fuel2 cfg items.
Proof.
  intros H1 H2. destruct (Nat.le_ge_cases fuel1 fuel2) as [Hle | Hle].
  - destruct (main_settles fuel1 fuel2 cfg items Hle) as [Ho | Heq]; [contradiction | auto].
  - destruct (main_settles fuel2 fuel1 cfg items Hle) as [Ho | Heq]; [contradiction | auto].
Qed.

End Determinism.

(** ** The train deficit never exceeds the number of strata *)

Lemma div_add_le a b P : 0 < P -> (a + b) / P <= a / P + b / P + 1.
Proof.
  intros HP.
  pose proof (Z.div_mod a P ltac:(lia)). pose proof (Z.mod_pos_bound a P HP).
  pose proof (Z.div_mod b P ltac:(lia)). pose proof (Z.mod_pos_bound b P HP).
  assert ((a + b) / P < a / P + b / P + 2); [| lia].
  apply Z.div_lt_upper_bound; [assumption |]. nia.
Qed.

Lemma div_zsum_le (l : list Z) P :
  0 < P -> l <> [] ->
  zsum l / P <= zsum (map (fun a => a / P) l) + Z.of_nat (length l) - 1.
Proof.
  intros HP. induction l as [| a l IH]; [contradiction |]. intros _.
  destruct l as [| b l].
  - simpl. rewrite Z.add_0_r. lia.
  - specialize (IH ltac:(discriminate)).
    change (zsum (a :: b :: l)) with (a + zsum (b :: l)).
    change (zsum (map (fun a0 => a0 / P) (a :: b :: l)))
      with (a / P + zsum (map (fun a0 => a0 / P) (b :: l))).
    pose proof (div_add_le a (zsum (b :: l)) P HP).
    change (length (a :: b :: l)) with (S (length (b :: l))). lia.
Qed.

Lemma zsum_map_mul (l : list Z) m : zsum (map (fun a => a * m) l) = zsum l * m.
Proof. induction l as [| a l IH]; simpl; [reflexivity | rewrite IH; lia]. Qed.

Lemma zsum_le (f h : key * list Z -> Z) (g : groups_t) :
  (forall x, In x g -> f x <= h x) -> zsum (map f g) <= zsum (map h g).
Proof.
  induction g as [| x g IH]; intros Hx; simpl; [lia |].
  pose proof (Hx x (or_introl eq_refl)).
  specialize (IH (fun y Hy => Hx y (or_intror Hy))). lia.
Qed.

Lemma train_deficit_le_strata cfg (g : groups_t) :
  let n := Z.of_nat (length (concat (map snd g))) in
  F64.unit_frac (TRAIN_FRAC cfg) -> n < 2 ^ 53 ->
  target n (TRAIN_FRAC cfg) - total Train (init_group_alloc cfg g)
  <= Z.of_nat (length g).
Proof.
  intros n Hf Hn.
  destruct g as [| x g'].
  { subst n. cbn [map concat length Z.of_nat].
    pose proof (F64Facts.target_bounds 0 _ ltac:(lia) Hf).
    unfold total, init_group_alloc; cbn [map zsum fold_right]. lia. }
  set (g := x :: g') in *.
  set (m := F64.fnum (TRAIN_FRAC cfg)). set (P := 2 ^ Z.of_N (F64.fexp (TRAIN_FRAC cfg))).
  assert (HP : 0 < P) by apply F64Facts.pow_fexp_pos.
  pose proof (F64Facts.target_upper n _ ltac:(lia) Hf) as Hup. fold m P in Hup.
  set (sizes := map (fun kids : key * list Z => Z.of_nat (length (snd kids))) g).
  assert (Hsum : n = zsum sizes).
  { unfold n, sizes. rewrite length_concat_zsum. unfold sizes_of. rewrite map_map. reflexivity. }
  assert (Hcarry : n * m / P
                   <= zsum (map (fun a => a / P) (map (fun a => a * m) sizes))
                      + Z.of_nat (length g) - 1).
  { rewrite Hsum, <- zsum_map_mul.
    replace (length g) with (length (map (fun a => a * m) sizes))
      by (unfold sizes; rewrite !length_map; reflexivity).
    apply div_zsum_le; [assumption |]. unfold sizes, g. discriminate. }
  assert (Hfloors : zsum (map (fun a => a / P) (map (fun a => a * m) sizes))
                    <= total Train (init_group_alloc cfg g)).
  { unfold total, init_group_alloc, sizes. rewrite !map_map. apply zsum_le.
    intros [k ids] Hin. simpl. fold m P.
    apply F64Facts.floor_mul_lower; [| assumption].
    pose proof (group_length_le g k ids Hin). lia. }
  lia.
Qed.

Lemma spare_all ga :
  Forall (fun kv : key * alloc => 0 < size (snd kv) - train (snd kv) - dev (snd kv)) ga ->
  spare ga = Z.of_nat (length ga).
Proof.
  unfold spare. induction 1 as [| kv ga Hkv _ IH]; simpl; [reflexivity |].
  replace (0 <? _) with true by (symmetry; apply Z.ltb_lt; assumption).
  simpl length. lia.
Qed.


(* With spare capacity in every stratum the ranked walk alone meets the
   train target, so no stratum gets more than one extra train unit. *)
Lemma train_within_one_general fuel cfg (g : groups_t) :
  let n := Z.of_nat (length (concat (map snd g))) in
  NoDup (map fst g) -> Forall (fun kids : key * list Z => snd kids <> []) g ->
  valid_fractions cfg -> n < 2 ^ 53 ->
  (length (concat (map snd g)) * length (concat (map snd g)) <= fuel)%nat ->
  Forall (fun kv : key * alloc => 0 < size (snd kv) - train (snd kv) - dev (snd kv))
         (init_group_alloc cfg g) ->
  exists ga, adjusted fuel cfg n g = Ok ga
    /\ pointwise (fun _ v v' => size v' = size v
                    /\ (train v' = train v \/ train v' = train v + 1))
                 (init_group_alloc cfg g) ga.
Proof.
  intros n Hnd Hne Hv Hn Hfuel Hcap.
  destruct (adjusted_spec fuel cfg g Hnd Hne Hv Hn Hfuel)
    as (ga1 & ga & _ & Hrun & _ & Hone & Hp2 & _ & _).
  fold n in Hrun, Hone, Hp2.
  exists ga. split; [exact Hrun |].
  assert (H1 : pointwise (fun _ => raised1 Train) (init_group_alloc cfg g) ga1).
  { apply Hone. rewrite (spare_all _ Hcap).
    replace (length (init_group_alloc cfg g)) with (length g)
      by (unfold init_group_alloc; rewrite length_map; reflexivity).
    apply train_deficit_le_strata; [apply Hv | assumption]. }
  eapply pointwise_trans; [| exact H1 | exact Hp2].
  intros _ a b c [(Hs1 & _) Hc1] [(Hs2 & _ & _ & Hc2 & _) _]. simpl in *.
  split; [congruence | lia].
Qed.

(** ** The constants of the script leave spare capacity everywhere *)

Lemma default_capacity g :
  1 <= g < 2 ^ 53 ->
  F64.floor (F64.mul (F64.of_int g) (TRAIN_FRAC default_config))
  + F64.floor (F64.mul (F64.of_int g) (DEV_FRAC default_config)) < g.
Proof.
  intros Hg.
  destruct (Z_lt_le_dec g 14) as [Hsmall | Hbig].
  - assert (Hcases : g = 1 \/ g = 2 \/ g = 3 \/ g = 4 \/ g = 5 \/ g = 6 \/ g = 7
                     \/ g = 8 \/ g = 9 \/ g = 10 \/ g = 11 \/ g = 12 \/ g = 13) by lia.
    repeat (destruct Hcases as [-> | Hcases]; [vm_compute; reflexivity |]).
    subst; vm_compute; reflexivity.
  - assert (Ht : F64.unit_frac (TRAIN_FRAC default_config))
      by (split; apply Z.leb_le; reflexivity).
    assert (Hd : F64.unit_frac (DEV_FRAC default_config))
      by (split; apply Z.leb_le; reflexivity).
    pose proof (F64Facts.floor_mul_upper g _ ltac:(lia) Ht) as Ut.
    pose proof (F64Facts.floor_mul_upper g _ ltac:(lia) Hd) as Ud.
    cbn [default_config TRAIN_FRAC DEV_FRAC F64.fnum F64.fexp] in Ut, Ud |- *.
    change (2 ^ Z.of_N 53) with 9007199254740992 in Ut.
    change (2 ^ Z.of_N 55) with 36028797018963968 in Ud.
    set (A := (g * 6305039478318694 + 9007199254740992 - 1) / 9007199254740992) in *.
    set (B := (g * 5404319552844595 + 36028797018963968 - 1) / 36028797018963968) in *.
    assert (HA : A * 9007199254740992 <= g * 6305039478318694 + 9007199254740992 - 1).
    { unfold A. rewrite Z.mul_comm. apply Z.mul_div_le. lia. }
    assert (HB : B * 36028797018963968 <= g * 5404319552844595 + 36028797018963968 - 1).
    { unfold B. rewrite Z.mul_comm. apply Z.mul_div_le. lia. }
    lia.
Qed.

(** ** Relative error of the rounding *)

Module F64More.
Import F64 F64Facts.

(* Rounding to nearest moves a numerator up by at most 2^-53 of itself. *)
Lemma round53_rel x : 0 <= x -> 2 ^ 53 * (round53 x - x) <= x.
Proof.
  intros Hx. unfold round53.
  destruct (Z.log2 x + 1 - 53 <=? 0) eqn:E; [lia |].
  apply Z.leb_gt in E. set (s := Z.log2 x + 1 - 53) in *.
  assert (Hpos : 0 < x) by (destruct (Z.eq_dec x 0) as [->|]; [simpl in *; lia | lia]).
  assert (HS : 0 < 2 ^ (s - 1)) by (apply Z.pow_pos_nonneg; lia).
  assert (HS2 : 2 ^ s = 2 * 2 ^ (s - 1)).
  { replace s with (1 + (s - 1)) at 1 by lia. rewrite Z.pow_add_r by lia. reflexivity. }
  pose proof (Z.div_mod x (2 ^ s) ltac:(lia)) as Hdm.
  pose proof (Z.mod_pos_bound x (2 ^ s) ltac:(lia)) as Hr.
  assert (Hq : 2 ^ 52 <= x / 2 ^ s).
  { apply Z.div_le_lower_bound; [lia |].
    rewrite <- Z.pow_add_r by lia.
    replace (s + 52) with (Z.log2 x) by (unfold s; lia).
    apply Z.log2_spec; lia. }
  rewrite Z.shiftr_div_pow2 by lia.
  rewrite !Z.shiftl_mul_pow2 by lia.
  replace (x - x / 2 ^ s * 2 ^ s) with (x mod 2 ^ s) by lia.
  set (q := x / 2 ^ s) in *. set (r := x mod 2 ^ s) in *.
  destruct (rne_cases q r (1 * 2 ^ (s - 1))) as [-> | [-> Hh]].
  - nia.
  - rewrite HS2 in *. set (h := 2 ^ (s - 1)) in *.
    assert (Hx2 : x = q * (2 * h) + r) by lia.
    assert (2 ^ 52 * (2 * h) <= q * (2 * h)) by (apply Z.mul_le_mono_nonneg_r; lia).
    change (2 ^ 53) with (2 ^ 52 * 2). nia.
Qed.

Lemma zsum_div_le (l : list Z) P :
  0 < P -> zsum (map (fun a => a / P) l) <= zsum l / P.
Proof.
  intros HP. induction l as [| a l IH]; simpl; [rewrite Z.div_0_l by lia; lia |].
  assert (a / P + zsum l / P <= (a + zsum l) / P); [| lia].
  apply Z.div_le_lower_bound; [assumption |].
  pose proof (Z.mul_div_le a P HP). pose proof (Z.mul_div_le (zsum l) P HP). lia.
Qed.

Lemma py_round_ge_floor a : floor a <= py_round a.
Proof. destruct (py_round_cases a); lia. Qed.

Lemma py_round_ge_quarter a K :
  (2 <= fexp a)%N -> (4 * K - 1) * 2 ^ (Z.of_N (fexp a) - 2) <= fnum a -> K <= py_round a.
Proof.
  intros Hp Hle. unfold py_round.
  set (Q := 2 ^ (Z.of_N (fexp a) - 2)) in *.
  assert (HQ : 0 < Q) by (apply Z.pow_pos_nonneg; lia).
  assert (HPQ : 2 ^ Z.of_N (fexp a) = Q * 4).
  { unfold Q. replace (Z.of_N (fexp a)) with ((Z.of_N (fexp a) - 2) + 2) at 1 by lia.
    rewrite Z.pow_add_r by lia. reflexivity. }
  rewrite HPQ.
  pose proof (Z.div_mod (fnum a) (Q * 4) ltac:(lia)) as Hdm.
  pose proof (Z.mod_pos_bound (fnum a) (Q * 4) ltac:(lia)) as Hr.
  set (q := fnum a / (Q * 4)) in *. set (r := fnum a mod (Q * 4)) in *.
  assert (Hq : K - 1 <= q).
  { unfold q. apply Z.div_le_lower_bound; [lia |]. nia. }
  destruct (Z_le_gt_dec K q) as [Hge | Hlt].
  - destruct (_ || _); lia.
  - assert (q = K - 1) by lia.
    assert (Hr3 : 3 * Q <= r) by nia.
    replace (Q * 4 <? 2 * r) with true by (symmetry; apply Z.ltb_lt; lia).
    cbn [orb]. lia.
Qed.

Lemma rounded_floors_rel (sizes : list Z) f B :
  0 <= fnum f -> B < 2 ^ 53 -> Forall (fun g => 0 <= g <= B) sizes ->
  2 ^ 53 * (zsum (map (fun g => floor (mul (of_int g) f)) sizes) * 2 ^ Z.of_N (fexp f))
  <= (2 ^ 53 + 1) * (zsum sizes * fnum f).
Proof.
  intros Hm HB Hall. pose proof (pow_fexp_pos f) as HP.
  set (P := 2 ^ Z.of_N (fexp f)) in *.
  induction Hall as [| g l Hg _ IH]; [simpl; lia |].
  cbn [map zsum fold_right]. fold (zsum l).
  fold (zsum (map (fun g0 => floor (mul (of_int g0) f)) l)).
  rewrite mul_of_int by lia. unfold floor at 1. cbn [fnum fexp]. fold P.
  pose proof (round53_rel (g * fnum f) ltac:(nia)) as Hrel.
  pose proof (Z.mul_div_le (round53 (g * fnum f)) P HP) as Hdiv.
  set (k := round53 (g * fnum f) / P) in *.
  set (R := round53 (g * fnum f)) in *.
  set (S := zsum (map (fun g0 => floor (mul (of_int g0) f)) l)) in *.
  nia.
Qed.

Lemma floors_le_sizes (sizes : list Z) f B :
  unit_frac f -> B < 2 ^ 53 -> Forall (fun g => 0 <= g <= B) sizes ->
  zsum (map (fun g => floor (mul (of_int g) f)) sizes) <= zsum sizes.
Proof.
  intros Hf HB Hall. induction Hall as [| g l Hg _ IH]; [simpl; lia |].
  cbn [map zsum fold_right]. pose proof (floor_mul_bounds g f ltac:(lia) Hf).
  unfold zsum in IH. lia.
Qed.

(* round(n * f) is at least the sum of floor(g * f) over any way of cutting
   n < 2^51 into non-negative sizes g. *)
Lemma floors_le_target (sizes : list Z) f :
  unit_frac f -> Forall (fun g => 0 <= g) sizes -> zsum sizes < 2 ^ 51 ->
  zsum (map (fun g => floor (mul (of_int g) f)) sizes) <= target (zsum sizes) f.
Proof.
  intros Hf Hpos Hn.
  assert (Hsum0 : 0 <= zsum sizes).
  { clear Hn. induction Hpos; simpl; lia. }
  assert (Hle : Forall (fun g => 0 <= g <= zsum sizes) sizes).
  { clear Hn Hsum0. induction Hpos as [| g l Hg Hl IH]; [constructor |].
    assert (0 <= zsum l) by (clear IH; induction Hl; simpl; lia).
    constructor; [simpl; lia |].
    eapply Forall_impl; [| exact IH]. simpl. intros; lia. }
  set (N := zsum sizes) in *.
  assert (HN53 : 0 <= N < 2 ^ 53) by (change (2 ^ 53) with (2 ^ 51 * 4); lia).
  pose proof (target_bounds N f HN53 Hf) as Htb.
  pose proof (floors_le_sizes sizes f N Hf ltac:(lia) Hle) as HKN. fold N in HKN.
  pose proof (rounded_floors_rel sizes f N ltac:(apply Hf) ltac:(lia) Hle) as Hrel. fold N in Hrel.
  destruct Hf as [Hm0 Hm1]. pose proof (pow_fexp_pos f) as HP.
  set (K := zsum (map (fun g => floor (mul (of_int g) f)) sizes)) in *.
  destruct (Z_le_gt_dec K 0) as [HK0 | HK1]; [lia |].
  destruct (N.ltb (fexp f) 2) eqn:Ep.
  - (* f is 0, 1/2 or 1: every product is exact *)
    apply N.ltb_lt in Ep.
    assert (HP2 : 2 ^ Z.of_N (fexp f) <= 2).
    { change 2 with (2 ^ 1) at 2. apply Z.pow_le_mono_r; lia. }
    assert (Hex : forall g, 0 <= g <= N -> round53 (g * fnum f) = g * fnum f).
    { intros g Hg. apply round53_small. change (2 ^ 53) with (2 ^ 51 * 4). nia. }
    unfold target. rewrite mul_of_int by lia.
    rewrite (Hex N) by lia.
    etransitivity; [| apply py_round_ge_floor]. unfold floor; cbn [fnum fexp].
    assert (HK : K = zsum (map (fun a => a / 2 ^ Z.of_N (fexp f))
                               (map (fun g => g * fnum f) sizes))).
    { unfold K. rewrite map_map. f_equal. apply map_ext_in. intros g Hg.
      rewrite Forall_forall in Hle.
      rewrite mul_of_int by (pose proof (Hle g Hg); lia).
      unfold floor; cbn [fnum fexp]. rewrite Hex by (apply Hle; exact Hg). reflexivity. }
    rewrite HK. etransitivity; [apply zsum_div_le; exact HP |].
    rewrite zsum_map_mul. fold N. lia.
  - apply N.ltb_ge in Ep.
    unfold target. apply py_round_ge_quarter.
    + rewrite mul_of_int by lia. exact Ep.
    + rewrite mul_of_int by lia. cbn [fnum fexp].
      set (Q := 2 ^ (Z.of_N (fexp f) - 2)).
      assert (HQ : 0 < Q) by (apply Z.pow_pos_nonneg; lia).
      assert (HPQ : 2 ^ Z.of_N (fexp f) = Q * 4).
      { unfold Q. replace (Z.of_N (fexp f)) with ((Z.of_N (fexp f) - 2) + 2) at 1 by lia.
        rewrite Z.pow_add_r by lia. reflexivity. }
      rewrite HPQ in *.
      apply (round53_ge_int (N * fnum f) (4 * K - 1) (Z.of_N (fexp f) - 2)).
      * nia.
      * lia.
      * change (2 ^ 53) with (2 ^ 51 * 4). lia.
      * fold Q.
        assert (HX : N * fnum f <= N * (Q * 4)) by (apply Z.mul_le_mono_nonneg_l; lia).
        assert (HX4 : 4 * (N * fnum f) < 2 ^ 53 * (Q * 4)).
        { change (2 ^ 53) with (2 ^ 51 * 4). nia. }
        set (X := N * fnum f) in *. set (KQ := K * (Q * 4)) in *.
        assert (KQ <= X + Q); [| unfold KQ; lia].
        change (2 ^ 53 + 1) with 9007199254740993 in Hrel.
        change (2 ^ 53) with 9007199254740992 in Hrel, HX4. lia.
Qed.

End F64More.

(** ** The train deficit never exceeds the number of strata with spare capacity *)

Module F64Fit.
Import F64 F64Facts.



End F64Fit.


Lemma spare_nonneg ga : 0 <= spare ga.
Proof. unfold spare. lia. Qed.



(** ** Train counts before the reconciliation *)

(* The constants of [default_config] are the floats Python reads from the
   literals 0.70 and 0.15. *)
Lemma default_fractions_literals :
  F64.nearest_to 70 100 (TRAIN_FRAC default_config)
  /\ F64.nearest_to 15 100 (DEV_FRAC default_config)
  /\ F64.nearest_to 15 100 (TEST_FRAC default_config).
Proof. repeat split; apply Z.leb_le || apply Z.ltb_lt; reflexivity. Qed.

Lemma default_fractions_valid : valid_fractions default_config.
Proof. split; split; apply Z.leb_le; reflexivity. Qed.


(** ** The ten-item scenario *)

(** C5. Ten items, seven in (easy, production) and three in (hard,
    production), fractions 0.70/0.15/0.15: the targets are 7, 2 and 1; the
    floor allocation is 4/1/2 and 2/0/1; the train pass ranks (easy,
    production) first (remainder about 0.9 against 0.1, both with spare
    capacity) and gives it the one missing train unit; the dev pass ranks
    (hard, production) first (about 0.45 against 0.05) and gives it the one
    missing dev unit.  The order of the two strata in the input does not
    matter. *)
Theorem concrete_scenario :
  let cfg := default_config in
  let ga0 := init_group_alloc cfg g10 in
  build_groups pool10 [] = Ok g10
  /\ (target 10 (TRAIN_FRAC cfg), target 10 (DEV_FRAC cfg),
      10 - target 10 (TRAIN_FRAC cfg) - target 10 (DEV_FRAC cfg)) = (7, 2, 1)
  /\ counts ga0 = [(easy, (4, 1, 2)); (hard, (2, 0, 1))]
  /\ total Train ga0 = 6
  /\ sort_fracs (map (frac_of Train) ga0)
     = [(F64.mk 8106479329266888 53, easy, 2); (F64.mk 900719925474096 53, hard, 1)]
  /\ F64.ltb (F64.mk 900719925474096 53) (F64.mk 8106479329266888 53) = true
  /\ on_ok counts (adjust_for_target 0 Train 7 ga0)
     = Ok [(easy, (5, 1, 1)); (hard, (2, 0, 1))]
  /\ on_ok (total Dev) (adjust_for_target 0 Train 7 ga0) = Ok 1
  /\ on_ok (fun ga1 => sort_fracs (map (frac_of Dev) ga1))
           (adjust_for_target 0 Train 7 ga0)
     = Ok [(F64.mk 16212958658533784 55, hard, 1);
           (F64.mk 1801439850948200 55, easy, 1)]
  /\ F64.ltb (F64.mk 1801439850948200 55) (F64.mk 16212958658533784 55) = true
  /\ on_ok counts (adjusted 0 cfg 10 g10) = Ok [(easy, (5, 1, 1)); (hard, (2, 1, 0))]
  /\ on_ok counts (allocate 0 cfg 10 g10) = Ok [(easy, (5, 1, 1)); (hard, (2, 1, 0))]
  /\ on_ok (map fst) (build_groups pool10_hard_first []) = Ok [hard; easy]
  /\ on_ok (fun g => counts (init_group_alloc cfg g)) (build_groups pool10_hard_first [])
     = Ok [(hard, (2, 0, 1)); (easy, (4, 1, 2))]
  /\ on_ok counts (g <- build_groups pool10_hard_first [] ;; allocate 0 cfg 10 g)
     = Ok [(hard, (2, 1, 0)); (easy, (5, 1, 1))].
Proof.
  cbv zeta. repeat match goal with |- _ /\ _ => split end; vm_compute; reflexivity.
Qed.

(** ** What the fallback guard keeps, and what it does not *)

Lemma topped_up_refl sk v : topped_up sk v v.
Proof. split; [apply raised_refl | left; reflexivity]. Qed.

Lemma topped_up_trans sk a b c : topped_up sk a b -> topped_up sk b c -> topped_up sk a c.
Proof.
  intros [Hab Hb] [Hbc Hc]. split; [eapply raised_trans; eassumption |].
  destruct Hab as [(Hs & _) _]. destruct Hc as [Hc | Hc]; [rewrite Hc; exact Hb | right; lia].
Qed.

Lemma round_robin_Ok_topped_up sk keys : forall fuel idx deficit ga ga',
  NoDup (map fst ga) ->
  round_robin fuel sk keys idx deficit ga = Ok ga' ->
  pointwise (fun _ => topped_up sk) ga ga'.
Proof.
  induction fuel as [| fuel IH]; intros idx deficit ga ga' Hnd; cbn [round_robin].
  - destruct (0 <? deficit); [discriminate |]. intros [= <-].
    apply pointwise_refl; intros; apply topped_up_refl.
  - destruct (0 <? deficit).
    2:{ intros [= <-]. apply pointwise_refl; intros; apply topped_up_refl. }
    destruct keys as [| k0 keys']; [discriminate |].
    set (k := nth _ _ k0).
    destruct (dict_get key_eqb k ga) as [v |] eqn:Hget; [| discriminate].
    destruct (count sk v <? size v) eqn:Ec; [| apply IH; assumption].
    apply Z.ltb_lt in Ec. intros Hrun.
    apply IH in Hrun; [| rewrite dict_update_keys; assumption].
    eapply pointwise_trans; [| | exact Hrun]; [intros ? a b c; apply topped_up_trans |].
    apply pointwise_update; [intros; apply topped_up_refl |].
    intros v2 Hin2.
    rewrite <- (In_unique k v v2 ga Hnd (dict_get_In k ga v Hget) Hin2).
    split; [apply bump_raised; assumption | right; rewrite count_bump_same; lia].
Qed.

(** X21. The guard of the round-robin fallback is count < size for the
    split being adjusted.  It keeps 0 <= train <= size, 0 <= dev <= size and
    test = size - train - dev in every stratum after each pass; it does not
    keep test non-negative. *)
Theorem counts_stay_within_size fuel cfg (g : groups_t) :
  let n := Z.of_nat (length (concat (map snd g))) in
  NoDup (map fst g) -> Forall (fun kids : key * list Z => snd kids <> []) g ->
  valid_fractions cfg -> n < 2 ^ 53 ->
  (length (concat (map snd g)) * length (concat (map snd g)) <= fuel)%nat ->
  (forall sk keys idx deficit ga ga',
      NoDup (map fst ga) ->
      round_robin fuel sk keys idx deficit ga = Ok ga' ->
      pointwise (fun _ => topped_up sk) ga ga')
  /\ exists ga1 ga2 ga3,
       adjust_for_target fuel Train (target n (TRAIN_FRAC cfg)) (init_group_alloc cfg g) = Ok ga1
       /\ adjust_for_target fuel Dev (target n (DEV_FRAC cfg)) ga1 = Ok ga2
       /\ allocate fuel cfg n g = Ok ga3
       /\ Forall (fun kv => alloc_ok (snd kv)) (init_group_alloc cfg g)
       /\ Forall (fun kv => alloc_ok (snd kv)) ga1
       /\ Forall (fun kv => alloc_ok (snd kv)) ga2
       /\ Forall (fun kv => alloc_ok (snd kv)) ga3.
Proof.
  intros n Hnd Hne Hv Hn Hfuel.
  split; [intros; eapply round_robin_Ok_topped_up; eassumption |].
  destruct (adjusted_spec fuel cfg g Hnd Hne Hv Hn Hfuel)
    as (ga1 & ga2 & Hrun1 & Hrun & Hp1 & _ & Hp2 & _ & _).
  destruct (allocate_spec fuel cfg g Hnd Hne Hv Hn Hfuel) as (ga3 & Hrun3 & _ & Hok3 & _).
  fold n in Hrun1, Hrun, Hp1, Hp2, Hrun3.
  assert (Hok0 : Forall (fun kv => alloc_ok (snd kv)) (init_group_alloc cfg g))
    by (destruct Hv; apply init_ok; assumption).
  assert (Hok1 : Forall (fun kv => alloc_ok (snd kv)) ga1).
  { eapply pointwise_ok; [| exact Hp1 | exact Hok0]. intros ? ? ? Hr; exact (raised_kept _ _ _ Hr). }
  assert (Hok2 : Forall (fun kv => alloc_ok (snd kv)) ga2).
  { eapply pointwise_ok; [| exact Hp2 | exact Hok1]. intros ? ? ? Hr; exact (raised_kept _ _ _ Hr). }
  exists ga1, ga2, ga3. split; [exact Hrun1 |]. split.
  { unfold adjusted in Hrun. rewrite Hrun1 in Hrun. exact Hrun. }
  repeat split; assumption.
Qed.

(** C6. The code at fractions 0.6/0.33/0.07 and strata of sizes 1, 1 and
    6: after the ranked walk the dev pass still has a deficit of 1; the
    fallback gives the unit to the first stratum, whose capacity
    size - train - dev is 0, because its dev count 0 is below its size 1;
    that stratum's test count becomes -1, although the third stratum still
    has a free item.  The statement that the fallback grants only where
    capacity remains, and that test never drops below 0, does not hold of
    the code. *)
Lemma fallback_grants_without_capacity :
  let cfg := cfg_60_33_07 in
  let k1 : key := ("easy"%string, "population"%string) in
  let k2 : key := ("easy"%string, "production"%string) in
  let k3 : key := ("hard"%string, "production"%string) in
  let after_walk :=
    ga1 <- adjust_for_target 9 Train (target 8 (TRAIN_FRAC cfg)) (init_group_alloc cfg g8) ;;
    Ok (walk Dev (sort_fracs (map (frac_of Dev) ga1))
             (target 8 (DEV_FRAC cfg) - total Dev ga1) ga1) in
  valid_fractions cfg
  /\ (target 8 (TRAIN_FRAC cfg), target 8 (DEV_FRAC cfg)) = (5, 3)
  /\ on_ok (fun r => (counts (fst r), snd r)) after_walk
     = Ok ([(k1, (1, 0, 0)); (k2, (1, 0, 0)); (k3, (3, 2, 1))], 1)
  /\ on_ok counts (r <- after_walk ;; round_robin 9 Dev (map fst (fst r)) 0 (snd r) (fst r))
     = Ok [(k1, (1, 1, -1)); (k2, (1, 0, 0)); (k3, (3, 2, 1))]
  /\ on_ok counts (adjusted 9 cfg 8 g8)
     = Ok [(k1, (1, 1, -1)); (k2, (1, 0, 0)); (k3, (3, 2, 1))]
  /\ ~ (forall ga, adjusted 9 cfg 8 g8 = Ok ga ->
        Forall (fun kv : key * alloc => 0 <= test (snd kv)) ga).
Proof.
  cbv zeta.
  split; [split; split; apply Z.leb_le; reflexivity |].
  do 4 (split; [vm_compute; reflexivity |]).
  intros Hall.
  destruct (adjusted 9 cfg_60_33_07 8 g8) as [ga | |] eqn:E; try (vm_compute in E; discriminate).
  specialize (Hall ga eq_refl).
  vm_compute in E. injection E as <-.
  inversion Hall as [| ? ? Hneg _]; subst. simpl in Hneg. lia.
Qed.

(** ** The fractions are taken as they are *)

Section Config.
Context `{PRNG}.

Lemma main_ignores_test_frac fuel cfg items f :
  main fuel (with_test_frac cfg f) items = main fuel cfg items.
Proof. reflexivity. Qed.

(** C7 (amended). The run performs no check of the fractions: TEST_FRAC is
    never read, and for any TRAIN_FRAC and DEV_FRAC between 0 and 1,
    whatever the three add up to, the run completes and returns
    partitions; test receives what train and dev leave. *)
Theorem fractions_are_not_validated fuel cfg items :
  Forall complete items -> NoDup (map id_of items) -> valid_fractions cfg ->
  Z.of_nat (length items) < 2 ^ 53 ->
  (length items * length items <= fuel)%nat ->
  (exists out, main fuel cfg items = Ok out)
  /\ (forall f, main fuel (with_test_frac cfg f) items = main fuel cfg items).
Proof.
  intros Hc Hnd Hv Hn Hfuel. split; [| intros; apply main_ignores_test_frac].
  destruct (main_run fuel cfg items Hc Hv Hn Hfuel)
    as (g & ga & tr & dv & te & _ & _ & _ & _ & _ & _ & _ & _ & Hmain & _).
  eexists. apply Hmain. assumption.
Qed.

(** ** Missing keys *)

Lemma build_id_to_item_cases items : forall d0,
  (exists d, build_id_to_item items d0 = Ok d)
  \/ build_id_to_item items d0 = Raise (KeyError "id").
Proof.
  induction items as [| it items IH]; intros d0; simpl; [left; eauto |].
  destruct (id it); simpl; [apply IH | right; reflexivity].
Qed.

Lemma build_all_ids_cases items :
  (exists l, build_all_ids items = Ok l) \/ build_all_ids items = Raise (KeyError "id").
Proof.
  unfold build_all_ids. induction items as [| it items IH]; simpl; [left; eauto |].
  destruct (id it); simpl; [| right; reflexivity].
  destruct IH as [[l ->] | ->]; simpl; [left; eauto | right; reflexivity].
Qed.

Lemma build_groups_missing items : forall g0,
  (exists it, In it items /\ (difficulty_level it = None \/ table it = None)) ->
  exists k, build_groups items g0 = Raise (KeyError k) /\ key_name k.
Proof.
  unfold key_name.
  induction items as [| it items IH]; intros g0 (bad & Hin & Hbad); [contradiction |].
  simpl.
  destruct (difficulty_level it) as [d |] eqn:Ed; simpl; [| eexists; split; [reflexivity | auto]].
  destruct (table it) as [t |] eqn:Et; simpl; [| eexists; split; [reflexivity | auto]].
  destruct (id it) as [i |]; simpl; [| eexists; split; [reflexivity | auto]].
  apply IH. exists bad. split; [| assumption].
  destruct Hin as [<- | Hin]; [| assumption].
  destruct Hbad; congruence.
Qed.

(** C8 (amended). If an item has no difficulty_level key or no table key,
    the run stops with a KeyError before any allocation and returns no
    partitions.  An empty label is not a missing key: it is grouped like
    any other label. *)
Theorem missing_key_raises fuel cfg items :
  (exists it, In it items /\ (difficulty_level it = None \/ table it = None)) ->
  exists k, main fuel cfg items = Raise (KeyError k) /\ key_name k.
Proof.
  intros Hbad. unfold main.
  destruct (build_id_to_item_cases items []) as [[d ->] | ->]; cbn [bind];
    [| eexists; split; [reflexivity | left; reflexivity]].
  destruct (build_all_ids_cases items) as [[l ->] | ->]; cbn [bind];
    [| eexists; split; [reflexivity | left; reflexivity]].
  destruct (build_groups_missing items [] Hbad) as (k & -> & Hk).
  exists k. split; [reflexivity | exact Hk].
Qed.

End Config.

(** ** Runs that contradict the specification as written *)

(** C3, as stated, fails: three items in one stratum with fractions
    0.5/0.5/0.0, which add up to 1.  The targets are 2 and 2; the dev pass
    falls back to the round-robin, the stratum ends with train = dev = 2 and
    test = -1, and the dev slice holds one item. *)
Lemma dev_partition_misses_target :
  fraction_sum half_half = F64.mk 2 1
  /\ valid_fractions half_half
  /\ 3 <= Z.of_nat (length pool3)
  /\ target 3 (TRAIN_FRAC half_half) = 2
  /\ target 3 (DEV_FRAC half_half) = 2
  /\ on_ok counts (g <- build_groups pool3 [] ;; allocate 9 half_half 3 g)
     = Ok [(easy, (2, 2, -1))]
  /\ on_ok (fun out => (length (train_list out), length (dev_list out),
                        length (test_list out)))
           (@main lcg 9 half_half pool3) = Ok (2, 1, 0)%nat
  /\ ~ (forall out, @main lcg 9 half_half pool3 = Ok out ->
        Z.of_nat (length (dev_list out)) = target 3 (DEV_FRAC half_half)).
Proof.
  split; [reflexivity |].
  split; [split; split; apply Z.leb_le; reflexivity |].
  split; [apply Z.leb_le; reflexivity |].
  do 4 (split; [vm_compute; reflexivity |]).
  intros Hall.
  destruct (@main lcg 9 half_half pool3) as [out | |] eqn:E; try (vm_compute in E; discriminate).
  specialize (Hall out eq_refl).
  vm_compute in E. injection E as <-. vm_compute in Hall. discriminate.
Qed.


(** C7, as stated, fails: fractions 0.5/0.25/0.5 add up to 1.25 and the run
    returns partitions of 5, 2 and 3 items. *)
Lemma bad_fraction_sum_is_accepted :
  fraction_sum cfg_sum_125 = F64.mk 5 2
  /\ F64.ltb (F64.mk 1 0) (fraction_sum cfg_sum_125) = true
  /\ on_ok (fun out => actual (ver_report out)) (@main lcg 100 cfg_sum_125 pool10)
     = Ok (5, 2, 3)
  /\ ~ (exists e, @main lcg 100 cfg_sum_125 pool10 = Raise e).
Proof.
  do 3 (split; [vm_compute; reflexivity |]).
  intros [e He]. vm_compute in He. discriminate.
Qed.

(** C8, as stated, fails for an empty label: an item whose difficulty_level
    is the empty string is grouped under the key ("", "production") and
    ends up in the train partition. *)
Lemma empty_label_is_assigned :
  difficulty_level unlabelled = Some EmptyString
  /\ on_ok (map fst) (build_groups (pool10 ++ [unlabelled]) [])
     = Ok [easy; hard; (EmptyString, "production"%string)]
  /\ on_ok (fun out => map id_of (train_list out))
           (@main lcg 200 default_config (pool10 ++ [unlabelled]))
     = Ok [1; 2; 3; 6; 7; 9; 10; 11]
  /\ ~ (exists e, @main lcg 200 default_config (pool10 ++ [unlabelled]) = Raise e).
Proof.
  do 3 (split; [vm_compute; reflexivity |]).
  intros [e He]. vm_compute in He. discriminate.
Qed.

(** ** The theorems at concrete pools *)

(* Tactics that evaluate the side conditions on a concrete pool. *)
Ltac all_complete :=
  repeat (apply Forall_cons; [repeat split; discriminate |]); apply Forall_nil.

Ltac fractions_in_range := split; split; apply Z.leb_le; reflexivity.

Ltac ids_distinct := apply (proj1 (nodup_length_eq _)); reflexivity.

Lemma partitions_cover_pool_witness :
  exists out, @main lcg 100 default_config pool10 = Ok out
    /\ Permutation (train_list out ++ dev_list out ++ test_list out) pool10
    /\ (length (train_list out) + length (dev_list out) + length (test_list out) = 10)%nat.
Proof.
  destruct (@partitions_cover_pool lcg 100 default_config pool10)
    as (out & Hrun & Hperm & _ & _ & _ & _ & Hlen).
  - unfold pool10; simpl; all_complete.
  - ids_distinct.
  - fractions_in_range.
  - apply Z.ltb_lt; reflexivity.
  - simpl; lia.
  - exists out. split; [exact Hrun |]. split; [exact Hperm | exact Hlen].
Defined.

Lemma two_runs_agree_witness :
  @main lcg 100 default_config pool10 = @main lcg 200 default_config pool10.
Proof.
  apply (@two_runs_agree lcg 100 200 default_config pool10).
  - vm_compute; discriminate.
  - vm_compute; discriminate.
Defined.

Lemma partition_sizes_hit_targets_witness :
  exists out, @main lcg 100 default_config pool10 = Ok out
    /\ Z.of_nat (length (train_list out)) = target 10 (TRAIN_FRAC default_config).
Proof.
  destruct (@partition_sizes_hit_targets lcg 100 default_config pool10)
    as (g & ga & out & _ & _ & Hrun & _ & _ & Htrain & _).
  - unfold pool10; simpl; all_complete.
  - ids_distinct.
  - fractions_in_range.
  - apply Z.ltb_lt; reflexivity.
  - simpl; lia.
  - exists out. split; [exact Hrun | exact Htrain].
Defined.


Lemma counts_stay_within_size_witness :
  exists ga3, allocate 100 default_config 10 g10 = Ok ga3
    /\ Forall (fun kv => alloc_ok (snd kv)) ga3.
Proof.
  destruct (counts_stay_within_size 100 default_config g10)
    as (_ & ga1 & ga2 & ga3 & _ & _ & Hrun & _ & _ & _ & Hok).
  - apply NoDup_cons; [intros [E | []]; discriminate |].
    apply NoDup_cons; [intros [] | apply NoDup_nil].
  - repeat (apply Forall_cons; [discriminate |]); apply Forall_nil.
  - fractions_in_range.
  - apply Z.ltb_lt; reflexivity.
  - simpl; lia.
  - exists ga3. split; [exact Hrun | exact Hok].
Defined.

Lemma fractions_are_not_validated_witness :
  exists out, @main lcg 100 cfg_sum_125 pool10 = Ok out.
Proof.
  destruct (@fractions_are_not_validated lcg 100 cfg_sum_125 pool10) as [Hrun _].
  - unfold pool10; simpl; all_complete.
  - ids_distinct.
  - fractions_in_range.
  - apply Z.ltb_lt; reflexivity.
  - simpl; lia.
  - exact Hrun.
Defined.

Lemma missing_key_raises_witness :
  exists k, @main lcg 100 default_config (pool10 ++ [keyless]) = Raise (KeyError k)
         /\ key_name k.
Proof.
  apply (@missing_key_raises lcg 100 default_config (pool10 ++ [keyless])).
  exists keyless. split; [apply in_or_app; right; left; reflexivity | right; reflexivity].
Defined.


Lemma duplicate_ids_abort_witness :
  @main lcg 200 default_config pool_dup = Raise AssertionError.
Proof.
  destruct (@duplicate_ids_abort lcg 200 default_config pool_dup) as [_ Hraise].
  - unfold pool_dup, pool10; simpl; all_complete.
  - intros Hnd. apply (proj2 (nodup_length_eq _)) in Hnd. vm_compute in Hnd. discriminate.
  - apply Hraise.
    + fractions_in_range.
    + apply Z.ltb_lt; reflexivity.
    + simpl; lia.
Defined.

(** * Further properties of the script *)

(** ** The empty pool *)

Lemma target_zero f : target 0 f = 0.
Proof.
  unfold target, F64.py_round, F64.mul. cbn [F64.of_int F64.fnum F64.fexp].
  change (F64.round53s 0) with 0. rewrite Z.mul_0_l. change (F64.round53s 0) with 0.
  pose proof (F64Facts.pow_fexp_pos f) as Hp.
  rewrite N.add_0_l.
  set (d := 2 ^ Z.of_N (F64.fexp f)) in *.
  rewrite Z.mod_0_l, Z.div_0_l by lia.
  destruct (d <? 2 * 0) eqn:E1; [apply Z.ltb_lt in E1; lia |].
  destruct (2 * 0 =? d) eqn:E2; [apply Z.eqb_eq in E2; lia |].
  reflexivity.
Qed.

(** X1. An empty pool is split into three empty lists, whatever the
    configured fractions, the seed and the generator: both targets are 0, so
    neither loop of adjust_for_target is entered and the division by
    len(keys) = 0 is never reached. *)
Theorem empty_pool_gives_empty_partitions `{PRNG} fuel cfg :
  main fuel cfg [] =
  Ok {| train_list := []; dev_list := []; test_list := [];
        ver_report := {| total_items := 0; targets := (0, 0, 0); actual := (0, 0, 0) |} |}.
Proof.
  unfold main. cbn [build_id_to_item build_all_ids mapM build_groups bind length Z.of_nat].
  unfold allocate, adjusted, init_group_alloc, adjust_for_target. rewrite !target_zero.
  reflexivity.
Qed.

(** ** Which key a KeyError names *)

Lemma build_id_to_item_missing items : forall d0,
  Exists (fun it => id it = None) items ->
  build_id_to_item items d0 = Raise (KeyError "id").
Proof.
  induction items as [| it items IH]; intros d0 Hex; [inversion Hex |].
  simpl. destruct (id it) as [i |] eqn:E; simpl; [| reflexivity].
  apply IH. inversion Hex; subst; [congruence | assumption].
Qed.

Lemma build_id_to_item_present items : forall d0,
  Forall (fun it => id it <> None) items -> exists d, build_id_to_item items d0 = Ok d.
Proof.
  induction items as [| it items IH]; intros d0 Hall; simpl; [eauto |].
  inversion Hall as [| ? ? Hit Hrest]; subst.
  destruct (id it) as [i |]; [| contradiction]. simpl. apply IH; assumption.
Qed.

Lemma build_all_ids_present items :
  Forall (fun it => id it <> None) items -> exists l, build_all_ids items = Ok l.
Proof.
  unfold build_all_ids. induction 1 as [| it items Hit _ [l IH]]; simpl; [eauto |].
  destruct (id it) as [i |]; [| contradiction]. simpl. rewrite IH. simpl. eauto.
Qed.

Lemma build_groups_first_missing pre it post : forall g0,
  Forall complete pre -> id it <> None ->
  (difficulty_level it = None \/ table it = None) ->
  build_groups (pre ++ it :: post) g0
  = Raise (KeyError (match difficulty_level it with
                     | None => "difficulty_level"
                     | Some _ => "table"
                     end)).
Proof.
  induction pre as [| p pre IH]; intros g0 Hpre Hid Hbad.
  - simpl. destruct (difficulty_level it) as [d |]; simpl; [| reflexivity].
    destruct (table it) as [t |]; simpl; [| reflexivity].
    destruct Hbad; discriminate.
  - inversion Hpre as [| ? ? Hp Hrest]; subst.
    destruct (complete_fields p Hp) as (Hi & Hd & Ht).
    simpl. rewrite Hd, Ht, Hi. simpl. apply IH; assumption.
Qed.

Section KeyErrors.
Context `{PRNG}.

(** X2. id_to_item is built over the whole pool before anything else is
    read: an item without the id key, wherever it stands and whatever else
    is missing before it, makes the run raise KeyError('id'). *)
Theorem missing_id_is_reported_first fuel cfg items :
  Exists (fun it => id it = None) items ->
  main fuel cfg items = Raise (KeyError "id").
Proof.
  intros Hex. unfold main. rewrite (build_id_to_item_missing items [] Hex). reflexivity.
Qed.

(** X3. When every item has an id, the KeyError names the key missing from
    the first incomplete item: difficulty_level if that item lacks it
    (whether or not it has a table), table otherwise. *)
Theorem first_incomplete_item_names_the_key fuel cfg pre it post :
  Forall (fun it' => id it' <> None) (pre ++ it :: post) ->
  Forall complete pre ->
  (difficulty_level it = None \/ table it = None) ->
  main fuel cfg (pre ++ it :: post)
  = Raise (KeyError (match difficulty_level it with
                     | None => "difficulty_level"
                     | Some _ => "table"
                     end)).
Proof.
  intros Hids Hpre Hbad. unfold main.
  destruct (build_id_to_item_present _ [] Hids) as [d ->].
  destruct (build_all_ids_present _ Hids) as [l ->]. cbn [bind].
  rewrite (build_groups_first_missing pre it post []); [reflexivity | assumption | | assumption].
  apply Forall_app in Hids as [_ Hids]. inversion Hids; assumption.
Qed.

End KeyErrors.

(** ** id_to_item *)

Lemma find_snoc {A} (p : A -> bool) l x :
  find p (l ++ [x]) = match find p l with
                      | Some y => Some y
                      | None => if p x then Some x else None
                      end.
Proof.
  induction l as [| a l IH]; simpl; [reflexivity |].
  destruct (p a); [reflexivity | exact IH].
Qed.

Lemma build_id_to_item_last items : forall d0 d,
  build_id_to_item items d0 = Ok d ->
  forall i, dict_get Z.eqb i d
            = match find (fun it => id_of it =? i) (rev items) with
              | Some it => Some it
              | None => dict_get Z.eqb i d0
              end.
Proof.
  induction items as [| it items IH]; intros d0 d Hrun i.
  - simpl in *. congruence.
  - simpl in Hrun. destruct (id it) as [j |] eqn:Ej; simpl in Hrun; [| discriminate].
    rewrite (IH _ _ Hrun i). simpl rev. rewrite find_snoc.
    destruct (find _ (rev items)); [reflexivity |].
    unfold id_of at 1. rewrite Ej.
    destruct (j =? i) eqn:E.
    + apply Z.eqb_eq in E; subst. apply zdict_get_set_same.
    + apply Z.eqb_neq in E. apply zdict_get_set_other; assumption.
Qed.

(** X4. id_to_item maps an id to the last item of the pool that carries it
    (a dict comprehension overwrites), and has no entry for an id that no
    item carries. *)
Theorem id_to_item_keeps_the_last_item items :
  Forall (fun it => id it <> None) items ->
  exists d, build_id_to_item items [] = Ok d
    /\ forall i, dict_get Z.eqb i d = find (fun it => id_of it =? i) (rev items).
Proof.
  intros Hids. destruct (build_id_to_item_present items [] Hids) as [d Hd].
  exists d. split; [exact Hd |]. intros i.
  rewrite (build_id_to_item_last items [] d Hd i).
  destruct (find _ _); reflexivity.
Qed.

(** ** Grouping in closed form *)

Lemma groups_append_get k i g k' :
  dict_get key_eqb k' (groups_append k i g)
  = if key_eqb k k' then Some (match dict_get key_eqb k g with
                               | Some l => l ++ [i]
                               | None => [i]
                               end)
    else dict_get key_eqb k' g.
Proof.
  induction g as [| [k0 ids] g IH]; simpl.
  - reflexivity.
  - destruct (key_eqb k0 k) eqn:E0; simpl.
    + apply key_eqb_eq in E0; subst k0.
      destruct (key_eqb k k'); reflexivity.
    + destruct (key_eqb k0 k') eqn:E1.
      * apply key_eqb_eq in E1; subst k0.
        destruct (key_eqb k k') eqn:E2; [| reflexivity].
        apply key_eqb_eq in E2; subst. rewrite key_eqb_refl in E0. discriminate.
      * exact IH.
Qed.

Lemma ids_with_key_cons k it items :
  ids_with_key k (it :: items)
  = if key_eqb (key_of it) k then id_of it :: ids_with_key k items else ids_with_key k items.
Proof. unfold ids_with_key. simpl. destruct (key_eqb _ _); reflexivity. Qed.

Lemma build_groups_cons it items g0 :
  complete it ->
  build_groups (it :: items) g0
  = build_groups items (groups_append (key_of it) (id_of it) g0).
Proof.
  unfold complete, key_of, id_of. intros (Hi & Hd & Ht). simpl.
  destruct (id it), (difficulty_level it), (table it); try contradiction. reflexivity.
Qed.

Lemma build_groups_get items : forall g0 g,
  Forall complete items -> build_groups items g0 = Ok g ->
  forall k, dict_get key_eqb k g
            = match dict_get key_eqb k g0, ids_with_key k items with
              | Some l, l' => Some (l ++ l')
              | None, [] => None
              | None, l' => Some l'
              end.
Proof.
  induction items as [| it items IH]; intros g0 g Hc Hrun k.
  - simpl in Hrun. injection Hrun as <-. unfold ids_with_key. simpl.
    destruct (dict_get key_eqb k g0); [rewrite app_nil_r |]; reflexivity.
  - inversion Hc as [| ? ? Hit Hrest]; subst.
    rewrite build_groups_cons in Hrun by assumption.
    rewrite (IH _ _ Hrest Hrun k), groups_append_get, ids_with_key_cons.
    destruct (key_eqb (key_of it) k) eqn:E.
    + apply key_eqb_eq in E. rewrite E.
      destruct (dict_get key_eqb k g0); [rewrite <- app_assoc |]; reflexivity.
    + destruct (dict_get key_eqb k g0); reflexivity.
Qed.

Lemma existsb_key k l : existsb (fun k' => key_eqb k' k) l = true <-> In k l.
Proof.
  rewrite existsb_exists. split.
  - intros (x & Hin & E). apply key_eqb_eq in E. subst. assumption.
  - intros Hin. exists k. split; [assumption | apply key_eqb_refl].
Qed.

Lemma filter_twice {A} (p q : A -> bool) l :
  filter p (filter q l) = filter (fun x => q x && p x) l.
Proof.
  induction l as [| a l IH]; simpl; [reflexivity |].
  destruct (q a); simpl; [destruct (p a) |]; rewrite ?IH; reflexivity.
Qed.

Lemma build_groups_keys items : forall g0 g,
  Forall complete items -> build_groups items g0 = Ok g ->
  map fst g
  = map fst g0
    ++ filter (fun k => negb (existsb (fun k' => key_eqb k' k) (map fst g0)))
              (first_seen (map key_of items)).
Proof.
  induction items as [| it items IH]; intros g0 g Hc Hrun.
  - simpl in Hrun. injection Hrun as <-. simpl. rewrite app_nil_r. reflexivity.
  - inversion Hc as [| ? ? Hit Hrest]; subst.
    rewrite build_groups_cons in Hrun by assumption.
    rewrite (IH _ _ Hrest Hrun), groups_append_keys. simpl map. simpl first_seen.
    set (k := key_of it). set (fs := first_seen (map key_of items)).
    simpl filter.
    destruct (existsb (fun k' => key_eqb k' k) (map fst g0)) eqn:E; simpl negb; cbv iota.
    + f_equal. rewrite filter_twice. apply filter_ext_in. intros x _.
      destruct (key_eqb x k) eqn:Ex; simpl; [| reflexivity].
      apply key_eqb_eq in Ex; subst x. rewrite E. reflexivity.
    + rewrite <- app_assoc. simpl. f_equal. f_equal.
      rewrite filter_twice. apply filter_ext_in. intros x _.
      rewrite existsb_app. simpl. rewrite orb_false_r, negb_orb.
      replace (key_eqb k x) with (key_eqb x k).
      2:{ destruct (key_eqb x k) eqn:E1, (key_eqb k x) eqn:E2; try reflexivity.
          - apply key_eqb_eq in E1; subst. rewrite key_eqb_refl in E2. discriminate.
          - apply key_eqb_eq in E2; subst. rewrite key_eqb_refl in E1. discriminate. }
      apply andb_comm.
Qed.

Lemma assoc_closed_form {V} (F : key -> V) (g : list (key * V)) :
  NoDup (map fst g) ->
  (forall k, In k (map fst g) -> dict_get key_eqb k g = Some (F k)) ->
  g = map (fun k => (k, F k)) (map fst g).
Proof.
  induction g as [| [k v] g IH]; intros Hnd Hget; [reflexivity |].
  inversion Hnd as [| ? ? Hk Hnd']; subst. simpl.
  pose proof (Hget k (or_introl eq_refl)) as Hk0. simpl in Hk0.
  rewrite key_eqb_refl in Hk0. injection Hk0 as ->.
  f_equal. apply IH; [assumption |].
  intros k' Hin. rewrite <- (Hget k' (or_intror Hin)). simpl.
  rewrite key_eqb_neq; [reflexivity |]. intros ->. contradiction.
Qed.

Lemma build_groups_closed items :
  Forall complete items ->
  build_groups items []
  = Ok (map (fun k => (k, ids_with_key k items)) (first_seen (map key_of items))).
Proof.
  intros Hc.
  destruct (build_groups_ok items [] Hc (NoDup_nil _) (Forall_nil _)) as (g & Hrun & Hnd & _ & _).
  rewrite Hrun. f_equal.
  pose proof (build_groups_keys items [] g Hc Hrun) as Hkeys. simpl in Hkeys.
  assert (Hall : forall l : list key, filter (fun _ => true) l = l)
    by (induction l as [| a l IHl]; simpl; [| rewrite IHl]; reflexivity).
  rewrite Hall in Hkeys.
  rewrite <- Hkeys. apply assoc_closed_form; [assumption |].
  intros k Hin. destruct (dict_get_keys k g Hin) as [v Hv].
  rewrite (build_groups_get items [] g Hc Hrun k) in Hv |- *. simpl in *.
  destruct (ids_with_key k items); [discriminate | reflexivity].
Qed.

Lemma In_first_seen k l : In k (first_seen l) <-> In k l.
Proof.
  induction l as [| a l IH]; simpl; [tauto |].
  rewrite filter_In, IH. split.
  - intros [-> | [Hin _]]; auto.
  - intros [-> | Hin]; [left; reflexivity |].
    destruct (key_eqb k a) eqn:E; [apply key_eqb_eq in E; left; congruence |].
    right. split; [assumption | reflexivity].
Qed.

(** X5. After the grouping loop, groups holds one entry per distinct
    (difficulty_level, table) pair, in the order in which the pairs first
    appear in the pool, and the entry of a pair lists the ids of exactly the
    items carrying it, in input order. *)
Theorem groups_are_the_strata_in_input_order items :
  Forall complete items ->
  exists g, build_groups items [] = Ok g
    /\ map fst g = first_seen (map key_of items)
    /\ forall k, In k (map key_of items) ->
         dict_get key_eqb k g = Some (ids_with_key k items).
Proof.
  intros Hc. rewrite (build_groups_closed items Hc). eexists. split; [reflexivity |].
  split; [rewrite map_map; apply map_id |].
  intros k Hin. apply In_dict_get.
  - rewrite map_map, map_id.
    clear Hin. induction (map key_of items) as [| a l IH]; simpl; [constructor |].
    constructor; [| apply NoDup_filter; exact IH].
    rewrite filter_In, key_eqb_refl. intros [_ Hf]. discriminate.
  - apply in_map_iff. exists k. split; [reflexivity |]. apply In_first_seen. exact Hin.
Qed.

(** ** Targets and floors against the exact products *)

Lemma ceil_le_floor_succ x P : 0 < P -> (x + P - 1) / P <= x / P + 1.
Proof.
  intros HP. assert ((x + P - 1) / P < x / P + 2); [| lia].
  apply Z.div_lt_upper_bound; [assumption |].
  pose proof (Z.div_mod x P ltac:(lia)). pose proof (Z.mod_pos_bound x P HP). nia.
Qed.

(** X6. For a fraction f between 0 and 1 and a pool of n < 2^53 items,
    int(round(n * f)) computed in binary64 lies between 0 and n, and is the
    floor of the exact product n x f or one above it. *)
Theorem target_is_within_one_of_the_exact_product n f :
  0 <= n < 2 ^ 53 -> F64.unit_frac f ->
  0 <= target n f <= n
  /\ exact_floor n f <= target n f <= exact_floor n f + 1.
Proof.
  intros Hn Hf. split; [apply F64Facts.target_bounds; assumption |].
  split; [| apply F64Facts.target_upper; assumption].
  pose proof (F64Facts.floor_mul_lower n f Hn Hf) as Hlo.
  unfold target, exact_floor.
  destruct (F64Facts.py_round_cases (F64.mul (F64.of_int n) f)) as [-> | ->]; lia.
Qed.

(** X7. The floor allocation of a stratum of g items, for fractions between
    0 and 1: train and dev are each between 0 and g, each is the floor of
    the exact product g x f or one above it (the binary64 product may round
    up to the next integer), and test is what is left, g - train - dev. *)
Theorem floor_allocation_bounds cfg ids :
  valid_fractions cfg -> Z.of_nat (length ids) < 2 ^ 53 ->
  let g := Z.of_nat (length ids) in
  let a := floor_alloc cfg ids in
  size a = g
  /\ 0 <= train a <= g /\ 0 <= dev a <= g
  /\ test a = g - train a - dev a
  /\ exact_floor g (TRAIN_FRAC cfg) <= train a <= exact_floor g (TRAIN_FRAC cfg) + 1
  /\ exact_floor g (DEV_FRAC cfg) <= dev a <= exact_floor g (DEV_FRAC cfg) + 1.
Proof.
  intros [Ht Hd] Hlen g a.
  assert (Hg : 0 <= g < 2 ^ 53) by (unfold g; lia).
  pose proof (F64Facts.floor_mul_bounds g _ Hg Ht) as Bt.
  pose proof (F64Facts.floor_mul_bounds g _ Hg Hd) as Bd.
  pose proof (F64Facts.floor_mul_lower g _ Hg Ht) as Lt.
  pose proof (F64Facts.floor_mul_lower g _ Hg Hd) as Ld.
  pose proof (F64Facts.floor_mul_upper g _ Hg Ht) as Ut.
  pose proof (F64Facts.floor_mul_upper g _ Hg Hd) as Ud.
  pose proof (ceil_le_floor_succ (g * F64.fnum (TRAIN_FRAC cfg)) _
                (F64Facts.pow_fexp_pos (TRAIN_FRAC cfg))) as Ct.
  pose proof (ceil_le_floor_succ (g * F64.fnum (DEV_FRAC cfg)) _
                (F64Facts.pow_fexp_pos (DEV_FRAC cfg))) as Cd.
  unfold a, floor_alloc, exact_floor. cbn [size train dev test]. fold g.
  split; [reflexivity |]. split; [exact Bt |]. split; [exact Bd |].
  split; [reflexivity |]. split; lia.
Qed.

(** X8. With the fractions the script ships, 0.70 and 0.15, the test
    target n - round(0.70 n) - round(0.15 n) is never negative, and the
    floor allocation leaves at least one item for test in every non-empty
    stratum. *)
Theorem shipped_fractions_leave_room_for_test n ids :
  0 <= n < 2 ^ 53 -> ids <> [] -> Z.of_nat (length ids) < 2 ^ 53 ->
  0 <= n - target n (TRAIN_FRAC default_config) - target n (DEV_FRAC default_config)
  /\ 1 <= test (floor_alloc default_config ids).
Proof.
  intros Hn Hne Hlen. split.
  - destruct (Z_lt_le_dec n 14) as [Hsmall | Hbig].
    + assert (Hall : forallb (fun k => 0 <=? k - target k (TRAIN_FRAC default_config)
                                              - target k (DEV_FRAC default_config))
                             (map Z.of_nat (seq 0 14)) = true) by (vm_compute; reflexivity).
      rewrite forallb_forall in Hall. apply Z.leb_le. apply Hall.
      apply in_map_iff. exists (Z.to_nat n). split; [lia | apply in_seq; lia].
    + destruct default_fractions_valid as [Ht Hd].
      pose proof (F64Facts.target_upper n _ Hn Ht) as Ut.
      pose proof (F64Facts.target_upper n _ Hn Hd) as Ud.
      cbn [default_config TRAIN_FRAC DEV_FRAC F64.fnum F64.fexp] in Ut, Ud |- *.
      change (2 ^ Z.of_N 53) with 9007199254740992 in Ut.
      change (2 ^ Z.of_N 55) with 36028797018963968 in Ud.
      set (A := n * 6305039478318694 / 9007199254740992) in *.
      set (B := n * 5404319552844595 / 36028797018963968) in *.
      assert (HA : 9007199254740992 * A <= n * 6305039478318694)
        by (unfold A; apply Z.mul_div_le; lia).
      assert (HB : 36028797018963968 * B <= n * 5404319552844595)
        by (unfold B; apply Z.mul_div_le; lia).
      lia.
  - assert (Hg : 1 <= Z.of_nat (length ids) < 2 ^ 53)
      by (destruct ids; [contradiction | simpl length in *; lia]).
    pose proof (default_capacity _ Hg). unfold floor_alloc. cbn [test]. lia.
Qed.

(** ** adjust_for_target as a function of its arguments *)

(** X9. adjust_for_target(split_key, target_total): when the counts of the
    split add up to no more than the target and the target does not exceed
    the number of items, the call returns with the counts adding up to
    exactly the target; no count of the split is lowered, and the sizes, the
    ideals and the counts of the other split are as before.  When the counts
    already exceed the target the call changes nothing. *)
Theorem adjust_for_target_meets_the_target fuel sk target_total ga :
  NoDup (map fst ga) -> 0 <= total sk ga -> target_total <= total_size ga ->
  (Z.to_nat target_total * length ga <= fuel)%nat ->
  exists ga', adjust_for_target fuel sk target_total ga = Ok ga'
    /\ pointwise (fun _ => raised sk) ga ga'
    /\ total (other sk) ga' = total (other sk) ga
    /\ (total sk ga <= target_total -> total sk ga' = target_total)
    /\ (target_total < total sk ga -> ga' = ga).
Proof.
  intros Hnd Htot Hroom Hfuel.
  destruct (adjust_spec fuel sk target_total ga Hnd Htot Hroom Hfuel)
    as (ga' & Hrun & Hp & Hmeet & Hsame & _).
  exists ga'. split; [exact Hrun |]. split; [exact Hp |]. split; [| split; assumption].
  apply (pointwise_total (fun _ => raised sk)); [| exact Hp].
  intros k v v' [(_ & _ & _ & Hc & _) _]. exact Hc.
Qed.




(** ** The two reconciliation loops *)

Lemma free_cons kv ga : free (kv :: ga) = Z.max 0 (test (snd kv)) + free ga.
Proof. reflexivity. Qed.

Lemma free_nonneg ga : 0 <= free ga.
Proof. induction ga as [| kv ga IH]; [unfold free; simpl; lia | rewrite free_cons; lia]. Qed.

Lemma count_set_count sk c v : count sk (recompute_test (set_count sk c v)) = c.
Proof. destruct sk; reflexivity. Qed.

Lemma reconcile_loop_up sk target_total : forall todo done diff,
  diff = target_total - total sk (done ++ todo) -> 0 <= diff <= free todo ->
  total sk (reconcile_loop sk target_total done todo diff) = target_total.
Proof.
  induction todo as [| [k v] rest IH]; intros done diff Hdiff Hle; simpl.
  - rewrite app_nil_r in Hdiff. unfold free in Hle; simpl in Hle. lia.
  - destruct (diff =? 0) eqn:E0; [apply Z.eqb_eq in E0; lia |].
    apply Z.eqb_neq in E0.
    replace (0 <? diff) with true by (symmetry; apply Z.ltb_lt; lia).
    rewrite free_cons in Hle. cbn [snd] in Hle.
    destruct (Z.min (Z.abs diff) (test v) <=? 0) eqn:Ec.
    + apply Z.leb_le in Ec. apply IH.
      * rewrite <- app_assoc. exact Hdiff.
      * lia.
    + apply Z.leb_gt in Ec. apply IH.
      * rewrite <- app_assoc. reflexivity.
      * rewrite total_app, total_cons in Hdiff |- *. cbn [snd] in Hdiff |- *.
        rewrite count_set_count. pose proof (free_nonneg rest). lia.
Qed.

(** X11. One reconciliation loop (lines 92-106 for train, 108-122 for
    dev), run on strata whose counts are within their sizes: if the counts
    of the split exceed a non-negative target, or fall short of it by no
    more than the items still in the test buckets, the loop ends with the
    counts adding up to exactly the target; sizes and the counts of the
    other split are untouched, and every count stays within its size. *)
Theorem reconcile_loop_reaches_the_target sk target_total ga :
  Forall (fun kv => alloc_ok (snd kv)) ga ->
  0 <= target_total -> target_total - total sk ga <= free ga ->
  let ga' := reconcile_loop sk target_total [] ga (target_total - total sk ga) in
  total sk ga' = target_total
  /\ pointwise (fun _ => frame sk) ga ga'
  /\ Forall (fun kv => alloc_ok (snd kv)) ga'.
Proof.
  intros Hok Htgt Hfree ga'.
  assert (Hp : pointwise (fun _ => frame sk) ga ga')
    by (apply (reconcile_loop_frame sk target_total ga [])).
  split; [| split; [exact Hp |]].
  - destruct (Z_le_gt_dec 0 (target_total - total sk ga)) as [Hup | Hdown].
    + apply reconcile_loop_up; [reflexivity | lia].
    + apply reconcile_loop_down; [reflexivity | lia | assumption | right; constructor |].
      apply ok_counts_nonneg; assumption.
  - eapply pointwise_ok; [| exact Hp | exact Hok].
    intros k v v' Hf. exact (frame_kept _ _ _ Hf).
Qed.

(** ** The three slices of a stratum *)

(** X12. The slices of lines 135-137 for non-negative counts: the three
    chunks are consecutive pieces of the shuffled list and together give it
    back; when train + dev fits the stratum the chunks have exactly tcount,
    dcount and the remaining items; when it does not, train is served first,
    dev gets what is left and test is empty. *)
Theorem slices_cut_the_stratum {A} (l : list A) (tcount dcount : Z) :
  0 <= tcount -> 0 <= dcount ->
  let len := Z.of_nat (length l) in
  let train_chunk := py_slice l None (Some tcount) in
  let dev_chunk := py_slice l (Some tcount) (Some (tcount + dcount)) in
  let test_chunk := py_slice l (Some (tcount + dcount)) None in
  train_chunk ++ dev_chunk ++ test_chunk = l
  /\ Z.of_nat (length train_chunk) = Z.min tcount len
  /\ Z.of_nat (length dev_chunk) = Z.min dcount (len - Z.min tcount len)
  /\ Z.of_nat (length test_chunk) = Z.max 0 (len - tcount - dcount).
Proof.
  intros Ht Hd len train_chunk dev_chunk test_chunk.
  destruct (slices_partition l tcount dcount Ht Hd) as (Hcat & Htr & Hdv).
  fold len train_chunk dev_chunk test_chunk in Hcat, Htr, Hdv.
  split; [exact Hcat |]. split; [exact Htr |]. split; [lia |].
  assert (Hlen : len = Z.of_nat (length (train_chunk ++ dev_chunk ++ test_chunk)))
    by (rewrite Hcat; reflexivity).
  rewrite !length_app, !Nat2Z.inj_add in Hlen. lia.
Qed.

(** ** The ranked walk serves the largest remainders first *)

Lemma ltb_false_trans a b c :
  F64.ltb a b = false -> F64.ltb b c = false -> F64.ltb a c = false.
Proof.
  unfold F64.ltb. rewrite !Z.ltb_ge. intros H1 H2.
  pose proof (F64Facts.pow_fexp_pos a) as Pa. pose proof (F64Facts.pow_fexp_pos b) as Pb.
  pose proof (F64Facts.pow_fexp_pos c) as Pc.
  set (pa := 2 ^ Z.of_N (F64.fexp a)) in *. set (pb := 2 ^ Z.of_N (F64.fexp b)) in *.
  set (pc := 2 ^ Z.of_N (F64.fexp c)) in *.
  apply (Z.mul_le_mono_pos_r _ _ pb Pb).
  assert (E1 : F64.fnum c * pa * pb = F64.fnum c * pb * pa) by lia.
  assert (E2 : F64.fnum a * pc * pb = F64.fnum a * pb * pc) by lia.
  rewrite E1, E2.
  apply Z.le_trans with (F64.fnum b * pc * pa).
  - apply Z.mul_le_mono_nonneg_r; lia.
  - replace (F64.fnum b * pc * pa) with (F64.fnum b * pa * pc) by lia.
    apply Z.mul_le_mono_nonneg_r; lia.
Qed.

Lemma ltb_asym a b : F64.ltb a b = true -> F64.ltb b a = false.
Proof. unfold F64.ltb. rewrite Z.ltb_lt, Z.ltb_ge. lia. Qed.

Lemma insert_frac_sorted x l :
  StronglySorted frac_ge l -> StronglySorted frac_ge (insert_frac x l).
Proof.
  induction 1 as [| y r Hr IH Hy]; simpl.
  - constructor; constructor.
  - destruct (F64.ltb (fst (fst x)) (fst (fst y))) eqn:E.
    + constructor; [exact IH |].
      eapply Permutation_Forall; [apply insert_frac_perm |].
      constructor; [| exact Hy]. apply ltb_asym. exact E.
    + constructor; [constructor; assumption |].
      constructor; [exact E |].
      eapply Forall_impl; [| exact Hy]. intros z Hz.
      unfold frac_ge in *. eapply ltb_false_trans; eassumption.
Qed.

Lemma sort_fracs_sorted l : StronglySorted frac_ge (sort_fracs l).
Proof.
  induction l as [| x l IH]; simpl; [constructor | apply insert_frac_sorted; exact IH].
Qed.

(* In a ranked list an entry stands before every entry of strictly smaller
   remainder. *)
Lemma sorted_before l e1 e2 :
  StronglySorted frac_ge l -> In e1 l -> In e2 l ->
  F64.ltb (fst (fst e2)) (fst (fst e1)) = true ->
  precedes l e1 e2.
Proof.
  intros Hs H1 H2 Hlt.
  destruct (in_split e1 l H1) as (l1 & l2 & ->).
  exists l1, l2. split; [reflexivity |].
  apply in_app_or in H2 as [Hin | [<- | Hin]]; [exfalso | exfalso | exact Hin].
  - clear H1. induction l1 as [| a l1 IH]; [contradiction |].
    simpl in Hs. inversion Hs as [| ? ? Hs' Ha]; subst.
    destruct Hin as [-> | Hin]; [| exact (IH Hin Hs')].
    rewrite Forall_forall in Ha. specialize (Ha e1 ltac:(apply in_or_app; right; left; reflexivity)).
    unfold frac_ge in Ha. congruence.
  - unfold F64.ltb in Hlt. apply Z.ltb_lt in Hlt. lia.
Qed.

(* The sort is stable: an entry stays before the later entries that are not
   above it. *)
Lemma insert_frac_first x s y :
  In y s -> frac_ge x y -> precedes (insert_frac x s) x y.
Proof.
  unfold frac_ge. induction s as [| z r IH]; intros Hin Hge; [contradiction |]. simpl.
  destruct (F64.ltb (fst (fst x)) (fst (fst z))) eqn:E.
  - destruct Hin as [-> | Hin]; [congruence |].
    destruct (IH Hin Hge) as (s1 & s2 & Heq & Hy).
    exists (z :: s1), s2. split; [simpl; rewrite Heq; reflexivity | exact Hy].
  - exists [], (z :: r). split; [reflexivity | exact Hin].
Qed.

Lemma insert_frac_keeps a s x y : precedes s x y -> precedes (insert_frac a s) x y.
Proof.
  intros (s1 & s2 & -> & Hy). induction s1 as [| z r IH]; simpl.
  - destruct (F64.ltb (fst (fst a)) (fst (fst x))).
    + exists [], (insert_frac a s2). split; [reflexivity |].
      apply (Permutation_in _ (insert_frac_perm a s2)). right. exact Hy.
    + exists [a], s2. split; [reflexivity | exact Hy].
  - destruct (F64.ltb (fst (fst a)) (fst (fst z))).
    + destruct IH as (t1 & t2 & Heq & Ht). exists (z :: t1), t2.
      split; [simpl; rewrite Heq; reflexivity | exact Ht].
    + exists (a :: z :: r), s2. split; [reflexivity | exact Hy].
Qed.

Lemma sort_fracs_stable l x y :
  precedes l x y -> frac_ge x y -> precedes (sort_fracs l) x y.
Proof.
  intros (l1 & l2 & -> & Hy) Hge. induction l1 as [| a l1 IH]; simpl.
  - apply insert_frac_first; [| exact Hge].
    apply (Permutation_in _ (sort_fracs_perm l2)). exact Hy.
  - apply insert_frac_keeps. exact IH.
Qed.

Lemma precedes_map {A B} (f : A -> B) l x y : precedes l x y -> precedes (map f l) (f x) (f y).
Proof.
  intros (l1 & l2 & -> & Hy). exists (map f l1), (map f l2).
  split; [rewrite map_app; reflexivity | apply in_map; exact Hy].
Qed.

Lemma granted_fkeys fracs : forall d k, In k (granted fracs d) -> In k (fkeys fracs).
Proof.
  induction fracs as [| [[f k0] cap] rest IH]; intros d k; simpl; [tauto |].
  destruct (0 <? d); [| intros []].
  destruct (0 <? cap); [intros [-> | Hin]; [left; reflexivity | right; eauto] | right; eauto].
Qed.

Lemma granted_earlier l1 f1 k1 c1 l2 k2 : forall d,
  NoDup (fkeys (l1 ++ (f1, k1, c1) :: l2)) -> 0 < c1 -> In k2 (fkeys l2) ->
  In k2 (granted (l1 ++ (f1, k1, c1) :: l2) d) ->
  In k1 (granted (l1 ++ (f1, k1, c1) :: l2) d).
Proof.
  induction l1 as [| [[f k0] cap] l1 IH]; intros d Hnd Hc1 Hk2; simpl.
  - destruct (0 <? d); [| intros []].
    replace (0 <? c1) with true by (symmetry; apply Z.ltb_lt; assumption).
    intros _. left; reflexivity.
  - simpl in Hnd. inversion Hnd as [| ? ? Hni Hnd']; subst.
    destruct (0 <? d); [| intros []].
    assert (Hne : k0 <> k2).
    { intros ->. apply Hni. unfold fkeys in *. rewrite map_app, in_app_iff. right. right. exact Hk2. }
    destruct (0 <? cap).
    + intros [Heq | Hin]; [contradiction |]. right. eapply IH; eassumption.
    + intros Hin. eapply IH; eassumption.
Qed.

Lemma walk_granted sk fracs : forall d ga,
  NoDup (map fst ga) -> NoDup (fkeys fracs) ->
  forall k v, In (k, v) ga ->
    (In k (granted fracs d) -> In (k, bump sk v) (fst (walk sk fracs d ga)))
    /\ (~ In k (granted fracs d) -> In (k, v) (fst (walk sk fracs d ga))).
Proof.
  induction fracs as [| [[f k0] cap] rest IH]; intros d ga Hnd Hfk k v Hin; simpl.
  - split; [intros [] | intros _; exact Hin].
  - inversion Hfk as [| ? ? Hk0 Hfk']; subst.
    destruct (0 <? d); [| split; [intros [] | intros _; exact Hin]].
    destruct (0 <? cap); [| apply IH; assumption].
    set (ga1 := dict_update key_eqb k0 (bump sk) ga).
    assert (Hnd1 : NoDup (map fst ga1)) by (unfold ga1; rewrite dict_update_keys; assumption).
    destruct (key_eqb k0 k) eqn:E.
    + apply key_eqb_eq in E; subst k0.
      assert (Hin1 : In (k, bump sk v) ga1).
      { unfold ga1, dict_update. apply in_map_iff. exists (k, v). simpl.
        rewrite key_eqb_refl. auto. }
      assert (Hng : ~ In k (granted rest (d - 1)))
        by (intros Hg; apply Hk0; eapply granted_fkeys; exact Hg).
      split; [intros _ | intros Hn; exfalso; apply Hn; left; reflexivity].
      apply (IH (d - 1) ga1 Hnd1 Hfk' k (bump sk v) Hin1). exact Hng.
    + assert (Hne : k <> k0) by (intros ->; rewrite key_eqb_refl in E; discriminate).
      assert (Hin1 : In (k, v) ga1) by (apply In_update_other; assumption).
      destruct (IH (d - 1) ga1 Hnd1 Hfk' k v Hin1) as [Hy Hn].
      split.
      * intros [Heq | Hg]; [congruence | exact (Hy Hg)].
      * intros Hng. apply Hn. intros Hg. apply Hng. right; exact Hg.
Qed.

(** X13. The ranked walk of adjust_for_target hands out the missing units
    by largest remainder: when the deficit is no larger than the number of
    strata with spare capacity, the call returns after the walk, and a
    stratum that received a unit is never ranked below a stratum with spare
    capacity that was left out, where a stratum ranks before another if its
    remainder ideal - count is strictly larger, or is not smaller and the
    stratum comes first in group_alloc. *)
Theorem largest_remainders_are_served_first fuel sk target_total ga :
  NoDup (map fst ga) ->
  0 <= target_total - total sk ga <= spare ga ->
  exists ga', adjust_for_target fuel sk target_total ga = Ok ga'
    /\ forall k1 v1 k2 v2 v2',
         In (k1, v1) ga -> In (k2, v2) ga -> In (k2, v2') ga' ->
         0 < capacity v1 ->
         outranks sk ga (k1, v1) (k2, v2) ->
         count sk v2' = count sk v2 + 1 ->
         In (k1, bump sk v1) ga'.
Proof.
  intros Hnd Hd. unfold adjust_for_target.
  set (deficit := target_total - total sk ga) in *.
  destruct (deficit =? 0) eqn:E0.
  { exists ga. split; [reflexivity |].
    intros k1 v1 k2 v2 v2' _ H2 H2' _ _ Hc.
    rewrite (In_unique k2 v2 v2' ga Hnd H2 H2') in Hc. lia. }
  apply Z.eqb_neq in E0.
  set (fracs := sort_fracs (map (frac_of sk) ga)).
  assert (Hfk : NoDup (fkeys fracs)).
  { eapply Permutation_NoDup; [apply fkeys_sorted | exact Hnd]. }
  destruct (walk_spec sk fracs deficit ga Hnd Hfk (caps_agree_sorted sk ga) ltac:(lia))
    as (Hp & _ & Hleft).
  pose proof (walk_granted sk fracs deficit ga Hnd Hfk) as Hgr.
  destruct (walk sk fracs deficit ga) as [ga1 d1] eqn:Ew. cbn [fst snd] in Hp, Hleft, Hgr.
  unfold fracs in Hleft. rewrite npos_sorted in Hleft.
  replace (0 <? d1) with false by (symmetry; apply Z.ltb_ge; lia).
  exists ga1. split; [reflexivity |].
  intros k1 v1 k2 v2 v2' H1 H2 H2' Hcap Hrank Hc.
  assert (Hnd1 : NoDup (map fst ga1)) by (rewrite (pointwise_keys _ _ _ Hp); exact Hnd).
  destruct (Hgr k2 v2 H2) as [_ Hn2]. destruct (Hgr k1 v1 H1) as [Hy1 _].
  apply Hy1.
  assert (Hg2 : In k2 (granted fracs deficit)).
  { destruct (in_dec (fun a b : key =>
                        match bool_dec (key_eqb a b) true with
                        | left e => left (proj1 (key_eqb_eq a b) e)
                        | right ne => right (fun e => ne (proj2 (key_eqb_eq a b) e))
                        end) k2 (granted fracs deficit)) as [Hy | Hn]; [exact Hy | exfalso].
    rewrite (In_unique k2 v2' v2 ga1 Hnd1 H2' (Hn2 Hn)) in Hc. lia. }
  set (e1 := frac_of sk (k1, v1)). set (e2 := frac_of sk (k2, v2)).
  assert (He1 : In e1 fracs).
  { apply (Permutation_in _ (sort_fracs_perm _)). apply in_map; assumption. }
  assert (He2 : In e2 fracs).
  { apply (Permutation_in _ (sort_fracs_perm _)). apply in_map; assumption. }
  assert (Hbefore : precedes fracs e1 e2).
  { destruct Hrank as [Hlt | [Hge Hpre]].
    - exact (sorted_before fracs e1 e2 (sort_fracs_sorted _) He1 He2 Hlt).
    - apply sort_fracs_stable; [| exact Hge].
      exact (precedes_map (frac_of sk) ga _ _ Hpre). }
  destruct Hbefore as (l1 & l2 & Hl & Hin2).
  unfold e1, frac_of in Hl. cbn [fst snd] in Hl.
  clearbody fracs. subst fracs.
  apply granted_earlier with (k2 := k2); [exact Hfk | exact Hcap | | exact Hg2].
  unfold fkeys. apply in_map_iff. exists e2. split; [reflexivity | exact Hin2].
Qed.

(** ** Every stratum is cut by its own allocation *)

Lemma NoDup_app_l {A} (l1 l2 : list A) : NoDup (l1 ++ l2) -> NoDup l1.
Proof.
  induction l1 as [| a l1 IH]; simpl; intros H; [constructor |].
  inversion H as [| ? ? Hni Hnd]; subst. constructor; [| exact (IH Hnd)].
  intros Hin. apply Hni. apply in_or_app. left; assumption.
Qed.

Lemma filter_mem_app_l (ids c rest : list Z) :
  (forall i, In i ids -> ~ In i rest) ->
  filter (fun i => mem i (c ++ rest)) ids = filter (fun i => mem i c) ids.
Proof.
  intros Hdis. apply filter_ext_in. intros i Hin.
  unfold mem. rewrite existsb_app.
  replace (existsb (Z.eqb i) rest) with false; [apply orb_false_r |].
  symmetry. apply (proj2 (mem_false i rest)). apply Hdis; assumption.
Qed.

Lemma filter_mem_app_r (ids c rest : list Z) :
  (forall i, In i ids -> ~ In i c) ->
  filter (fun i => mem i (c ++ rest)) ids = filter (fun i => mem i rest) ids.
Proof.
  intros Hdis. apply filter_ext_in. intros i Hin.
  unfold mem. rewrite existsb_app.
  replace (existsb (Z.eqb i) c) with false; [reflexivity |].
  symmetry. apply (proj2 (mem_false i c)). apply Hdis; assumption.
Qed.

Lemma In_group_concat (gs : groups_t) k ids i :
  In (k, ids) gs -> In i ids -> In i (concat (map snd gs)).
Proof.
  intros Hin Hi. apply in_concat. exists ids. split; [| exact Hi].
  change ids with (snd (k, ids)). apply in_map. exact Hin.
Qed.

Section Strata.
Context `{PRNG}.

Lemma assign_ids_strata : forall gs ga s a1 a2 a3,
  allocs_cover gs ga -> NoDup (concat (map snd gs)) ->
  exists tr dv te,
    assign_ids gs ga s (a1, a2, a3) = Ok (a1 ++ tr, a2 ++ dv, a3 ++ te)
    /\ Permutation (tr ++ dv ++ te) (concat (map snd gs))
    /\ forall k ids a, In (k, ids) gs -> dict_get key_eqb k ga = Some a ->
         Z.of_nat (length (filter (fun i => mem i tr) ids)) = train a
         /\ Z.of_nat (length (filter (fun i => mem i dv) ids)) = dev_cut a
         /\ Z.of_nat (length (filter (fun i => mem i te) ids))
            = size a - train a - dev_cut a.
Proof.
  induction gs as [| [k ids] gs IH]; intros ga s a1 a2 a3 Hcov Hnd.
  - exists [], [], []. simpl. rewrite !app_nil_r. split; [reflexivity |].
    split; [reflexivity |]. intros k ids a [].
  - destruct (Hcov k ids (or_introl eq_refl)) as (a & Hget & Hsize & Ht & Hd & Hte).
    destruct (shuffle_ok ids s) as (x & s' & Hsh & Hperm).
    destruct (slices_partition x (train a) (dev a) ltac:(lia) ltac:(lia))
      as (Hcut & Hl1 & Hl2).
    cbn [assign_ids]. rewrite Hsh. cbn [bind]. rewrite Hget.
    set (c1 := py_slice x None (Some (train a))) in *.
    set (c2 := py_slice x (Some (train a)) (Some (train a + dev a))) in *.
    set (c3 := py_slice x (Some (train a + dev a)) None) in *.
    simpl in Hnd.
    assert (Hnd_ids : NoDup ids) by (exact (NoDup_app_l _ _ Hnd)).
    assert (Hnd_rest : NoDup (concat (map snd gs))) by (exact (NoDup_app_remove_l _ _ Hnd)).
    destruct (IH ga s' (a1 ++ c1) (a2 ++ c2) (a3 ++ c3)
                (fun k' ids' Hin => Hcov k' ids' (or_intror Hin)) Hnd_rest)
      as (tr & dv & te & Hrun & Hp & Hstrata).
    exists (c1 ++ tr), (c2 ++ dv), (c3 ++ te).
    split; [rewrite Hrun, <- !app_assoc; reflexivity |].
    split; [rewrite perm_interleave3; simpl; rewrite Hcut, Hp, Hperm; reflexivity |].
    assert (Hlen : Z.of_nat (length x) = size a)
      by (rewrite <- (Permutation_length Hperm); lia).
    assert (Hndx : NoDup (c1 ++ c2 ++ c3))
      by (rewrite Hcut; exact (Permutation_NoDup Hperm Hnd_ids)).
    assert (Hinx : forall i, In i (c1 ++ c2 ++ c3) -> In i ids)
      by (intros i Hi; rewrite Hcut in Hi;
          exact (Permutation_in _ (Permutation_sym Hperm) Hi)).
    assert (Hrest : forall i, In i (tr ++ dv ++ te) -> In i (concat (map snd gs)))
      by (intros i Hi; exact (Permutation_in _ Hp Hi)).
    assert (Hdis : forall i, In i ids -> ~ In i (tr ++ dv ++ te))
      by (intros i Hi Hi'; exact (NoDup_app_disjoint _ _ i Hnd Hi (Hrest i Hi'))).
    assert (Hlen3 : Z.of_nat (length c3) = size a - Z.of_nat (length c1) - Z.of_nat (length c2)).
    { rewrite <- Hlen, <- Hcut, !length_app. lia. }
    intros k' ids' a' [Heq | Hin] Hget'.
    + injection Heq as <- <-. assert (a' = a) by congruence. subst a'.
      rewrite !filter_mem_app_l
        by (intros i Hi Hi'; apply (Hdis i Hi); rewrite !in_app_iff; auto).
      rewrite !filter_mem_length; try assumption.
      * unfold dev_cut. lia.
      * exact (NoDup_app_remove_l _ _ (NoDup_app_remove_l _ _ Hndx)).
      * intros i Hi. apply Hinx. rewrite !in_app_iff; auto.
      * exact (NoDup_app_l _ _ (NoDup_app_remove_l _ _ Hndx)).
      * intros i Hi. apply Hinx. rewrite !in_app_iff; auto.
      * exact (NoDup_app_l _ _ Hndx).
      * intros i Hi. apply Hinx. rewrite !in_app_iff; auto.
    + rewrite !filter_mem_app_r.
      * exact (Hstrata k' ids' a' Hin Hget').
      * intros i Hi Hi'. apply (NoDup_app_disjoint _ _ i Hnd); [apply Hinx; rewrite !in_app_iff; auto |].
        exact (In_group_concat gs k' ids' i Hin Hi).
      * intros i Hi Hi'. apply (NoDup_app_disjoint _ _ i Hnd); [apply Hinx; rewrite !in_app_iff; auto |].
        exact (In_group_concat gs k' ids' i Hin Hi).
      * intros i Hi Hi'. apply (NoDup_app_disjoint _ _ i Hnd); [apply Hinx; rewrite !in_app_iff; auto |].
        exact (In_group_concat gs k' ids' i Hin Hi).
Qed.


Lemma filter_comm {A} (p q : A -> bool) l : filter p (filter q l) = filter q (filter p l).
Proof.
  induction l as [| a l IH]; simpl; [reflexivity |].
  destruct (p a) eqn:Ep, (q a) eqn:Eq; simpl; rewrite ?Ep, ?Eq, IH; reflexivity.
Qed.

Lemma stratum_pick k chosen items :
  length (stratum k (pick chosen items))
  = length (filter (fun i => mem i chosen) (ids_with_key k items)).
Proof.
  unfold stratum, pick, ids_with_key. rewrite filter_comm.
  apply (filter_map_length id_of (fun i => mem i chosen)).
Qed.

Lemma stratum_length k items :
  length (stratum k items) = length (ids_with_key k items).
Proof. unfold stratum, ids_with_key. rewrite length_map. reflexivity. Qed.

(* What a run on a well-formed pool returns, stratum by stratum. *)
Lemma main_strata fuel cfg items :
  let n := Z.of_nat (length items) in
  Forall complete items -> NoDup (map id_of items) ->
  valid_fractions cfg -> n < 2 ^ 53 ->
  (length items * length items <= fuel)%nat ->
  exists g ga tr dv te,
    build_groups items [] = Ok g
    /\ allocate fuel cfg n g = Ok ga
    /\ main fuel cfg items = Ok (outputs_of cfg items (tr, dv, te))
    /\ map fst ga = first_seen (map key_of items)
    /\ Z.of_nat (length (pick tr items)) = target n (TRAIN_FRAC cfg)
    /\ Z.of_nat (length (pick dv items)) = zsum (map (fun kv => dev_cut (snd kv)) ga)
    /\ Permutation (pick tr items ++ pick dv items ++ pick te items) items
    /\ forall k a, In (k, a) ga ->
         size a = Z.of_nat (length (stratum k items))
         /\ Z.of_nat (length (stratum k (pick tr items))) = train a
         /\ Z.of_nat (length (stratum k (pick dv items))) = dev_cut a
         /\ Z.of_nat (length (stratum k (pick te items))) = size a - train a - dev_cut a.
Proof.
  intros n Hc Hids Hv Hn Hfuel.
  destruct (main_run fuel cfg items Hc Hv Hn Hfuel)
    as (g & ga & tr & dv & te & Hg & Hrun & Hasg & Hpi & Hlt & Hld & _ & Hok & Hmain & _).
  fold n in Hrun, Hlt.
  pose proof (build_groups_closed items Hc) as Hclosed. rewrite Hg in Hclosed.
  injection Hclosed as Hclosed.
  destruct (build_groups_ok items [] Hc ltac:(constructor) ltac:(constructor))
    as (g' & Hg' & Hnd & Hne & Hperm).
  rewrite Hg in Hg'. injection Hg' as <-. simpl in Hperm.
  assert (Hlen : length (concat (map snd g)) = length items)
    by (rewrite (Permutation_length Hperm); apply length_map).
  destruct (allocate_spec fuel cfg g Hnd Hne Hv ltac:(rewrite Hlen; exact Hn)
              ltac:(rewrite Hlen; exact Hfuel))
    as (ga' & Hrun' & Hsh & _).
  rewrite Hlen in Hrun'. fold n in Hrun'. rewrite Hrun in Hrun'. injection Hrun' as <-.
  pose proof (shape_sizes_keys ga g Hsh) as Hk.
  assert (Hndg : NoDup (map fst ga)) by (rewrite Hk; assumption).
  pose proof (shape_cover g (sort_groups g) ga Hsh Hndg Hok (sort_groups_perm g)) as Hcov.
  assert (Hpc : Permutation (concat (map snd (sort_groups g))) (map id_of items))
    by (rewrite <- (sort_groups_perm g); exact Hperm).
  assert (Hndc : NoDup (concat (map snd (sort_groups g))))
    by (exact (Permutation_NoDup (Permutation_sym Hpc) Hids)).
  destruct (assign_ids_strata (sort_groups g) ga (Random (SEED cfg)) [] [] [] Hcov Hndc)
    as (tr' & dv' & te' & Hasg' & _ & Hstrata).
  simpl in Hasg'. rewrite Hasg in Hasg'. injection Hasg' as <- <- <-.
  assert (Hnd3 : NoDup (tr ++ dv ++ te))
    by (exact (Permutation_NoDup (Permutation_sym Hpi) Hids)).
  assert (Hincl : forall i, In i (tr ++ dv ++ te) -> In i (map id_of items))
    by (intros i Hi; exact (Permutation_in _ Hpi Hi)).
  exists g, ga, tr, dv, te.
  split; [exact Hg |]. split; [exact Hrun |]. split; [exact (Hmain Hids) |].
  split; [rewrite Hk, Hclosed, map_map; apply map_id |].
  split.
  { rewrite pick_length; [exact Hlt | exact Hids | exact (NoDup_app_l _ _ Hnd3) |].
    intros i Hi. apply Hincl. rewrite !in_app_iff; auto. }
  split.
  { rewrite pick_length; [exact Hld | exact Hids
                         | exact (NoDup_app_l _ _ (NoDup_app_remove_l _ _ Hnd3)) |].
    intros i Hi. apply Hincl. rewrite !in_app_iff; auto. }
  split; [exact (pick_partition items tr dv te Hpi Hids) |].
  intros k a Hin.
  assert (Hkin : In k (first_seen (map key_of items))).
  { assert (Hkg : In k (map fst g))
      by (rewrite <- Hk; change k with (fst (k, a)); apply in_map; exact Hin).
    rewrite Hclosed, map_map, map_id in Hkg. exact Hkg. }
  assert (Hgin : In (k, ids_with_key k items) (sort_groups g)).
  { apply (Permutation_in _ (sort_groups_perm g)). rewrite Hclosed.
    apply in_map_iff. exists k. split; [reflexivity | exact Hkin]. }
  pose proof (In_dict_get k ga a Hndg Hin) as Hget.
  destruct (Hstrata k _ a Hgin Hget) as (S1 & S2 & S3).
  destruct (Hcov k _ Hgin) as (a' & Hget' & Hsz & _).
  assert (a' = a) by congruence. subst a'.
  rewrite !stratum_pick, stratum_length. auto.
Qed.

(** X14. Stratification of the output: on a well-formed pool every
    stratum (difficulty_level, table) of the pool has an entry in
    group_alloc with its number of items as size, and the train list holds
    exactly train of those items, the dev list min(dev, size - train) of
    them and the test list the rest. *)
Theorem each_stratum_is_cut_by_its_allocation fuel cfg items :
  let n := Z.of_nat (length items) in
  Forall complete items -> NoDup (map id_of items) ->
  valid_fractions cfg -> n < 2 ^ 53 ->
  (length items * length items <= fuel)%nat ->
  exists g ga out,
    build_groups items [] = Ok g
    /\ allocate fuel cfg n g = Ok ga
    /\ main fuel cfg items = Ok out
    /\ map fst ga = first_seen (map key_of items)
    /\ forall k a, In (k, a) ga ->
         size a = Z.of_nat (length (stratum k items))
         /\ Z.of_nat (length (stratum k (train_list out))) = train a
         /\ Z.of_nat (length (stratum k (dev_list out))) = dev_cut a
         /\ Z.of_nat (length (stratum k (test_list out))) = size a - train a - dev_cut a.
Proof.
  intros n Hc Hids Hv Hn Hfuel.
  destruct (main_strata fuel cfg items Hc Hids Hv Hn Hfuel)
    as (g & ga & tr & dv & te & Hg & Hrun & Hmain & Hk & _ & _ & _ & Hs).
  exists g, ga, (outputs_of cfg items (tr, dv, te)).
  split; [exact Hg |]. split; [exact Hrun |]. split; [exact Hmain |].
  split; [exact Hk | exact Hs].
Qed.

End Strata.

Lemma stratum_absent k chosen items :
  ~ In k (map key_of items) -> stratum k (pick chosen items) = [].
Proof.
  intros Hni. unfold stratum, pick. rewrite filter_comm.
  replace (filter (fun it => key_eqb (key_of it) k) items) with (@nil item); [reflexivity |].
  symmetry. induction items as [| it items IH]; simpl; [reflexivity |].
  destruct (key_eqb (key_of it) k) eqn:E.
  - exfalso. apply Hni. left. apply key_eqb_eq. exact E.
  - apply IH. intros Hin. apply Hni. right. exact Hin.
Qed.

(** X15. The seed and the generator decide which items of a stratum go
    where, never how many: two runs on the same well-formed pool with the
    same fractions, under any two seeds and any two generators, write the
    same verification totals and put the same number of items of every
    stratum into train, dev and test. *)
Theorem counts_do_not_depend_on_the_seed (P1 P2 : PRNG) fuel cfg s1 s2 items :
  Forall complete items -> NoDup (map id_of items) ->
  valid_fractions cfg -> Z.of_nat (length items) < 2 ^ 53 ->
  (length items * length items <= fuel)%nat ->
  exists o1 o2,
    @main P1 fuel (with_seed cfg s1) items = Ok o1
    /\ @main P2 fuel (with_seed cfg s2) items = Ok o2
    /\ ver_report o1 = ver_report o2
    /\ forall k,
         length (stratum k (train_list o1)) = length (stratum k (train_list o2))
         /\ length (stratum k (dev_list o1)) = length (stratum k (dev_list o2))
         /\ length (stratum k (test_list o1)) = length (stratum k (test_list o2)).
Proof.
  intros Hc Hids Hv Hn Hfuel.
  destruct (@main_strata P1 fuel (with_seed cfg s1) items Hc Hids Hv Hn Hfuel)
    as (g1 & ga1 & tr1 & dv1 & te1 & Hg1 & Hrun1 & Hmain1 & Hk1 & Lt1 & Ld1 & Pp1 & Hs1).
  destruct (@main_strata P2 fuel (with_seed cfg s2) items Hc Hids Hv Hn Hfuel)
    as (g2 & ga2 & tr2 & dv2 & te2 & Hg2 & Hrun2 & Hmain2 & Hk2 & Lt2 & Ld2 & Pp2 & Hs2).
  rewrite Hg1 in Hg2. injection Hg2 as <-.
  change (allocate fuel (with_seed cfg s2) (Z.of_nat (length items)) g1)
    with (allocate fuel (with_seed cfg s1) (Z.of_nat (length items)) g1) in Hrun2.
  rewrite Hrun1 in Hrun2. injection Hrun2 as <-.
  eexists. eexists. split; [exact Hmain1 |]. split; [exact Hmain2 |].
  cbn [outputs_of ver_report train_list dev_list test_list with_seed TRAIN_FRAC DEV_FRAC] in *.
  split.
  - apply Permutation_length in Pp1, Pp2. rewrite !length_app in Pp1, Pp2.
    assert (E1 : Z.of_nat (length (pick tr1 items)) = Z.of_nat (length (pick tr2 items))) by lia.
    assert (E2 : Z.of_nat (length (pick dv1 items)) = Z.of_nat (length (pick dv2 items))) by lia.
    assert (E3 : Z.of_nat (length (pick te1 items)) = Z.of_nat (length (pick te2 items))) by lia.
    rewrite E1, E2, E3. reflexivity.
  - intros k.
    destruct (in_dec (fun a b : key =>
                        match bool_dec (key_eqb a b) true with
                        | left e => left (proj1 (key_eqb_eq a b) e)
                        | right ne => right (fun e => ne (proj2 (key_eqb_eq a b) e))
                        end) k (map fst ga1)) as [Hin | Hni].
    + apply in_map_iff in Hin as ([k' a] & Heq & Hin). simpl in Heq. subst k'.
      destruct (Hs1 k a Hin) as (_ & A1 & A2 & A3).
      destruct (Hs2 k a Hin) as (_ & B1 & B2 & B3). lia.
    + rewrite Hk1, In_first_seen in Hni.
      rewrite !(stratum_absent k _ items Hni). auto.
Qed.

(** ** The counters of the verification report *)

Lemma counter_get_add x y c :
  counter_get x (counter_add y c)
  = counter_get x c + (if String.eqb y x then 1 else 0).
Proof.
  unfold counter_get. induction c as [| [y0 n] c IH]; simpl.
  - destruct (String.eqb y x); reflexivity.
  - destruct (String.eqb y0 y) eqn:E0; simpl.
    + apply String.eqb_eq in E0; subst y0.
      destruct (String.eqb y x); lia.
    + destruct (String.eqb y0 x) eqn:E1; [| exact IH].
      apply String.eqb_eq in E1; subst y0. rewrite (String.eqb_sym y x), E0. lia.
Qed.

Lemma counter_add_sum y c : zsum (map snd (counter_add y c)) = zsum (map snd c) + 1.
Proof.
  induction c as [| [y0 n] c IH]; simpl; [reflexivity |].
  destruct (String.eqb y0 y); simpl; lia.
Qed.

Lemma counter_add_keys y c :
  map fst (counter_add y c)
  = if existsb (String.eqb y) (map fst c) then map fst c else map fst c ++ [y].
Proof.
  induction c as [| [y0 n] c IH]; simpl; [reflexivity |].
  rewrite (String.eqb_sym y y0).
  destruct (String.eqb y0 y); simpl; [reflexivity |].
  rewrite IH. destruct (existsb _ _); reflexivity.
Qed.

Lemma counter_add_ok y c : counter_ok c -> counter_ok (counter_add y c).
Proof.
  intros [Hnd Hpos]. split.
  - rewrite counter_add_keys. destruct (existsb _ _) eqn:E; [assumption |].
    apply NoDup_app; [assumption | repeat constructor; intros [] |].
    intros k Hin [<- | []].
    assert (existsb (String.eqb y) (map fst c) = true); [| congruence].
    apply existsb_exists. exists y. split; [assumption | apply String.eqb_refl].
  - clear Hnd. induction Hpos as [| [y0 n] c Hn Htl IH]; simpl.
    + repeat constructor. simpl. lia.
    + destruct (String.eqb y0 y); constructor; simpl in *; try assumption; lia.
Qed.

Lemma Counter_spec labels : forall c0,
  counter_ok c0 ->
  let c := fold_left (fun c x => counter_add x c) labels c0 in
  counter_ok c
  /\ zsum (map snd c) = zsum (map snd c0) + Z.of_nat (length labels)
  /\ forall x, counter_get x c
               = counter_get x c0
                 + Z.of_nat (length (filter (fun y => String.eqb y x) labels)).
Proof.
  induction labels as [| y labels IH]; intros c0 Hok; simpl.
  - split; [assumption |]. split; [lia |]. intros; lia.
  - destruct (IH (counter_add y c0) (counter_add_ok y c0 Hok)) as (H1 & H2 & H3).
    split; [exact H1 |]. split.
    + rewrite H2, counter_add_sum. lia.
    + intros x. rewrite H3, counter_get_add.
      destruct (String.eqb y x); simpl length; lia.
Qed.

Lemma mapM_labels (name : string) (get : item -> option string) (f : item -> string) lst :
  Forall (fun it => get it = Some (f it)) lst ->
  mapM (fun it => field name (get it)) lst = Ok (map f lst).
Proof.
  induction 1 as [| it l Hit _ IH]; simpl; [reflexivity |].
  rewrite Hit. simpl. rewrite IH. reflexivity.
Qed.

Lemma breakdown_complete lst :
  Forall complete lst ->
  breakdown lst = Ok (Counter (map difficulty_of lst), Counter (map table_of lst)).
Proof.
  intros Hc. unfold breakdown.
  rewrite (mapM_labels "difficulty_level" difficulty_level difficulty_of).
  - cbn [bind]. rewrite (mapM_labels "table" table table_of); [reflexivity |].
    eapply Forall_impl; [| exact Hc]. intros it Hit. apply (complete_fields it Hit).
  - eapply Forall_impl; [| exact Hc]. intros it Hit. apply (complete_fields it Hit).
Qed.

Lemma Counter_labelled (f : item -> string) l :
  counter_ok (Counter (map f l))
  /\ zsum (map snd (Counter (map f l))) = Z.of_nat (length l)
  /\ forall x, counter_get x (Counter (map f l)) = labelled f x l.
Proof.
  destruct (Counter_spec (map f l) [] (conj (NoDup_nil _) (Forall_nil _))) as (H1 & H2 & H3).
  unfold Counter. split; [exact H1 |]. split; [rewrite H2, length_map; simpl; lia |].
  intros x. rewrite H3. unfold labelled, counter_get. simpl.
  rewrite <- (filter_map_length f (fun y => String.eqb y x) l). reflexivity.
Qed.

Lemma labelled_perm f x l l' : Permutation l l' -> labelled f x l = labelled f x l'.
Proof.
  intros Hp. unfold labelled. f_equal. apply Permutation_length.
  induction Hp; simpl.
  - reflexivity.
  - destruct (String.eqb (f x0) x); [apply perm_skip |]; assumption.
  - destruct (String.eqb (f x0) x), (String.eqb (f y) x); try reflexivity; try apply perm_swap.
  - etransitivity; eassumption.
Qed.

Lemma labelled_app f x l1 l2 : labelled f x (l1 ++ l2) = labelled f x l1 + labelled f x l2.
Proof. unfold labelled. rewrite filter_app, length_app. lia. Qed.

Lemma pick_complete chosen items : Forall complete items -> Forall complete (pick chosen items).
Proof.
  intros Hc. apply Forall_forall. intros it Hin. unfold pick in Hin.
  apply filter_In in Hin as [Hin _]. rewrite Forall_forall in Hc. auto.
Qed.

Section Report.
Context `{PRNG}.

(** X16. The per-label counters of the verification report are
    consistent with the pool: on a well-formed pool breakdown never fails,
    every counter lists distinct labels with counts of at least 1, the
    counts of a counter add up to the length of its list, and for every
    difficulty level and every table the counts recorded for train, dev and
    test add up to the number of pool items carrying that label. *)
Theorem report_counters_add_up_to_the_pool fuel cfg items :
  let n := Z.of_nat (length items) in
  Forall complete items -> NoDup (map id_of items) ->
  valid_fractions cfg -> n < 2 ^ 53 ->
  (length items * length items <= fuel)%nat ->
  exists out b,
    main fuel cfg items = Ok out /\ verification out = Ok b
    /\ Forall counter_ok [train_diff b; dev_diff b; test_diff b;
                          train_tab b; dev_tab b; test_tab b]
    /\ zsum (map snd (train_diff b)) = Z.of_nat (length (train_list out))
    /\ zsum (map snd (dev_diff b)) = Z.of_nat (length (dev_list out))
    /\ zsum (map snd (test_diff b)) = Z.of_nat (length (test_list out))
    /\ zsum (map snd (train_tab b)) = Z.of_nat (length (train_list out))
    /\ zsum (map snd (dev_tab b)) = Z.of_nat (length (dev_list out))
    /\ zsum (map snd (test_tab b)) = Z.of_nat (length (test_list out))
    /\ (forall d, counter_get d (train_diff b) + counter_get d (dev_diff b)
                  + counter_get d (test_diff b) = labelled difficulty_of d items)
    /\ (forall t, counter_get t (train_tab b) + counter_get t (dev_tab b)
                  + counter_get t (test_tab b) = labelled table_of t items).
Proof.
  intros n Hc Hids Hv Hn Hfuel.
  destruct (main_strata fuel cfg items Hc Hids Hv Hn Hfuel)
    as (g & ga & tr & dv & te & _ & _ & Hmain & _ & _ & _ & Hpart & _).
  eexists. eexists. split; [exact Hmain |].
  unfold verification. cbn [outputs_of train_list dev_list test_list].
  rewrite !breakdown_complete by (apply pick_complete; exact Hc). cbn [bind].
  split; [reflexivity |].
  cbn [train_diff dev_diff test_diff train_tab dev_tab test_tab].
  destruct (Counter_labelled difficulty_of (pick tr items)) as (A1 & A2 & A3).
  destruct (Counter_labelled difficulty_of (pick dv items)) as (B1 & B2 & B3).
  destruct (Counter_labelled difficulty_of (pick te items)) as (C1 & C2 & C3).
  destruct (Counter_labelled table_of (pick tr items)) as (D1 & D2 & D3).
  destruct (Counter_labelled table_of (pick dv items)) as (E1 & E2 & E3).
  destruct (Counter_labelled table_of (pick te items)) as (F1 & F2 & F3).
  split; [repeat (apply Forall_cons; [assumption |]); apply Forall_nil |].
  do 6 (split; [assumption |]).
  split.
  - intros d. rewrite A3, B3, C3, <- (labelled_perm _ d _ _ Hpart), !labelled_app. lia.
  - intros t. rewrite D3, E3, F3, <- (labelled_perm _ t _ _ Hpart), !labelled_app. lia.
Qed.

End Report.

(** ** The exceptions a run can end in *)

Lemma build_groups_Ok_complete items : forall g0 g,
  build_groups items g0 = Ok g -> Forall complete items.
Proof.
  induction items as [| it items IH]; intros g0 g Hrun; [constructor |].
  simpl in Hrun.
  destruct (difficulty_level it) as [d |] eqn:Ed; simpl in Hrun; [| discriminate].
  destruct (table it) as [t |] eqn:Et; simpl in Hrun; [| discriminate].
  destruct (id it) as [i |] eqn:Ei; simpl in Hrun; [| discriminate].
  constructor; [| exact (IH _ _ Hrun)].
  unfold complete. rewrite Ed, Et, Ei. repeat split; discriminate.
Qed.

Lemma build_groups_cases items : forall g0,
  (exists g, build_groups items g0 = Ok g)
  \/ exists k, build_groups items g0 = Raise (KeyError k) /\ key_name k.
Proof.
  unfold key_name.
  induction items as [| it items IH]; intros g0; simpl; [left; eauto |].
  destruct (difficulty_level it); simpl; [| right; eexists; split; [reflexivity | auto]].
  destruct (table it); simpl; [| right; eexists; split; [reflexivity | auto]].
  destruct (id it); simpl; [| right; eexists; split; [reflexivity | auto]].
  apply IH.
Qed.

Lemma walk_keys sk fracs : forall d ga, map fst (fst (walk sk fracs d ga)) = map fst ga.
Proof.
  induction fracs as [| [[f k] cap] rest IH]; intros d ga; simpl; [reflexivity |].
  destruct (0 <? d); [| reflexivity].
  destruct (0 <? cap); [| apply IH].
  rewrite IH. apply dict_update_keys.
Qed.

Lemma round_robin_cases sk keys :
  keys <> [] ->
  forall fuel idx d ga,
    map fst ga = keys ->
    (exists ga', round_robin fuel sk keys idx d ga = Ok ga' /\ map fst ga' = keys)
    \/ round_robin fuel sk keys idx d ga = OutOfFuel.
Proof.
  intros Hne. induction fuel as [| fuel IH]; intros idx d ga Hk; cbn [round_robin].
  - destruct (0 <? d); [right; reflexivity | left; eauto].
  - destruct (0 <? d); [| left; eauto].
    destruct keys as [| k0 keys']; [contradiction |].
    set (keys := k0 :: keys') in *.
    set (k := nth (idx mod length keys)%nat keys k0).
    assert (Hin : In k (map fst ga)).
    { rewrite Hk. apply nth_In. apply Nat.mod_upper_bound. unfold keys; simpl; lia. }
    destruct (dict_get_keys k ga Hin) as [v ->].
    destruct (count sk v <? size v); [| apply IH; exact Hk].
    apply IH. rewrite dict_update_keys. exact Hk.
Qed.

Lemma adjust_cases fuel sk target_total ga :
  ga <> [] \/ target_total = 0 ->
  (exists ga', adjust_for_target fuel sk target_total ga = Ok ga' /\ map fst ga' = map fst ga)
  \/ adjust_for_target fuel sk target_total ga = OutOfFuel.
Proof.
  intros Hcase. unfold adjust_for_target.
  destruct (target_total - total sk ga =? 0) eqn:E0; [left; eauto |].
  assert (Hne : ga <> []).
  { destruct Hcase as [Hne | ->]; [exact Hne |]. intros ->. discriminate. }
  pose proof (walk_keys sk (sort_fracs (map (frac_of sk) ga)) (target_total - total sk ga) ga) as Hk.
  destruct (walk sk _ _ ga) as [ga1 d1]. cbn [fst] in Hk.
  destruct (0 <? d1); [| left; eauto].
  destruct (round_robin_cases sk (map fst ga1)
              ltac:(rewrite Hk; destruct ga; [contradiction | discriminate])
              fuel 0%nat d1 ga1 eq_refl) as [(ga' & -> & Hk') | ->].
  - left. exists ga'. split; [reflexivity | congruence].
  - right. reflexivity.
Qed.

Lemma allocate_cases fuel cfg (n : Z) (g : groups_t) :
  g <> [] \/ n = 0 ->
  (exists ga, allocate fuel cfg n g = Ok ga /\ map fst ga = map fst g)
  \/ allocate fuel cfg n g = OutOfFuel.
Proof.
  intros Hcase. unfold allocate, adjusted.
  assert (Hinit : forall f, init_group_alloc cfg g <> [] \/ target n f = 0).
  { intros f. destruct Hcase as [Hne | ->]; [left | right; apply target_zero].
    unfold init_group_alloc. destruct g; [contradiction | discriminate]. }
  destruct (adjust_cases fuel Train (target n (TRAIN_FRAC cfg)) _ (Hinit _))
    as [(ga1 & -> & Hk1) | ->]; [| right; reflexivity].
  cbn [bind].
  assert (Hinit1 : ga1 <> [] \/ target n (DEV_FRAC cfg) = 0).
  { destruct (Hinit (DEV_FRAC cfg)) as [Hne | Hz]; [left | right; exact Hz].
    intros ->. apply Hne. destruct (init_group_alloc cfg g); [reflexivity | discriminate]. }
  destruct (adjust_cases fuel Dev (target n (DEV_FRAC cfg)) ga1 Hinit1)
    as [(ga2 & -> & Hk2) | ->]; [| right; reflexivity].
  cbn [bind]. left. eexists. split; [reflexivity |].
  destruct (reconcile_spec (target n (TRAIN_FRAC cfg)) (target n (DEV_FRAC cfg)) ga2) as [Hp _].
  rewrite (pointwise_keys _ _ _ Hp), Hk2, Hk1. apply init_keys.
Qed.

Lemma select_total items d chosen :
  build_id_to_item items [] = Ok d ->
  exists l, select d (map id_of items) chosen = Ok l /\ incl l items.
Proof.
  intros Hd. unfold select.
  assert (Hlook : forall i, In i (map id_of items) ->
                    exists it, dict_get Z.eqb i d = Some it /\ In it items).
  { intros i Hin. rewrite (build_id_to_item_last items [] d Hd i).
    destruct (find (fun it => id_of it =? i) (rev items)) as [it |] eqn:Ef.
    - exists it. split; [reflexivity |]. apply find_some in Ef as [Hit _].
      apply in_rev. exact Hit.
    - exfalso. apply in_map_iff in Hin as (it & Hid & Hit).
      pose proof (find_none _ _ Ef it (proj1 (in_rev _ _) Hit)) as Hf.
      cbv beta in Hf. rewrite Hid, Z.eqb_refl in Hf. discriminate. }
  assert (Hsub : incl (filter (fun i => mem i chosen) (map id_of items)) (map id_of items))
    by (intros i Hi; apply filter_In in Hi as [Hi _]; exact Hi).
  induction (filter (fun i => mem i chosen) (map id_of items)) as [| i l IH]; simpl.
  - exists []. split; [reflexivity | intros ? []].
  - destruct (Hlook i (Hsub i (or_introl eq_refl))) as (it & -> & Hit).
    destruct (IH (fun j Hj => Hsub j (or_intror Hj))) as (l' & -> & Hl').
    simpl. exists (it :: l'). split; [reflexivity |].
    intros x [<- | Hx]; [exact Hit | exact (Hl' x Hx)].
Qed.

Section Failures.
Context `{PRNG}.

Lemma assign_ids_total : forall gs ga s acc,
  incl (map fst gs) (map fst ga) -> exists r, assign_ids gs ga s acc = Ok r.
Proof.
  induction gs as [| [k ids] gs IH]; intros ga s acc Hincl; cbn [assign_ids]; [eauto |].
  destruct (shuffle_ok ids s) as (x & s' & -> & _). cbn [bind].
  destruct (dict_get_keys k ga (Hincl k (or_introl eq_refl))) as [a ->].
  destruct acc as [[a1 a2] a3]. apply IH.
  intros k' Hk'. apply Hincl. right. exact Hk'.
Qed.

(** X17. For every pool of fewer than 2^53 items whose ids are integers
    and whose labels are strings, fractions between 0 and 1, and whatever
    the seed and the generator, the computation (reading and writing the
    files aside) can only fail with a KeyError for one of the keys id,
    difficulty_level and table read from an item, or with the
    AssertionError of the uniqueness check: it never raises IndexError,
    never divides by zero, and never misses a key in group_alloc or
    id_to_item; breakdown never fails once the lists are built. *)
Theorem script_fails_only_on_item_keys_or_the_assertion fuel cfg items :
  valid_fractions cfg -> Z.of_nat (length items) < 2 ^ 53 ->
  match script fuel cfg items with
  | Raise e => expected_failure e
  | _ => True
  end.
Proof.
  intros _ _. unfold script, main.
  destruct (build_id_to_item_cases items []) as [[d Hd] | ->];
    [rewrite Hd | cbn; left; reflexivity].
  destruct (build_all_ids_cases items) as [[l Hl] | ->];
    [rewrite Hl | cbn; left; reflexivity].
  cbn [bind].
  destruct (build_groups_cases items []) as [[g Hg] | (k & -> & Hk)];
    [rewrite Hg | cbn; exact Hk].
  cbn [bind].
  pose proof (build_groups_Ok_complete items [] g Hg) as Hc.
  rewrite (build_all_ids_ok items Hc) in Hl. injection Hl as <-.
  pose proof (build_groups_closed items Hc) as Hclosed. rewrite Hg in Hclosed.
  injection Hclosed as Hclosed.
  assert (Hcase : g <> [] \/ Z.of_nat (length items) = 0).
  { destruct items as [| it items']; [right; reflexivity | left].
    rewrite Hclosed. simpl. discriminate. }
  destruct (allocate_cases fuel cfg _ g Hcase) as [(ga & -> & Hkeys) | ->];
    [| cbn; exact I].
  cbn [bind].
  destruct (assign_ids_total (sort_groups g) ga (Random (SEED cfg)) ([], [], [])) as [[[tr dv] te] ->].
  { rewrite Hkeys. intros k Hk. apply (Permutation_in k (Permutation_sym (Permutation_map fst (sort_groups_perm g)))).
    exact Hk. }
  cbn [bind].
  destruct (distinct_count (tr, dv, te) =? Z.of_nat (length items)); [| cbn; exact I].
  destruct (select_total items d tr Hd) as (l1 & -> & H1).
  destruct (select_total items d dv Hd) as (l2 & -> & H2).
  destruct (select_total items d te Hd) as (l3 & -> & H3).
  cbn [bind]. unfold verification. cbn [train_list dev_list test_list].
  assert (Hsub : forall l', incl l' items -> Forall complete l').
  { intros l' Hl'. apply Forall_forall. intros it Hit.
    rewrite Forall_forall in Hc. exact (Hc it (Hl' it Hit)). }
  rewrite !breakdown_complete by (apply Hsub; assumption).
  cbn. exact I.
Qed.

End Failures.

(** ** The floors never add up to more than the target *)

Lemma init_total_le_target cfg (g : groups_t) :
  let n := Z.of_nat (length (concat (map snd g))) in
  valid_fractions cfg -> n < 2 ^ 51 ->
  total Train (init_group_alloc cfg g) <= target n (TRAIN_FRAC cfg)
  /\ total Dev (init_group_alloc cfg g) <= target n (DEV_FRAC cfg).
Proof.
  intros n [Ht Hd] Hn.
  set (sizes := map (fun kids : key * list Z => Z.of_nat (length (snd kids))) g).
  assert (Hsum : n = zsum sizes).
  { unfold n, sizes. rewrite length_concat_zsum. unfold sizes_of. rewrite map_map. reflexivity. }
  assert (Hpos : Forall (fun x => 0 <= x) sizes).
  { unfold sizes. apply Forall_map. apply Forall_forall. intros; lia. }
  rewrite Hsum in Hn |- *.
  pose proof (F64More.floors_le_target sizes _ Ht Hpos Hn) as Lt.
  pose proof (F64More.floors_le_target sizes _ Hd Hpos Hn) as Ld.
  unfold total, init_group_alloc, sizes in *. rewrite !map_map in *.
  split; assumption.
Qed.

(** X18. The final reconciliation (lines 89-122) never changes anything
    on a well-formed pool of fewer than 2^51 items with fractions between 0
    and 1: the floors of a split never add up to more than its target, so
    each adjust_for_target call ends with the counts adding up to exactly
    the target, and both reconciliation blocks are skipped. *)
Theorem reconciliation_changes_nothing fuel cfg items :
  let n := Z.of_nat (length items) in
  Forall complete items -> valid_fractions cfg -> n < 2 ^ 51 ->
  (length items * length items <= fuel)%nat ->
  exists g ga,
    build_groups items [] = Ok g
    /\ adjusted fuel cfg n g = Ok ga
    /\ total Train ga = target n (TRAIN_FRAC cfg)
    /\ total Dev ga = target n (DEV_FRAC cfg)
    /\ reconcile (target n (TRAIN_FRAC cfg)) (target n (DEV_FRAC cfg)) ga = ga
    /\ allocate fuel cfg n g = Ok ga.
Proof.
  intros n Hc Hv Hn Hfuel.
  destruct (build_groups_ok items [] Hc ltac:(constructor) ltac:(constructor))
    as (g & Hg & Hnd & Hne & Hperm).
  simpl in Hperm.
  assert (Hlen : length (concat (map snd g)) = length items)
    by (rewrite (Permutation_length Hperm); apply length_map).
  assert (Hn' : Z.of_nat (length (concat (map snd g))) = n) by (rewrite Hlen; reflexivity).
  destruct (init_total_le_target cfg g Hv ltac:(rewrite Hn'; exact Hn)) as [Lt Ld].
  rewrite Hn' in Lt, Ld.
  assert (Hn53 : n < 2 ^ 53) by (change (2 ^ 53) with (2 ^ 51 * 4); lia).
  destruct Hv as [Hft Hfd].
  set (ga0 := init_group_alloc cfg g) in *.
  assert (Hnd0 : NoDup (map fst ga0)) by (unfold ga0; rewrite init_keys; assumption).
  assert (Hok0 : Forall (fun kv => alloc_ok (snd kv)) ga0)
    by (apply init_ok; [assumption | assumption | rewrite Hn'; exact Hn53]).
  assert (Hsz0 : total_size ga0 = n).
  { rewrite total_size_shape. unfold ga0. rewrite init_shape, <- Hn'. symmetry.
    apply length_concat_zsum. }
  assert (Hlen0 : (length ga0 <= length items)%nat).
  { unfold ga0, init_group_alloc. rewrite length_map, <- Hlen. apply groups_count_le; assumption. }
  pose proof (F64Facts.target_bounds n _ ltac:(unfold n in *; lia) Hft) as Htt.
  pose proof (F64Facts.target_bounds n _ ltac:(unfold n in *; lia) Hfd) as Htd.
  assert (Hf : forall tg (l : group_alloc_t), 0 <= tg <= n ->
             (length l <= length items)%nat -> (Z.to_nat tg * length l <= fuel)%nat).
  { intros tg l Htg Hl. assert (Z.to_nat tg <= length items)%nat by (unfold n in Htg; lia). nia. }
  destruct (adjust_spec fuel Train (target n (TRAIN_FRAC cfg)) ga0 Hnd0
              (ok_total_nonneg Train ga0 Hok0) ltac:(lia) (Hf _ _ Htt Hlen0))
    as (ga1 & Hrun1 & Hp1 & Hhit1 & _ & _).
  assert (Hk1 : map fst ga1 = map fst ga0) by (eapply pointwise_keys; exact Hp1).
  assert (Hok1 : Forall (fun kv => alloc_ok (snd kv)) ga1).
  { eapply pointwise_ok; [| exact Hp1 | exact Hok0]. intros ? ? ? Hr; exact (raised_kept _ _ _ Hr). }
  assert (Hsz1 : total_size ga1 = n).
  { rewrite <- Hsz0. eapply pointwise_size; [| exact Hp1]. intros ? ? ? Hr; exact (raised_kept _ _ _ Hr). }
  assert (Hlen1 : (length ga1 <= length items)%nat).
  { rewrite <- (length_map fst ga1), Hk1, length_map. exact Hlen0. }
  assert (Hd1 : total Dev ga1 = total Dev ga0).
  { apply (pointwise_total (fun _ => raised Train) Dev); [| exact Hp1].
    intros ? ? ? [(_ & _ & _ & Hcnt & _) _]. exact Hcnt. }
  destruct (adjust_spec fuel Dev (target n (DEV_FRAC cfg)) ga1 ltac:(rewrite Hk1; assumption)
              (ok_total_nonneg Dev ga1 Hok1) ltac:(lia) (Hf _ _ Htd Hlen1))
    as (ga & Hrun2 & Hp2 & Hhit2 & _ & _).
  assert (Ht2 : total Train ga = total Train ga1).
  { apply (pointwise_total (fun _ => raised Dev) Train); [| exact Hp2].
    intros ? ? ? [(_ & _ & _ & Hcnt & _) _]. exact Hcnt. }
  assert (Htrain : total Train ga = target n (TRAIN_FRAC cfg))
    by (rewrite Ht2; apply Hhit1; exact Lt).
  assert (Hdev : total Dev ga = target n (DEV_FRAC cfg))
    by (apply Hhit2; rewrite Hd1; exact Ld).
  assert (Hadj : adjusted fuel cfg n g = Ok ga).
  { unfold adjusted. fold ga0. rewrite Hrun1. cbn [bind]. exact Hrun2. }
  assert (Hrec : reconcile (target n (TRAIN_FRAC cfg)) (target n (DEV_FRAC cfg)) ga = ga).
  { unfold reconcile. rewrite Htrain, Z.eqb_refl, Hdev, Z.eqb_refl. reflexivity. }
  exists g, ga. split; [exact Hg |]. split; [exact Hadj |].
  split; [exact Htrain |]. split; [exact Hdev |]. split; [exact Hrec |].
  unfold allocate. rewrite Hadj. cbn [bind]. rewrite Hrec. reflexivity.
Qed.

(** ** The payload plays no part *)

Lemma read_keys_groups items1 : forall items2 g0,
  map read_keys items1 = map read_keys items2 ->
  build_groups items1 g0 = build_groups items2 g0.
Proof.
  induction items1 as [| a l1 IH]; intros [| b l2] g0 Heq; try discriminate; [reflexivity |].
  simpl in Heq. injection Heq as Hi Hd Ht Hrest. simpl. rewrite Hi, Hd, Ht.
  destruct (difficulty_level b); simpl; [| reflexivity].
  destruct (table b); simpl; [| reflexivity].
  destruct (id b); simpl; [| reflexivity].
  apply IH. exact Hrest.
Qed.

Lemma read_keys_ids items1 : forall items2,
  map read_keys items1 = map read_keys items2 ->
  map id_of items1 = map id_of items2 /\ (Forall complete items1 -> Forall complete items2).
Proof.
  induction items1 as [| a l1 IH]; intros [| b l2] Heq; try discriminate.
  - split; [reflexivity | intros; constructor].
  - simpl in Heq. injection Heq as Hi Hd Ht Hrest.
    destruct (IH l2 Hrest) as [Hids Hc]. split.
    + simpl. unfold id_of at 1 3. rewrite Hi, Hids. reflexivity.
    + intros Hall. inversion Hall as [| ? ? Ha Hl]; subst.
      constructor; [| exact (Hc Hl)]. unfold complete in *. rewrite <- Hi, <- Hd, <- Ht. exact Ha.
Qed.

Lemma map_id_pick chosen items :
  map id_of (pick chosen items) = filter (fun i => mem i chosen) (map id_of items).
Proof.
  unfold pick. induction items as [| it items IH]; simpl; [reflexivity |].
  destruct (mem (id_of it) chosen); simpl; rewrite IH; reflexivity.
Qed.

Section Payload.
Context `{PRNG}.

(** X19. Only the keys id, difficulty_level and table of an item are
    read: two well-formed pools that agree on these three keys, item by
    item, are split alike, whatever the other fields hold; the same
    positions go to train, dev and test and the verification totals are the
    same. *)
Theorem split_depends_only_on_the_three_keys fuel cfg items1 items2 :
  map read_keys items1 = map read_keys items2 ->
  Forall complete items1 -> NoDup (map id_of items1) ->
  valid_fractions cfg -> Z.of_nat (length items1) < 2 ^ 53 ->
  (length items1 * length items1 <= fuel)%nat ->
  exists out1 out2,
    main fuel cfg items1 = Ok out1 /\ main fuel cfg items2 = Ok out2
    /\ map id_of (train_list out1) = map id_of (train_list out2)
    /\ map id_of (dev_list out1) = map id_of (dev_list out2)
    /\ map id_of (test_list out1) = map id_of (test_list out2)
    /\ ver_report out1 = ver_report out2.
Proof.
  intros Heq Hc1 Hnd1 Hv Hn1 Hfuel1.
  destruct (read_keys_ids items1 items2 Heq) as [Hids Hc2']. pose proof (Hc2' Hc1) as Hc2.
  assert (Hlen : length items2 = length items1).
  { rewrite <- (length_map read_keys items2), <- Heq, length_map. reflexivity. }
  assert (Hnd2 : NoDup (map id_of items2)) by (rewrite <- Hids; exact Hnd1).
  destruct (main_run fuel cfg items1 Hc1 Hv Hn1 Hfuel1)
    as (g1 & ga1 & tr1 & dv1 & te1 & Hg1 & Hrun1 & Hasg1 & _ & _ & _ & _ & _ & Hmain1 & _).
  destruct (main_run fuel cfg items2 Hc2 Hv ltac:(rewrite Hlen; exact Hn1)
              ltac:(rewrite Hlen; exact Hfuel1))
    as (g2 & ga2 & tr2 & dv2 & te2 & Hg2 & Hrun2 & Hasg2 & _ & _ & _ & _ & _ & Hmain2 & _).
  rewrite <- (read_keys_groups items1 items2 [] Heq), Hg1 in Hg2. injection Hg2 as <-.
  rewrite Hlen, Hrun1 in Hrun2. injection Hrun2 as <-.
  rewrite Hasg1 in Hasg2. injection Hasg2 as <- <- <-.
  exists (outputs_of cfg items1 (tr1, dv1, te1)), (outputs_of cfg items2 (tr1, dv1, te1)).
  split; [exact (Hmain1 Hnd1) |]. split; [exact (Hmain2 Hnd2) |].
  cbn [outputs_of train_list dev_list test_list ver_report].
  rewrite !map_id_pick, Hids.
  split; [reflexivity |]. split; [reflexivity |]. split; [reflexivity |].
  assert (Hpl : forall c, length (pick c items1) = length (pick c items2)).
  { intros c. rewrite <- (length_map id_of (pick c items1)), <- (length_map id_of (pick c items2)).
    rewrite !map_id_pick, Hids. reflexivity. }
  rewrite !Hpl, Hlen. reflexivity.
Qed.

End Payload.

(** ** Fractions at the ends of the range *)

Lemma target_one n f : 0 <= n < 2 ^ 53 -> is_one f -> target n f = n.
Proof.
  unfold is_one. intros Hn Hf. pose proof (F64Facts.pow_fexp_pos f) as HP.
  unfold target. rewrite F64Facts.mul_of_int by lia.
  assert (Hr : F64.round53 (n * F64.fnum f) = n * 2 ^ Z.of_N (F64.fexp f)).
  { rewrite Hf. apply Z.le_antisymm.
    - apply F64Facts.round53_le_int; try lia; nia.
    - apply F64Facts.round53_ge_int; try lia; nia. }
  rewrite Hr. unfold F64.py_round. cbn [F64.fnum F64.fexp].
  rewrite Z.div_mul, Z.mod_mul by lia.
  replace (2 ^ Z.of_N (F64.fexp f) <? 2 * 0) with false by (symmetry; apply Z.ltb_ge; lia).
  replace (2 * 0 =? 2 ^ Z.of_N (F64.fexp f)) with false by (symmetry; apply Z.eqb_neq; lia).
  reflexivity.
Qed.

Lemma target_of_zero n f : 0 <= n < 2 ^ 53 -> is_zero f -> target n f = 0.
Proof.
  unfold is_zero. intros Hn Hf. pose proof (F64Facts.pow_fexp_pos f) as HP.
  unfold target. rewrite F64Facts.mul_of_int by lia.
  rewrite Hf, Z.mul_0_r. change (F64.round53 0) with 0.
  unfold F64.py_round. cbn [F64.fnum F64.fexp].
  rewrite Z.div_0_l, Z.mod_0_l by lia.
  replace (2 ^ Z.of_N (F64.fexp f) <? 2 * 0) with false by (symmetry; apply Z.ltb_ge; lia).
  replace (2 * 0 =? 2 ^ Z.of_N (F64.fexp f)) with false by (symmetry; apply Z.eqb_neq; lia).
  reflexivity.
Qed.

Lemma filter_all {A} (p : A -> bool) l : length (filter p l) = length l -> filter p l = l.
Proof.
  induction l as [| a l IH]; simpl; [reflexivity |].
  destruct (p a); simpl; intros Hlen.
  - f_equal. apply IH. lia.
  - pose proof (filter_length_le p l). lia.
Qed.

Lemma dev_cut_sum_le ga :
  Forall (fun kv => alloc_ok (snd kv)) ga ->
  0 <= zsum (map (fun kv => dev_cut (snd kv)) ga) <= total Dev ga.
Proof.
  induction 1 as [| [k v] ga (Ht & Hd & _) _ IH]; [unfold total; simpl; lia |].
  rewrite total_cons.
  change (zsum (map (fun kv => dev_cut (snd kv)) ((k, v) :: ga)))
    with (dev_cut v + zsum (map (fun kv => dev_cut (snd kv)) ga)).
  cbn [snd count] in *. unfold dev_cut at 1 3. lia.
Qed.

Section Ends.
Context `{PRNG}.

(** X20. The ends of the range: when TRAIN_FRAC is exactly 1.0 the whole
    pool goes to train, in input order, and dev and test are empty whatever
    DEV_FRAC is; when TRAIN_FRAC and DEV_FRAC are both 0.0 the whole pool
    goes to test. *)
Theorem fractions_at_the_ends_of_the_range fuel cfg items :
  Forall complete items -> NoDup (map id_of items) ->
  valid_fractions cfg -> Z.of_nat (length items) < 2 ^ 53 ->
  (length items * length items <= fuel)%nat ->
  exists out,
    main fuel cfg items = Ok out
    /\ (is_one (TRAIN_FRAC cfg) ->
        train_list out = items /\ dev_list out = [] /\ test_list out = [])
    /\ (is_zero (TRAIN_FRAC cfg) -> is_zero (DEV_FRAC cfg) ->
        train_list out = [] /\ dev_list out = [] /\ test_list out = items).
Proof.
  intros Hc Hids Hv Hn Hfuel.
  destruct (main_run fuel cfg items Hc Hv Hn Hfuel)
    as (g & ga & tr & dv & te & _ & _ & _ & Hpi & Hlt & Hld & Htd & Hok & Hmain & _).
  exists (outputs_of cfg items (tr, dv, te)). split; [exact (Hmain Hids) |].
  cbn [outputs_of train_list dev_list test_list].
  assert (Hnd3 : NoDup (tr ++ dv ++ te))
    by (exact (Permutation_NoDup (Permutation_sym Hpi) Hids)).
  assert (Hincl : forall i, In i (tr ++ dv ++ te) -> In i (map id_of items))
    by (intros i Hi; exact (Permutation_in _ Hpi Hi)).
  assert (Ptr : length (pick tr items) = length tr).
  { apply pick_length; [exact Hids | exact (NoDup_app_l _ _ Hnd3) |].
    intros i Hi. apply Hincl. rewrite !in_app_iff; auto. }
  assert (Pdv : length (pick dv items) = length dv).
  { apply pick_length; [exact Hids | exact (NoDup_app_l _ _ (NoDup_app_remove_l _ _ Hnd3)) |].
    intros i Hi. apply Hincl. rewrite !in_app_iff; auto. }
  pose proof (Permutation_length (pick_partition items tr dv te Hpi Hids)) as Hsum.
  rewrite !length_app in Hsum.
  pose proof (dev_cut_sum_le ga Hok) as Hcut.
  assert (Hnil : forall l : list item, length l = 0%nat -> l = [])
    by (intros [| ? ?]; [reflexivity | discriminate]).
  split.
  - intros Hone. rewrite (target_one (Z.of_nat (length items)) _ ltac:(lia) Hone) in Hlt.
    assert (Hfull : length (pick tr items) = length items) by lia.
    split; [apply filter_all; exact Hfull |].
    split; apply Hnil; lia.
  - intros Hz1 Hz2. rewrite (target_of_zero (Z.of_nat (length items)) _ ltac:(lia) Hz1) in Hlt.
    rewrite (target_of_zero (Z.of_nat (length items)) _ ltac:(lia) Hz2) in Htd.
    assert (H1 : length (pick tr items) = 0%nat) by lia.
    assert (H2 : length (pick dv items) = 0%nat) by lia.
    split; [apply Hnil; exact H1 |]. split; [apply Hnil; exact H2 |].
    apply filter_all. change (length (pick te items) = length items). lia.
Qed.

End Ends.

(** ** Where the fallback starts *)

Lemma nth_keys_app (l1 l2 : group_alloc_t) k v k0 :
  nth (length l1) (map fst (l1 ++ (k, v) :: l2)) k0 = k.
Proof.
  rewrite map_app, app_nth2 by (rewrite length_map; lia).
  rewrite length_map, Nat.sub_diag. reflexivity.
Qed.

Lemma split_unique {V} (l1 l2 d1 d2 : list (key * V)) k v v' :
  NoDup (map fst (l1 ++ (k, v) :: l2)) ->
  l1 ++ (k, v) :: l2 = d1 ++ (k, v') :: d2 -> d1 = l1 /\ d2 = l2.
Proof.
  revert d1. induction l1 as [| [k1 v1] l1 IHl]; intros [| [k2 v2] d1] Hnd Hga; simpl in *.
  - injection Hga as _ <-. auto.
  - injection Hga as <- _ ->. exfalso. inversion Hnd as [| ? ? Hni _]; subst.
    apply Hni. rewrite map_app. apply in_or_app. right. left. reflexivity.
  - injection Hga as -> _ <-. exfalso. inversion Hnd as [| ? ? Hni _]; subst.
    apply Hni. rewrite map_app. apply in_or_app. right. left. reflexivity.
  - injection Hga as <- <- Hga. inversion Hnd as [| ? ? _ Hnd']; subst.
    destruct (IHl d1 Hnd' Hga) as [-> ->]. auto.
Qed.

Lemma round_robin_skips_full sk (l1 l2 : group_alloc_t) k v : forall j idx fuel,
  NoDup (map fst (l1 ++ (k, v) :: l2)) ->
  Forall (fun kv : key * alloc => size (snd kv) <= count sk (snd kv)) l1 ->
  count sk v < size v ->
  (idx + j = length l1)%nat -> (j + 1 <= fuel)%nat ->
  round_robin fuel sk (map fst (l1 ++ (k, v) :: l2)) idx 1 (l1 ++ (k, v) :: l2)
  = Ok (l1 ++ (k, bump sk v) :: l2).
Proof.
  assert (Hget : NoDup (map fst (l1 ++ (k, v) :: l2)) ->
                 dict_get key_eqb k (l1 ++ (k, v) :: l2) = Some v).
  { intros Hnd. apply In_dict_get; [exact Hnd |]. apply in_or_app. right. left. reflexivity. }
  induction j as [| j IH]; intros idx fuel Hnd Hfull Hlt Hidx Hfuel;
    (destruct fuel as [| fuel]; [lia |]);
    assert (Hlen : (idx < length (map fst (l1 ++ (k, v) :: l2)))%nat)
      by (rewrite length_map, length_app; simpl; lia);
    remember (map fst (l1 ++ (k, v) :: l2)) as keys eqn:Ek;
    (destruct keys as [| k0 keys']; [simpl in Hlen; lia |]);
    cbn [round_robin]; change (0 <? 1) with true; cbv iota;
    rewrite Nat.mod_small by exact Hlen; rewrite Ek in *.
  - replace idx with (length l1) by lia. rewrite nth_keys_app.
    rewrite (Hget Hnd).
    replace (count sk v <? size v) with true by (symmetry; apply Z.ltb_lt; exact Hlt).
    destruct (dict_update_split k (bump sk) _ v Hnd (Hget Hnd)) as (d1 & d2 & Hga & Hupd).
    rewrite Hupd.
    destruct (split_unique l1 l2 d1 d2 k v v Hnd Hga) as [-> ->].
    destruct fuel; reflexivity.
  - assert (Hin1 : (idx < length l1)%nat) by lia.
    set (kv := nth idx l1 (k0, v)).
    assert (Hkv : In kv l1) by (apply nth_In; exact Hin1).
    assert (Hk : nth idx (map fst (l1 ++ (k, v) :: l2)) k0 = fst kv).
    { rewrite map_app, app_nth1 by (rewrite length_map; exact Hin1).
      change k0 with (fst (k0, v)). rewrite map_nth. reflexivity. }
    rewrite Hk.
    assert (Hgetkv : dict_get key_eqb (fst kv) (l1 ++ (k, v) :: l2) = Some (snd kv)).
    { apply In_dict_get; [exact Hnd |]. apply in_or_app. left.
      destruct kv; exact Hkv. }
    rewrite Hgetkv.
    replace (count sk (snd kv) <? size (snd kv)) with false
      by (symmetry; apply Z.ltb_ge; rewrite Forall_forall in Hfull; exact (Hfull kv Hkv)).
    apply IH; try assumption; lia.
Qed.

(** X22. Where the round-robin fallback starts: the first missing unit
    goes to the first stratum, in the order of group_alloc, whose count for
    the split is below its size, whether or not that stratum has spare
    capacity; the strata before it are skipped and nothing else changes. *)
Theorem fallback_serves_the_first_stratum_below_its_size fuel sk
  (l1 l2 : group_alloc_t) k v :
  NoDup (map fst (l1 ++ (k, v) :: l2)) ->
  Forall (fun kv : key * alloc => size (snd kv) <= count sk (snd kv)) l1 ->
  count sk v < size v ->
  (length l1 + 1 <= fuel)%nat ->
  round_robin fuel sk (map fst (l1 ++ (k, v) :: l2)) 0 1 (l1 ++ (k, v) :: l2)
  = Ok (l1 ++ (k, bump sk v) :: l2).
Proof.
  intros Hnd Hfull Hlt Hfuel.
  apply (round_robin_skips_full sk l1 l2 k v (length l1) 0%nat fuel Hnd Hfull Hlt); lia.
Qed.

(** ** The further theorems at concrete pools *)

Ltac keys_distinct :=
  repeat (apply NoDup_cons; [simpl; intuition discriminate |]); apply NoDup_nil.

Ltac all_have_ids :=
  repeat (apply Forall_cons; [discriminate |]); apply Forall_nil.

Ltac allocs_in_range :=
  repeat (apply Forall_cons;
          [vm_compute; repeat match goal with |- _ /\ _ => split end;
           try reflexivity; intro; discriminate |]);
  apply Forall_nil.

Lemma missing_id_is_reported_first_witness :
  @main lcg 0 default_config [keyless; bare] = Raise (KeyError "id").
Proof.
  apply (@missing_id_is_reported_first lcg 0 default_config [keyless; bare]).
  apply Exists_cons_tl. apply Exists_cons_hd. reflexivity.
Defined.

Lemma first_incomplete_item_names_the_key_witness :
  @main lcg 0 default_config (pool3 ++ keyless :: [unlabelled]) = Raise (KeyError "table").
Proof.
  apply (@first_incomplete_item_names_the_key lcg 0 default_config pool3 keyless [unlabelled]).
  - unfold pool3; simpl; all_have_ids.
  - unfold pool3; simpl; all_complete.
  - right; reflexivity.
Defined.

Lemma id_to_item_keeps_the_last_item_witness :
  exists d, build_id_to_item pool_dup [] = Ok d
    /\ dict_get Z.eqb 3 d = Some (mk_item 3 "hard" "production").
Proof.
  destruct (id_to_item_keeps_the_last_item pool_dup) as (d & Hd & Hlook).
  - unfold pool_dup, pool10; simpl; all_have_ids.
  - exists d. split; [exact Hd |]. rewrite Hlook. reflexivity.
Defined.

Lemma groups_are_the_strata_in_input_order_witness :
  exists g, build_groups pool10 [] = Ok g /\ map fst g = [easy; hard].
Proof.
  destruct (groups_are_the_strata_in_input_order pool10) as (g & Hg & Hk & _).
  - unfold pool10; simpl; all_complete.
  - exists g. split; [exact Hg | exact Hk].
Defined.

Lemma target_is_within_one_of_the_exact_product_witness :
  0 <= target 10 (TRAIN_FRAC default_config) <= 10.
Proof.
  apply (target_is_within_one_of_the_exact_product 10 (TRAIN_FRAC default_config)).
  - split; [lia | reflexivity].
  - split; apply Z.leb_le; reflexivity.
Defined.

Lemma floor_allocation_bounds_witness :
  0 <= train (floor_alloc default_config [1; 2; 3; 4; 5; 6; 7]) <= 7.
Proof.
  apply (floor_allocation_bounds default_config [1; 2; 3; 4; 5; 6; 7]).
  - fractions_in_range.
  - reflexivity.
Defined.

Lemma shipped_fractions_leave_room_for_test_witness :
  1 <= test (floor_alloc default_config [8; 9; 10]).
Proof.
  apply (shipped_fractions_leave_room_for_test 10 [8; 9; 10]).
  - split; [lia | reflexivity].
  - discriminate.
  - reflexivity.
Defined.

Lemma adjust_for_target_meets_the_target_witness :
  exists ga', adjust_for_target 100 Train 7 (init_group_alloc default_config g10) = Ok ga'
    /\ total Train ga' = 7.
Proof.
  destruct (adjust_for_target_meets_the_target 100 Train 7 (init_group_alloc default_config g10))
    as (ga' & Hrun & _ & _ & Hmeet & _).
  - simpl; keys_distinct.
  - apply Z.leb_le; reflexivity.
  - apply Z.leb_le; reflexivity.
  - simpl; lia.
  - exists ga'. split; [exact Hrun |]. apply Hmeet. apply Z.leb_le; reflexivity.
Defined.


Lemma reconcile_loop_reaches_the_target_witness :
  total Train (reconcile_loop Train 7 [] (init_group_alloc default_config g10)
                 (7 - total Train (init_group_alloc default_config g10))) = 7.
Proof.
  apply (reconcile_loop_reaches_the_target Train 7 (init_group_alloc default_config g10)).
  - simpl; allocs_in_range.
  - lia.
  - apply Z.leb_le; reflexivity.
Defined.

Lemma slices_cut_the_stratum_witness :
  py_slice [1; 2; 3; 4; 5; 6; 7] None (Some 5)
  ++ py_slice [1; 2; 3; 4; 5; 6; 7] (Some 5) (Some (5 + 1))
  ++ py_slice [1; 2; 3; 4; 5; 6; 7] (Some (5 + 1)) None
  = [1; 2; 3; 4; 5; 6; 7].
Proof.
  apply (slices_cut_the_stratum [1; 2; 3; 4; 5; 6; 7] 5 1); lia.
Defined.

Lemma largest_remainders_are_served_first_witness :
  exists ga', adjust_for_target 100 Train 7 (init_group_alloc default_config g10) = Ok ga'.
Proof.
  destruct (largest_remainders_are_served_first 100 Train 7 (init_group_alloc default_config g10))
    as (ga' & Hrun & _).
  - simpl; keys_distinct.
  - split; apply Z.leb_le; reflexivity.
  - exists ga'. exact Hrun.
Defined.

Lemma each_stratum_is_cut_by_its_allocation_witness :
  exists ga out, allocate 100 default_config 10 g10 = Ok ga
    /\ @main lcg 100 default_config pool10 = Ok out
    /\ forall k a, In (k, a) ga ->
         Z.of_nat (length (stratum k (train_list out))) = train a.
Proof.
  destruct (@each_stratum_is_cut_by_its_allocation lcg 100 default_config pool10)
    as (g & ga & out & Hg & Hrun & Hmain & _ & Hs).
  - unfold pool10; simpl; all_complete.
  - ids_distinct.
  - fractions_in_range.
  - apply Z.ltb_lt; reflexivity.
  - simpl; lia.
  - injection Hg as <-. exists ga, out. split; [exact Hrun |]. split; [exact Hmain |].
    intros k a Hin. apply (Hs k a Hin).
Defined.

Lemma counts_do_not_depend_on_the_seed_witness :
  exists o1 o2,
    @main lcg 100 (with_seed default_config 1) pool10 = Ok o1
    /\ @main lcg 100 (with_seed default_config 2) pool10 = Ok o2
    /\ ver_report o1 = ver_report o2.
Proof.
  destruct (counts_do_not_depend_on_the_seed lcg lcg 100 default_config 1 2 pool10)
    as (o1 & o2 & H1 & H2 & Hrep & _).
  - unfold pool10; simpl; all_complete.
  - ids_distinct.
  - fractions_in_range.
  - apply Z.ltb_lt; reflexivity.
  - simpl; lia.
  - exists o1, o2. split; [exact H1 |]. split; [exact H2 | exact Hrep].
Defined.

Lemma report_counters_add_up_to_the_pool_witness :
  exists out b, @main lcg 100 default_config pool10 = Ok out /\ verification out = Ok b
    /\ counter_get "easy" (train_diff b) + counter_get "easy" (dev_diff b)
       + counter_get "easy" (test_diff b) = 7.
Proof.
  destruct (@report_counters_add_up_to_the_pool lcg 100 default_config pool10)
    as (out & b & Hmain & Hver & _ & _ & _ & _ & _ & _ & _ & Hd & _).
  - unfold pool10; simpl; all_complete.
  - ids_distinct.
  - fractions_in_range.
  - apply Z.ltb_lt; reflexivity.
  - simpl; lia.
  - exists out, b. split; [exact Hmain |]. split; [exact Hver |].
    rewrite (Hd "easy"%string). reflexivity.
Defined.

Lemma reconciliation_changes_nothing_witness :
  exists ga, adjusted 100 default_config 10 g10 = Ok ga
    /\ allocate 100 default_config 10 g10 = Ok ga.
Proof.
  destruct (reconciliation_changes_nothing 100 default_config pool10)
    as (g & ga & Hg & Hadj & _ & _ & _ & Hall).
  - unfold pool10; simpl; all_complete.
  - fractions_in_range.
  - apply Z.ltb_lt; reflexivity.
  - simpl; lia.
  - injection Hg as <-. exists ga. split; [exact Hadj | exact Hall].
Defined.

Lemma split_depends_only_on_the_three_keys_witness :
  exists out1 out2,
    @main lcg 100 default_config pool10 = Ok out1
    /\ @main lcg 100 default_config pool10_reworded = Ok out2
    /\ map id_of (train_list out1) = map id_of (train_list out2).
Proof.
  destruct (@split_depends_only_on_the_three_keys lcg 100 default_config pool10 pool10_reworded)
    as (out1 & out2 & H1 & H2 & Htr & _).
  - reflexivity.
  - unfold pool10; simpl; all_complete.
  - ids_distinct.
  - fractions_in_range.
  - apply Z.ltb_lt; reflexivity.
  - simpl; lia.
  - exists out1, out2. split; [exact H1 |]. split; [exact H2 | exact Htr].
Defined.

Lemma fractions_at_the_ends_of_the_range_witness :
  exists out, @main lcg 100 cfg_all_train pool10 = Ok out
    /\ train_list out = pool10 /\ dev_list out = [] /\ test_list out = [].
Proof.
  destruct (@fractions_at_the_ends_of_the_range lcg 100 cfg_all_train pool10)
    as (out & Hmain & Hone & _).
  - unfold pool10; simpl; all_complete.
  - ids_distinct.
  - fractions_in_range.
  - apply Z.ltb_lt; reflexivity.
  - simpl; lia.
  - exists out. split; [exact Hmain |]. apply Hone. reflexivity.
Defined.

Lemma fallback_serves_the_first_stratum_below_its_size_witness :
  round_robin 10 Train [easy; hard] 0 1 (init_group_alloc default_config g10)
  = Ok [(easy, bump Train (floor_alloc default_config [1; 2; 3; 4; 5; 6; 7]));
        (hard, floor_alloc default_config [8; 9; 10])].
Proof.
  apply (fallback_serves_the_first_stratum_below_its_size 10 Train []
           [(hard, floor_alloc default_config [8; 9; 10])]
           easy (floor_alloc default_config [1; 2; 3; 4; 5; 6; 7])).
  - simpl; keys_distinct.
  - apply Forall_nil.
  - reflexivity.
  - simpl; lia.
Defined.

Lemma script_fails_only_on_item_keys_or_the_assertion_witness :
  match @script lcg 200 default_config pool_dup with
  | Raise e => expected_failure e
  | _ => True
  end.
Proof.
  apply (@script_fails_only_on_item_keys_or_the_assertion lcg 200 default_config pool_dup).
  - fractions_in_range.
  - apply Z.ltb_lt; reflexivity.
Defined.
